(** * Spiders: the scrape-and-download pipeline of [Songs/scrappy_spider.py]

    A shallow embedding of the query loader, the query simplifier, the
    modulo partition, the session retry loop, the multi-strategy navigation,
    the download watcher, the collision-free renaming and the worker /
    orchestrator loops, followed by the properties the specification states
    about them and by further properties of the same code. The file-name
    sanitizer of [NPTEL/nptel_spider.py] is embedded as well.

    Conventions.
    - A Python [str] is a [string]; its characters are the code points below
      256, which is all the constants of the program need.
    - Wall-clock times and file modification times are integers counting
      milliseconds ([0.2] seconds is [200]).
    - A directory is identified by a value of [dir], a file by a directory
      and a name.
    - Everything outside the program (browser, file system, scheduler) is an
      abstract host state; each call into it returns a value or raises, and
      takes a non-negative amount of time. *)

From Stdlib Require Import ZArith Lia Ascii String.
From stdpp Require Import base decidable option list strings gmap pretty.

Local Open Scope string_scope.
Local Open Scope list_scope.
Local Open Scope nat_scope.

(* ===================================================================== *)
(** * Part I: definitions                                                 *)
(* ===================================================================== *)

(** ** Python string operations used by the program *)

(** [str.isspace] on a single character (code points below 256). *)
Definition is_space (c : ascii) : bool :=
  let n := nat_of_ascii c in
  ((9 <=? n)%nat && (n <=? 13)%nat) || ((28 <=? n)%nat && (n <=? 32)%nat)
  || (n =? 133)%nat || (n =? 160)%nat.

(** [s.lstrip()] *)
Fixpoint lstrip (s : string) : string :=
  match s with
  | String c s' => if is_space c then lstrip s' else s
  | EmptyString => EmptyString
  end.

(** [s.rstrip()] *)
Fixpoint rstrip (s : string) : string :=
  match s with
  | String c s' =>
      match rstrip s' with
      | EmptyString => if is_space c then EmptyString else String c EmptyString
      | r => String c r
      end
  | EmptyString => EmptyString
  end.

(** [s.strip()] *)
Definition strip (s : string) : string := rstrip (lstrip s).

(** [s.startswith(p)] *)
Fixpoint startswith (p s : string) : bool :=
  match p, s with
  | EmptyString, _ => true
  | String a p', String b s' => if Ascii.eqb a b then startswith p' s' else false
  | String _ _, EmptyString => false
  end.

(** [sep in s] *)
Fixpoint contains (sep s : string) : bool :=
  startswith sep s ||
  match s with
  | String _ s' => contains sep s'
  | EmptyString => false
  end.

(** [s.split(sep)[0]] for a non-empty [sep]: the text before the first
    occurrence of [sep], all of [s] when there is none. *)
Fixpoint split_head (sep s : string) : string :=
  if startswith sep s then EmptyString
  else match s with
       | String c s' => String c (split_head sep s')
       | EmptyString => EmptyString
       end.

(** [s[:n]] *)
Fixpoint str_take (n : nat) (s : string) : string :=
  match n, s with
  | S n', String c s' => String c (str_take n' s')
  | _, _ => EmptyString
  end.

(** [s[n:]] *)
Fixpoint str_drop (n : nat) (s : string) : string :=
  match n, s with
  | S n', String _ s' => str_drop n' s'
  | _, _ => s
  end.

(** [s.endswith(p)] *)
Definition endswith (p s : string) : bool :=
  (String.length p <=? String.length s)%nat
  && String.eqb (str_drop (String.length s - String.length p) s) p.

(** [s.lower()] on the letters [A]-[Z]. *)
Definition lower_char (c : ascii) : ascii :=
  let n := nat_of_ascii c in
  if (65 <=? n)%nat && (n <=? 90)%nat then ascii_of_nat (n + 32) else c.

Fixpoint lower (s : string) : string :=
  match s with
  | String c s' => String (lower_char c) (lower s')
  | EmptyString => EmptyString
  end.

(** Truth value of a string: [bool(s)]. *)
Definition nonempty (s : string) : bool :=
  match s with EmptyString => false | _ => true end.

(** [a or b] on optional strings ([None] and [""] are falsy); the result of
    the chain is again a string or [None]. *)
Definition py_or (a b : option string) : option string :=
  match a with
  | Some s => if nonempty s then a else b
  | None => b
  end.

(** [x or ""] *)
Definition or_empty (a : option string) : string :=
  match a with
  | Some s => s
  | None => EmptyString
  end.

(** ** [simplify_query] *)

(** One round of the [for sep in ["(", "["]] loop. *)
Definition drop_qualifier (sep base : string) : string :=
  if contains sep base then strip (split_head sep base) else base.

Definition simplify_query (q : string) : string :=
  let base := strip (split_head " - " q) in
  let base := drop_qualifier "(" base in
  let base := drop_qualifier "[" base in
  if (90 <? String.length base)%nat then str_take 90 base else base.

(** The specification's wording of the same function: cut the query at the
    first separator token ([" - "], ["("] or ["["]), whichever comes first,
    trim, and keep at most 90 characters. *)
Fixpoint truncate_at_first_separator (q : string) : string :=
  if startswith " - " q || startswith "(" q || startswith "[" q
  then EmptyString
  else match q with
       | String c q' => String c (truncate_at_first_separator q')
       | EmptyString => EmptyString
       end.

Definition simplify_query_spec (q : string) : string :=
  str_take 90 (strip (truncate_at_first_separator q)).

(** ** [read_queries] *)

(** A row of [csv.DictReader]: the cells by column name; a column that is
    missing, or whose cell is [None] because the row is short, has no
    entry. *)
Abbreviation row := (gmap string string).

Definition track_of (r : row) : string :=
  strip (or_empty (r !! "track_name")).

Definition artist_of (r : row) : string :=
  strip (or_empty (py_or (r !! "artist_name") (r !! "artist_names"))).

(** The generator, as the list of the values it yields. *)
Fixpoint read_queries (rows : list row) : list string :=
  match rows with
  | r :: rows' =>
      let t := track_of r in
      let u := artist_of r in
      if nonempty t
      then (if nonempty u then t +:+ " - " +:+ u else t) :: read_queries rows'
      else read_queries rows'
  | [] => []
  end.

(** The claimed reading of the loader: the artist is taken from an artist
    column that is non-empty after stripping, whichever of the two it is. *)
Definition artist_spec (r : row) : string :=
  let a := strip (or_empty (r !! "artist_name")) in
  if nonempty a then a else strip (or_empty (r !! "artist_names")).

Definition query_spec (r : row) : string :=
  if nonempty (artist_spec r)
  then track_of r +:+ " - " +:+ artist_spec r
  else track_of r.

Definition read_queries_spec (rows : list row) : list string :=
  query_spec <$> filter (λ r, nonempty (track_of r) = true) rows.

(** A row whose [artist_name] cell is blank but not empty. *)
Definition blank_artist_row : row :=
  <["track_name" := "Song"]>
    (<["artist_name" := " "]> (<["artist_names" := "Beatles"]> ∅)).

(** ** The partition step of [run] *)

(** [enumerate(l)] *)
Definition enumerate {A} (l : list A) : list (nat * A) := imap pair l.

Abbreviation task := (nat * string)%type.

(** [buckets[i % CONCURRENCY].append((i, q))] *)
Definition bucket_append (n : nat) (buckets : list (list task)) (t : task)
  : list (list task) :=
  alter (λ b, b ++ [t]) (t.1 mod n) buckets.

(** The [buckets] built by [run] for [CONCURRENCY = n]. For [n = 0] Python
    raises at [i % 0]; the model is only used for [n > 0], where the index
    is in range. *)
Definition make_buckets (n : nat) (queries : list string) : list (list task) :=
  foldl (bucket_append n) (replicate n []) (enumerate queries).

(** [[(wid, tasks) for wid, tasks in enumerate(buckets) if tasks]]: the
    workers that are submitted to the pool. *)
Definition submitted (buckets : list (list task)) : list (nat * list task) :=
  filter (λ wt, wt.2 ≠ []) (enumerate buckets).

(** ** Paths *)

(** The directories the program touches: [DOWNLOADS], the worker folder
    [DOWNLOADS / f"worker_{k}"], and the root of the browser profiles. *)
Inductive dir :=
| Downloads
| WorkerDir (k : nat)
| CacheRoot.

#[global] Instance dir_eq_dec : EqDecision dir.
Proof. solve_decision. Defined.

Record path := Path { parent : dir; name : string }.

(** [name.rfind('.')]: the index of the last dot, if any. *)
Fixpoint rfind_dot (s : string) : option nat :=
  match s with
  | String c s' =>
      match rfind_dot s' with
      | Some i => Some (S i)
      | None => if Ascii.eqb c "." then Some 0 else None
      end
  | EmptyString => None
  end.

(** [pathlib]'s split of a name into [stem] and [suffix]: the suffix starts
    at the last dot, unless that dot is the first or the last character. *)
Definition suffix_at (s : string) : option nat :=
  match rfind_dot s with
  | Some i => if (0 <? i) && (i <? String.length s - 1) then Some i else None
  | None => None
  end.

Definition suffix (s : string) : string :=
  match suffix_at s with
  | Some i => str_drop i s
  | None => EmptyString
  end.

Definition stem (s : string) : string :=
  match suffix_at s with
  | Some i => str_take i s
  | None => s
  end.

(** ** Collision-free names in the shared directory *)

(** [f"{stem} ({k}){suf}"] *)
Definition numbered (s : string) (k : nat) : string :=
  stem s +:+ " (" +:+ pretty k +:+ ")" +:+ suffix s.

(** The [while True] loop of [process_worker] that looks for the first
    free numbered name, against one listing [taken] of [DOWNLOADS]. Each
    round either stops or uses up one taken name, so [fuel] rounds with
    [fuel] above the size of the listing are enough; [None] stands for a
    loop that is still running when the fuel is used up. *)
Fixpoint first_free (fuel : nat) (taken : gset string) (s : string) (k : nat)
  : option string :=
  match fuel with
  | S fuel' =>
      let cand := numbered s k in
      if decide (cand ∈ taken) then first_free fuel' taken s (S k)
      else Some cand
  | 0 => None
  end.

(** The name under which a completed file called [s] is placed in
    [DOWNLOADS] (the spec's [resolve_collision]). *)
Definition resolve_collision (taken : gset string) (s : string) : option string :=
  if decide (s ∈ taken) then first_free (S (size taken)) taken s 1
  else Some s.

(** ** Placements in the shared folder

    Every worker thread runs the [if got:] branch of its loop (lines
    423-438) on the one folder [DOWNLOADS]: first the existence checks that
    choose the target, then [shutil.move]. Nothing holds the folder between
    the two, so the steps of different workers interleave. *)

(** [DOWNLOADS]: under every name, the file that was moved there. *)
Abbreviation folder := (gmap string path).

(** The placement of a worker: its completed file [got] and, once the
    existence checks are done, its [target]. *)
Record placement := Placement { completed : path; target : option path }.

(** Whose turn it is: worker [wid] chooses its target, or its
    [shutil.move] runs and succeeds or raises. *)
Inductive turn :=
| Choose (wid : nat)
| Move (wid : nat) (succeeds : bool).

(** [Choose]: the target is chosen against the folder as it is at that
    moment; the existence checks of one choice are taken together, a finer
    interleaving only adds runs. [Move]: the rename puts the file under the
    target name, in the place of a file that lies there already; when it
    raises, nothing moves and [target = got]. *)
Definition step (st : folder * list placement) (a : turn)
  : folder * list placement :=
  match a with
  | Choose wid =>
      match st.2 !! wid with
      | Some p =>
          (st.1,
           <[wid := Placement (completed p)
                      (Path Downloads
                         <$> resolve_collision (dom st.1) (name (completed p)))]>
             st.2)
      | None => st
      end
  | Move wid succeeds =>
      match st.2 !! wid with
      | Some (Placement got (Some t)) =>
          if succeeds then (<[name t := got]> st.1, st.2)
          else (st.1, <[wid := Placement got (Some got)]> st.2)
      | _ => st
      end
  end.

Definition play (st : folder * list placement) (schedule : list turn)
  : folder * list placement :=
  foldl step st schedule.

(** The names printed after [Downloaded:], worker by worker. *)
Definition reported (st : folder * list placement) : list (option string) :=
  (λ p, name <$> target p) <$> st.2.

(** Workers that have completed files of the given names, each in its own
    folder, and have not chosen yet. *)
Definition waiting (names : list string) : list placement :=
  imap (λ wid n, Placement (Path (WorkerDir (wid + 1)) n) None) names.

(** ** Exceptions, outcomes and the host *)

(** The subclasses of [Exception] the program distinguishes. *)
Inductive exn :=
| SessionNotCreatedException (msg : string)
| FileNotFoundError (msg : string)
| RuntimeError (msg : string)
| OtherException (cls msg : string).

Definition is_session_not_created (e : exn) : bool :=
  match e with SessionNotCreatedException _ => true | _ => false end.

Definition is_file_not_found (e : exn) : bool :=
  match e with FileNotFoundError _ => true | _ => false end.

Definition any_exception (e : exn) : bool := true.

(** How a computation ends: with a value, with an exception, or not within
    the fuel given to one of its loops. *)
Inductive outcome (A : Type) :=
| Ok (a : A)
| Raise (e : exn)
| Unfinished.
Arguments Ok {A} a.
Arguments Raise {A} e.
Arguments Unfinished {A}.

(** A handle of a page element. *)
Abbreviation elem := nat.

(** Selenium locators: [(By.CSS_SELECTOR, ".result")] and the like. *)
Abbreviation locator := (string * string)%type.

(** An argument of [execute_script]. *)
Inductive js_arg :=
| JsElem (e : elem)
| JsStr (s : string).

(** What the program prints, and the calls of the host that the properties
    below talk about, in the order in which they happen. *)
Inductive event :=
| LQuery (idx : nat) (q : string)          (* [idx+1] query *)
| LNoResults (idx : nat)                   (* -> No results found *)
| LDownloaded (idx : nat) (file : path)    (* -> Downloaded: file.name *)
| LNoFile (idx : nat)                      (* -> Warning: No completed file detected *)
| LNoQueries                               (* No queries to process. *)
| LTotal (queries concurrency : nat)       (* Total queries: .. | Concurrency: .. *)
| LWorkerError (e : exn)                   (* Worker error: e *)
| LDone                                    (* Done. Files saved to: .. *)
| EMkdtemp (profile : string)              (* tempfile.mkdtemp returned profile *)
| ERmtree (p : string)                     (* shutil.rmtree(p, ignore_errors=True) *)
| ELaunch (profile : string) (download_dir : dir) (err : option exn)
                                           (* webdriver.Chrome(..) returned or raised *)
| ENavigate (label : string) (result : exn + bool)
                                           (* one strategy of force_nav ran: it
                                              raised, or it loaded a page that is
                                              or is not on the site *)
| EQuit                                    (* d.quit() was called *)
| EMove (src dst : path) (err : option exn)
                                           (* shutil.move(src, dst) returned or raised *).

(** Kinds of events. *)
Definition is_downloaded (e : event) : bool :=
  match e with LDownloaded _ _ => true | _ => false end.
Definition is_failed (e : event) : bool :=
  match e with LNoFile _ => true | _ => false end.
Definition is_skipped (e : event) : bool :=
  match e with LNoResults _ => true | _ => false end.
Definition is_launch (e : event) : bool :=
  match e with ELaunch _ _ _ => true | _ => false end.
Definition is_failed_launch (e : event) : bool :=
  match e with ELaunch _ _ (Some _) => true | _ => false end.

(** How often a kind of event occurs in a log. *)
Definition count (f : event → bool) (tr : list event) : nat :=
  length (filter (λ e, f e = true) tr).

(** The outcome lines of a log: downloaded, failed, skipped. *)
Definition outcomes (tr : list event) : nat :=
  count is_downloaded tr + count is_failed tr + count is_skipped tr.

(** A call into the host at a given time, from a given host state: the
    answer, the new host state, and the time the call took. *)
Record answer (H A : Type) := Answer { ans : A; host_after : H; took : N }.
Arguments Answer {H A} ans host_after took.
Arguments ans {H A} _.
Arguments host_after {H A} _.
Arguments took {H A} _.

(** A call that may raise, and one that does not. *)
Abbreviation hcall H A := (Z → H → answer H (exn + A)).
Abbreviation hask H A := (Z → H → answer H A).

(** The capabilities the program uses: file system, browser driver. *)
Record Host (H : Type) := {
  (* pathlib, shutil, tempfile *)
  listdir : dir → hask H (list string);       (* the entries of a directory *)
  stat_mtime : path → hcall H Z;              (* p.stat().st_mtime *)
  path_exists : path → hask H bool;           (* p.exists() *)
  is_file : path → hask H bool;               (* p.is_file() *)
  mkdir : dir → hcall H unit;                 (* d.mkdir(parents=True, exist_ok=True) *)
  rmtree : path → hask H unit;                (* shutil.rmtree(p, ignore_errors=True) *)
  mkdtemp : hcall H string;                   (* tempfile.mkdtemp(prefix=.., dir=cache_root) *)
  move : path → path → hcall H unit;          (* shutil.move(src, dst) *)
  (* selenium *)
  chrome : string → dir → hcall H unit;       (* webdriver.Chrome(service, options) *)
  quit : hcall H unit;                        (* d.quit() *)
  get : string → hcall H unit;                (* d.get(url) *)
  execute_script : string → list js_arg → hcall H (option string);
  execute_cdp_cmd : string → string → hcall H unit;
  new_window : string → hcall H unit;         (* d.switch_to.new_window(kind) *)
  switch_window : string → hcall H unit;      (* d.switch_to.window(handle) *)
  close_window : hcall H unit;                (* d.close() *)
  current_url : hcall H (option string);
  current_window_handle : hcall H string;
  window_handles : hcall H (list string);
  wait_ready_state : Z → hcall H unit;        (* WebDriverWait(d, t).until(readyState complete) *)
  wait_presence : option elem → locator → Z → hcall H elem;
                                              (* WebDriverWait(scope, t).until(presence_of_element_located) *)
  find_elements : locator → hcall H (list elem);
  find_element_in : elem → locator → hcall H elem;
  get_attribute : elem → string → hcall H (option string);
  search_here : string → hcall H unit;
      (* the nested helper of process_worker (lines 263-354): it only drives
         the browser, and the query loop sees it return or raise *)
}.
Arguments listdir {H} _.
Arguments stat_mtime {H} _.
Arguments path_exists {H} _.
Arguments is_file {H} _.
Arguments mkdir {H} _.
Arguments rmtree {H} _.
Arguments mkdtemp {H} _.
Arguments move {H} _.
Arguments chrome {H} _.
Arguments quit {H} _.
Arguments get {H} _.
Arguments execute_script {H} _.
Arguments execute_cdp_cmd {H} _.
Arguments new_window {H} _.
Arguments switch_window {H} _.
Arguments close_window {H} _.
Arguments current_url {H} _.
Arguments current_window_handle {H} _.
Arguments window_handles {H} _.
Arguments wait_ready_state {H} _.
Arguments wait_presence {H} _.
Arguments find_elements {H} _.
Arguments find_element_in {H} _.
Arguments get_attribute {H} _.
Arguments search_here {H} _.

(** The state a thread of the program runs in: its clock, the host, and
    what it has printed and called so far. *)
Record world (H : Type) := World { now : Z; host : H; log : list event }.
Arguments World {H} now host log.
Arguments now {H} _.
Arguments host {H} _.
Arguments log {H} _.

(** ** The monad of the program: state, exceptions, fuel *)

Definition M (H A : Type) : Type := world H → outcome A * world H.

Definition ret {H A} (a : A) : M H A := λ w, (Ok a, w).

Definition bind {H A B} (m : M H A) (k : A → M H B) : M H B :=
  λ w, match m w with
       | (Ok a, w') => k a w'
       | (Raise e, w') => (Raise e, w')
       | (Unfinished, w') => (Unfinished, w')
       end.

#[global] Instance M_ret {H} : MRet (M H) := λ A, ret.
#[global] Instance M_bind {H} : MBind (M H) := λ A B k m, bind m k.

(** [raise e] *)
Definition raise {H A} (e : exn) : M H A := λ w, (Raise e, w).

Definition unfinished {H A} : M H A := λ w, (Unfinished, w).

(** [time.time()] *)
Definition time {H} : M H Z := λ w, (Ok (now w), w).

(** [time.sleep(ms / 1000)] *)
Definition sleep {H} (ms : Z) : M H unit :=
  λ w, (Ok (), World (now w + Z.max 0 ms) (host w) (log w)).

(** [print(..)], and the record of a host call. *)
Definition emit {H} (e : event) : M H unit :=
  λ w, (Ok (), World (now w) (host w) (log w ++ [e])).

(** A host call that may raise. *)
Definition call {H A} (c : hcall H A) : M H A :=
  λ w, let a := c (now w) (host w) in
       let w' := World (now w + Z.of_N (took a)) (host_after a) (log w) in
       match ans a with
       | inl e => (Raise e, w')
       | inr x => (Ok x, w')
       end.

(** A host call that does not raise. *)
Definition ask {H A} (c : hask H A) : M H A :=
  λ w, let a := c (now w) (host w) in
       (Ok (ans a), World (now w + Z.of_N (took a)) (host_after a) (log w)).

(** [try: m  except C as e: handler(e)], where [C] is the class of the
    exceptions [catches] accepts. *)
Definition try_except {H A} (catches : exn → bool) (m : M H A)
    (handler : exn → M H A) : M H A :=
  λ w, match m w with
       | (Raise e, w') => if catches e then handler e w' else (Raise e, w')
       | r => r
       end.

(** [try: m  finally: cleanup] *)
Definition try_finally {H A} (m : M H A) (cleanup : M H unit) : M H A :=
  λ w, match m w with
       | (Ok a, w') => bind cleanup (λ _, ret a) w'
       | (Raise e, w') => bind cleanup (λ _, raise e) w'
       | (Unfinished, w') => (Unfinished, w')
       end.

(** The result of a call, kept as a value: [Some e] when it raised. *)
Definition attempt {H A} (m : M H A) : M H (exn + A) :=
  try_except any_exception (bind m (λ a, ret (inr a))) (λ e, ret (inl e)).

Definition error_of {A} (r : exn + A) : option exn :=
  match r with inl e => Some e | inr _ => None end.

(** Re-raise the exception of a kept result. *)
Definition reraise {H A} (r : exn + A) : M H A :=
  match r with inl e => raise e | inr a => ret a end.

(** The number of rounds a loop [while time.time() < deadline: ..; sleep(step)]
    can make from time [t] on. *)
Definition rounds (t deadline step : Z) : nat :=
  S (Z.to_nat ((deadline - t + step) / step)).

(** ** The program *)

Definition SITE_URL : string := "https://mp3juice.co/".
Definition WAIT : Z := 45000.

Definition result_locator : locator := ("css selector", ".result").
Definition mp3_locator : locator :=
  ("xpath", ".//a[normalize-space()='MP3 Download']").
Definition download_locator : locator :=
  ("xpath", ".//a[normalize-space()='Download']").

(** The driver object; [_temp_user_data] is the attribute [build_driver]
    sets on it. *)
Record driver := Driver { _temp_user_data : string }.

(** The four navigation strategies of [force_nav], by label. *)
Inductive strategy := Direct | Js | NewTab | Cdp.

Definition label (s : strategy) : string :=
  match s with
  | Direct => "direct"
  | Js => "js"
  | NewTab => "new_tab"
  | Cdp => "cdp"
  end.

Definition targets : list strategy := [Direct; Js; NewTab; Cdp].

(** ["mp3juice" in (d.current_url or "").lower()] *)
Definition on_site (url : option string) : bool :=
  contains "mp3juice" (lower (or_empty url)).

(** [fnmatch] against ["*.crdownload"]. *)
Definition is_crdownload (n : string) : bool := endswith ".crdownload" n.

(** The test that skips hidden and partial files in the scans of
    [wait_for_download]. *)
Definition hidden_or_partial (n : string) : bool :=
  startswith "." n || String.eqb (suffix n) ".crdownload".

Section program.
Context {H : Type} (hst : Host H).

Local Open Scope Z_scope.

(** *** [build_driver] *)

(** One round of [for attempt in range(3)]: either the driver that is
    returned, or the values of [user_data] and [last_err] with which the
    loop continues. The directory [cache_root] is [CacheRoot]; the browser
    options, which do not affect the control flow, are left out. *)
Definition build_driver_attempt (base_dir : dir) (user_data : option string)
  : M H (driver + (option string * option exn)) :=
  try_except is_session_not_created
    (match user_data with
     | Some old =>
         b ← ask (path_exists hst (Path CacheRoot old));
         if b : bool
         then ask (rmtree hst (Path CacheRoot old));; emit (ERmtree old)
         else mret ()
     | None => mret ()
     end;;
     fresh ← call (mkdtemp hst);
     emit (EMkdtemp fresh);;
     r ← attempt (call (chrome hst fresh base_dir));
     emit (ELaunch fresh base_dir (error_of r));;
     match r with
     | inr _ => mret (inl (Driver fresh))
     | inl e =>
         if is_session_not_created e
         then mret (inr (Some fresh, Some e))
         else raise e
     end)
    (λ e, sleep 1000;; mret (inr (user_data, Some e))).

Fixpoint build_driver_loop (attempts : nat) (base_dir : dir)
    (user_data : option string) (last_err : option exn) : M H driver :=
  match attempts with
  | S attempts' =>
      r ← build_driver_attempt base_dir user_data;
      match r with
      | inl d => mret d
      | inr (user_data', last_err') =>
          build_driver_loop attempts' base_dir user_data' last_err'
      end
  | O =>
      raise (default
               (RuntimeError "Failed to create Chrome session after retries")
               last_err)
  end.

Definition build_driver (download_dir : option dir) : M H driver :=
  let base_dir := default Downloads download_dir in
  call (mkdir hst base_dir);;
  call (mkdir hst CacheRoot);;
  build_driver_loop 3 base_dir None None.

(** *** [cleanup_driver] *)

Definition cleanup_driver (d : driver) : M H unit :=
  try_finally
    (emit EQuit;; call (quit hst))
    (let tmp := _temp_user_data d in
     if nonempty tmp then
       b ← ask (path_exists hst (Path CacheRoot tmp));
       if b : bool
       then ask (rmtree hst (Path CacheRoot tmp));; emit (ERmtree tmp)
       else mret ()
     else mret ()).

(** *** [_wait_ready], [grant_notifications] *)

Definition _wait_ready (timeout : Z) : M H unit :=
  call (wait_ready_state hst timeout).

Definition grant_notifications : M H unit :=
  origin ← try_except any_exception
              (call (execute_script hst "return location.origin" []))
              (λ _, mret None);
  if nonempty (or_empty origin)
  then try_except any_exception
         (call (execute_cdp_cmd hst "Browser.grantPermissions" (or_empty origin)))
         (λ _, mret ())
  else mret ().

(** *** [force_nav] *)

Definition nav_action (s : strategy) (url : string) : M H unit :=
  match s with
  | Direct => call (get hst url)
  | Js =>
      call (get hst "about:blank");;
      call (execute_script hst "location.href = arguments[0];" [JsStr url]);;
      mret ()
  | NewTab => call (new_window hst "tab");; call (get hst url)
  | Cdp =>
      call (get hst "about:blank");;
      call (execute_cdp_cmd hst "Page.navigate" url)
  end.

(** The body of the [try] of one round: [true] when the round returns. *)
Definition nav_round (s : strategy) (url : string) : M H bool :=
  nav_action s url;;
  _wait_ready 15000;;
  u ← call (current_url hst);
  mret (on_site u).

Fixpoint force_nav_from (ts : list strategy) (url : string)
    (last_err : option exn) : M H unit :=
  match ts with
  | s :: ts' =>
      r ← attempt (nav_round s url);
      emit (ENavigate (label s) r);;
      match r with
      | inr true => mret ()
      | inr false => force_nav_from ts' url last_err
      | inl e => force_nav_from ts' url (Some e)
      end
  | [] =>
      raise (default (RuntimeError "Failed to navigate to site") last_err)
  end.

Definition force_nav (url : string) : M H unit :=
  force_nav_from targets url None.

(** *** [wait_for_download] *)

(** The [for p in ddir.glob('*.crdownload')] loop of phase 1, over the
    matching names: the most recently modified partial file that is not
    older than [new_after_ts]. *)
Fixpoint scan_latest (ddir : dir) (new_after_ts : Z) (names : list string)
    (latest : option (string * Z)) : M H (option (string * Z)) :=
  match names with
  | n :: names' =>
      st ← try_except is_file_not_found
              (mtime ← call (stat_mtime hst (Path ddir n)); mret (Some mtime))
              (λ _, mret None);
      match st with
      | Some mtime =>
          if new_after_ts <=? mtime then
            match latest with
            | Some (_, best) =>
                if best <? mtime
                then scan_latest ddir new_after_ts names' (Some (n, mtime))
                else scan_latest ddir new_after_ts names' latest
            | None => scan_latest ddir new_after_ts names' (Some (n, mtime))
            end
          else scan_latest ddir new_after_ts names' latest
      | None => scan_latest ddir new_after_ts names' latest
      end
  | [] => mret latest
  end.

(** The [for p in ddir.glob('*')] loop of the two fallbacks: the first
    entry that is neither hidden nor partial, is not older than
    [new_after_ts] and is a file. *)
Fixpoint scan_new (ddir : dir) (new_after_ts : Z) (names : list string)
  : M H (option path) :=
  match names with
  | n :: names' =>
      if hidden_or_partial n then scan_new ddir new_after_ts names'
      else
        hit ← try_except is_file_not_found
                (mtime ← call (stat_mtime hst (Path ddir n));
                 if new_after_ts <=? mtime
                 then ask (is_file hst (Path ddir n))
                 else mret false)
                (λ _, mret false);
        if hit : bool then mret (Some (Path ddir n))
        else scan_new ddir new_after_ts names'
  | [] => mret None
  end.

(** Phase 1: [while time.time() < end] with [time.sleep(0.2)]. *)
Fixpoint phase1 (fuel : nat) (ddir : dir) (new_after_ts deadline : Z)
  : M H (option string) :=
  match fuel with
  | S fuel' =>
      t ← time;
      if t <? deadline then
        names ← ask (listdir hst ddir);
        latest ← scan_latest ddir new_after_ts (filter is_crdownload names) None;
        match latest with
        | Some (candidate, _) => mret (Some candidate)
        | None => sleep 200;; phase1 fuel' ddir new_after_ts deadline
        end
      else mret None
  | O => unfinished
  end.

(** Phase 2: [while time.time() < end] with [time.sleep(0.3)]. *)
Fixpoint phase2 (fuel : nat) (ddir : dir) (new_after_ts deadline : Z)
    (candidate target_stem : string) : M H (option path) :=
  match fuel with
  | S fuel' =>
      t ← time;
      if t <? deadline then
        still ← ask (path_exists hst (Path ddir candidate));
        found ← (if still : bool then mret None
                 else
                   let final := Path ddir target_stem in
                   fe ← ask (path_exists hst final);
                   ff ← (if fe : bool then ask (is_file hst final) else mret false);
                   if ff : bool then mret (Some final)
                   else
                     names ← ask (listdir hst ddir);
                     scan_new ddir new_after_ts names);
        match found with
        | Some p => mret (Some p)
        | None =>
            sleep 300;;
            phase2 fuel' ddir new_after_ts deadline candidate target_stem
        end
      else mret None
  | O => unfinished
  end.

Definition wait_for_download (new_after_ts : Z) (timeout : Z)
    (download_dir : option dir) : M H (option path) :=
  t0 ← time;
  let deadline := t0 + timeout in
  let ddir := default Downloads download_dir in
  candidate ← phase1 (rounds t0 deadline 200) ddir new_after_ts deadline;
  match candidate with
  | None =>
      names ← ask (listdir hst ddir);
      scan_new ddir new_after_ts names
  | Some c =>
      let target_stem :=
        str_take (String.length c - String.length ".crdownload") c in
      phase2 (rounds t0 deadline 300) ddir new_after_ts deadline c target_stem
  end.

(** *** [close_new_tabs] *)

(** [for h in new_ones: try: .. except Exception: pass] *)
Fixpoint close_each (new_ones : list string) (grant_before_close : bool)
  : M H unit :=
  match new_ones with
  | h :: rest =>
      try_except any_exception
        (call (switch_window hst h);;
         (if grant_before_close then grant_notifications else mret ());;
         call (close_window hst))
        (λ _, mret ());;
      close_each rest grant_before_close
  | [] => mret ()
  end.

Definition close_new_tabs (baseline_handles : list string)
    (original_handle : string) (grant_before_close : bool) : M H unit :=
  try_except any_exception
    (current ← call (window_handles hst);
     let new_ones := filter (λ h, h ∉ baseline_handles) current in
     close_each new_ones grant_before_close;;
     call (switch_window hst original_handle))
    (λ _, mret ()).

(** *** The query loop of [process_worker] *)

(** [for block in results[:6]]: the first block with an MP3 button. *)
Fixpoint first_with_mp3 (blocks : list elem) : M H (option (elem * elem)) :=
  match blocks with
  | block :: rest =>
      r ← attempt (call (find_element_in hst block mp3_locator));
      match r with
      | inr mp3_btn => mret (Some (block, mp3_btn))
      | inl _ => first_with_mp3 rest
      end
  | [] => mret None
  end.

(** [while time.time() < end and not href.startswith("http")] *)
Fixpoint wait_href (fuel : nat) (dl_btn : elem) (deadline : Z) : M H unit :=
  match fuel with
  | S fuel' =>
      t ← time;
      if t <? deadline then
        href ← call (get_attribute hst dl_btn "href");
        if startswith "http" (or_empty href) then mret ()
        else sleep 200;; wait_href fuel' dl_btn deadline
      else mret ()
  | O => unfinished
  end.

(** [for p in worker_dir.glob('*')] in the watch loop: is there a new
    entry that is not older than the click? *)
Fixpoint find_new (worker_dir : dir) (before_names : list string)
    (click_time : Z) (names : list string) : M H bool :=
  match names with
  | n :: rest =>
      if bool_decide (n ∈ before_names)
      then find_new worker_dir before_names click_time rest
      else
        hit ← try_except is_file_not_found
                (mtime ← call (stat_mtime hst (Path worker_dir n));
                 mret (click_time <=? mtime))
                (λ _, mret false);
        if hit : bool then mret true
        else find_new worker_dir before_names click_time rest
  | [] => mret false
  end.

(** [while time.time() < end_watch and new_file is None] *)
Fixpoint watch_new (fuel : nat) (worker_dir : dir) (before_names : list string)
    (click_time deadline : Z) : M H unit :=
  match fuel with
  | S fuel' =>
      t ← time;
      if t <? deadline then
        names ← ask (listdir hst worker_dir);
        found ← find_new worker_dir before_names click_time names;
        sleep 200;;
        if found : bool then mret ()
        else watch_new fuel' worker_dir before_names click_time deadline
      else mret ()
  | O => unfinished
  end.

(** From the located results to the completed file (lines 368-422). *)
Definition fetch (worker_dir : dir) (results : list elem) (first : elem)
  : M H (option path) :=
  found ← first_with_mp3 (take 6 results);
  '(target_block, mp3_btn) ←
    match found with
    | Some p => mret p
    | None =>
        btn ← call (wait_presence hst (Some first) mp3_locator WAIT);
        mret (first, btn)
    end;
  call (execute_script hst "arguments[0].scrollIntoView({block:'center'})"
          [JsElem target_block]);;
  call (execute_script hst "arguments[0].click();" [JsElem mp3_btn]);;
  dl_btn ← call (wait_presence hst (Some target_block) download_locator WAIT);
  t ← time;
  wait_href (rounds t (t + 20000) 200) dl_btn (t + 20000);;
  call (execute_script hst "arguments[0].setAttribute('target','_self');"
          [JsElem dl_btn]);;
  try_except any_exception
    (call (execute_script hst
             "window._origOpen = window.open; window.open = function(){ return null; };"
             []);; mret ())
    (λ _, mret ());;
  before_names ← ask (listdir hst worker_dir);
  original ← call (current_window_handle hst);
  before_handles ← call (window_handles hst);
  click_time ← time;
  call (execute_script hst "arguments[0].click();" [JsElem dl_btn]);;
  t' ← time;
  watch_new (rounds t' (t' + 90000) 200) worker_dir before_names click_time
    (t' + 90000);;
  try_except any_exception
    (call (execute_script hst
             "if (window._origOpen) window.open = window._origOpen;" []);;
     mret ())
    (λ _, mret ());;
  close_new_tabs before_handles original true;;
  wait_for_download click_time 120000 (Some worker_dir).

(** The [if got:] branch (lines 424-438). The existence tests of one
    resolution are answered from one listing of [DOWNLOADS]. *)
Definition place_download (idx : nat) (got : path) : M H unit :=
  taken ← ask (listdir hst Downloads);
  match resolve_collision (list_to_set taken) (name got) with
  | Some free =>
      let target := Path Downloads free in
      r ← attempt (call (move hst got target));
      emit (EMove got target (error_of r));;
      emit (LDownloaded idx (match r with inl _ => got | inr _ => target end))
  | None => unfinished
  end.

(** The body of [for global_idx, query in tasks]. *)
Definition handle_query (worker_dir : dir) (t : task) : M H unit :=
  let '(global_idx, query) := t in
  emit (LQuery global_idx query);;
  call (search_here hst query);;
  call (wait_presence hst None result_locator WAIT);;
  sleep 500;;
  results ← call (find_elements hst result_locator);
  match results with
  | [] => emit (LNoResults global_idx)
  | first :: _ =>
      got ← fetch worker_dir results first;
      match got with
      | Some file => place_download global_idx file
      | None => emit (LNoFile global_idx)
      end
  end.

Fixpoint run_tasks (worker_dir : dir) (tasks : list task) : M H unit :=
  match tasks with
  | t :: tasks' => handle_query worker_dir t;; run_tasks worker_dir tasks'
  | [] => mret ()
  end.

(** *** [process_worker] *)

Definition process_worker (worker_id : nat) (tasks : list task) : M H unit :=
  let worker_dir := WorkerDir (worker_id + 1) in
  d ← build_driver (Some worker_dir);
  try_finally
    (sleep (250 * Z.of_nat worker_id);;
     match tasks with
     | [] => mret ()
     | _ :: _ => force_nav SITE_URL;; grant_notifications
     end;;
     run_tasks worker_dir tasks)
    (cleanup_driver d).

(** *** [run] *)

(** What a run leaves behind: how the main thread ended, what it printed,
    and for every submitted worker its number, its tasks and the way it
    ended. Every worker runs in a thread of its own, which is modelled as
    a world of its own: worker [wid] starts at time [t0] on the host state
    [hosts wid], with an empty log. The lines [Worker error: ..] are
    listed in the order of submission. *)
Record report := Report {
  run_outcome : outcome unit;
  main_log : list event;
  workers : list (nat * list task * (outcome unit * world H));
}.

Definition worker_error (r : nat * list task * (outcome unit * world H))
  : list event :=
  match r.2.1 with
  | Raise e => [LWorkerError e]
  | _ => []
  end.

Definition worker_finished (r : nat * list task * (outcome unit * world H))
  : bool :=
  match r.2.1 with
  | Unfinished => false
  | _ => true
  end.

Definition run_worker (t0 : Z) (hosts : nat → H) (wt : nat * list task)
  : nat * list task * (outcome unit * world H) :=
  (wt.1, wt.2, process_worker wt.1 wt.2 (World t0 (hosts wt.1) [])).

Definition run (concurrency : nat) (rows : list row) (t0 : Z)
    (hosts : nat → H) : report :=
  let queries := read_queries rows in
  match queries with
  | [] => Report (Ok ()) [LNoQueries] []
  | _ :: _ =>
      let total := LTotal (length queries) concurrency in
      if (concurrency =? 0)%nat then
        Report (Raise (OtherException "ZeroDivisionError"
                         "integer modulo by zero")) [total] []
      else
        let results :=
          run_worker t0 hosts <$> submitted (make_buckets concurrency queries) in
        let errors := results ≫= worker_error in
        if forallb worker_finished results
        then Report (Ok ()) (total :: errors ++ [LDone]) results
        else Report Unfinished (total :: errors) results
  end.

(** The counts a reader of the logs of a run can make: the lines
    [Downloaded], [No completed file detected] and [No results found] of
    all workers. *)
Definition tally (f : event → bool) (rep : report) : nat :=
  sum_list_with (λ r : nat * list task * (outcome unit * world H),
                   count f (log r.2.2))
    (workers rep).

Definition downloaded (rep : report) : nat := tally is_downloaded rep.
Definition failed (rep : report) : nat := tally is_failed rep.
Definition skipped (rep : report) : nat := tally is_skipped rep.
End program.

(** ** A scripted host

    A host whose answers are fixed in advance, for running the program on
    concrete scenarios: the content of every directory at every time, and
    whether the browser launches, whether the result list shows up and
    whether [shutil.move] works. Its calls take no time. *)

(** A directory entry: name, modification time, and whether it is a regular
    file. *)
Abbreviation entry := (string * Z * bool)%type.

Record script := Script {
  files_at : Z → dir → list entry;
  chrome_fails : bool;
  results_fail : bool;
  move_fails : bool;
  profiles : nat;          (* profile directories handed out so far *)
}.

Definition lookup_entry (n : string) (l : list entry) : option entry :=
  list_find (λ e : entry, e.1.1 = n) l ≫= λ r, Some r.2.

Definition instantly {A} (a : A) : hask script A := λ _ h, Answer a h 0%N.

Definition scripted : Host script := {|
  listdir d := λ t h, Answer ((λ e : entry, e.1.1) <$> files_at h t d) h 0%N;
  stat_mtime p := λ t h,
    Answer (match lookup_entry (name p) (files_at h t (parent p)) with
            | Some e => inr e.1.2
            | None => inl (FileNotFoundError (name p))
            end) h 0%N;
  path_exists p := λ t h,
    Answer (match parent p with
            | CacheRoot => true
            | d => bool_decide (is_Some (lookup_entry (name p) (files_at h t d)))
            end) h 0%N;
  is_file p := λ t h,
    Answer (match lookup_entry (name p) (files_at h t (parent p)) with
            | Some e => e.2
            | None => false
            end) h 0%N;
  mkdir _ := instantly (inr ());
  rmtree _ := instantly ();
  mkdtemp := λ _ h,
    Answer (inr ("chromium_profile_" +:+ pretty (profiles h)))
      (Script (files_at h) (chrome_fails h) (results_fail h) (move_fails h)
         (S (profiles h))) 0%N;
  move _ _ := λ _ h,
    Answer (if move_fails h then inl (OtherException "OSError" "cannot move")
            else inr ()) h 0%N;
  chrome _ _ := λ _ h,
    Answer (if chrome_fails h
            then inl (SessionNotCreatedException "user data directory is already in use")
            else inr ()) h 0%N;
  quit := instantly (inr ());
  get _ := instantly (inr ());
  execute_script _ _ := instantly (inr None);
  execute_cdp_cmd _ _ := instantly (inr ());
  new_window _ := instantly (inr ());
  switch_window _ := instantly (inr ());
  close_window := instantly (inr ());
  current_url := instantly (inr (Some SITE_URL));
  current_window_handle := instantly (inr "tab-0");
  window_handles := instantly (inr ["tab-0"]);
  wait_ready_state _ := instantly (inr ());
  wait_presence _ _ _ := λ _ h,
    Answer (if results_fail h then inl (OtherException "TimeoutException" "")
            else inr 0) h 0%N;
  find_elements _ := instantly (inr [0]);
  find_element_in _ _ := instantly (inr 1);
  get_attribute _ _ := instantly (inr (Some "https://cdn.example/file"));
  search_here _ := instantly (inr ());
|}.

(** A directory that never holds anything. *)
Definition no_files : Z → dir → list entry := λ _ _, [].

(** A host on which everything works and nothing is ever downloaded. *)
Definition idle_script : script := Script no_files false false false 0.

(** A host on which the result list never shows up. *)
Definition no_results_script : script := Script no_files false true false 0.

(** A host on which the browser never launches. *)
Definition no_browser_script : script := Script no_files true false false 0.

(** A worker folder [d] that holds the finished file ["song.mp3"] from time
    [1000] on, and a shared directory that already holds ["song.mp3"]. *)
Definition song_files (d : dir) : Z → dir → list entry := λ t d',
  match d' with
  | Downloads => [("song.mp3", 0%Z, true)]
  | _ =>
      if bool_decide (d' = d) && (1000 <=? t)%Z
      then [("song.mp3", t, true)] else []
  end.

(** The download completes, but moving the file fails. *)
Definition move_fails_script (d : dir) : script :=
  Script (song_files d) false false true 0.

(** The specification's example for the watcher: in [d] the partial file
    ["x.mp3.crdownload"] is there from time [1000] on and is replaced by
    ["x.mp3"] at time [replaced]. *)
Definition replaced_files (d : dir) (replaced : Z) : Z → dir → list entry :=
  λ t d',
  if bool_decide (d' = d) then
    if (t <? 1000)%Z then []
    else if (t <? replaced)%Z then [("x.mp3.crdownload", t, true)]
    else [("x.mp3", replaced, true)]
  else [].

Definition replaced_script (d : dir) (replaced : Z) : script :=
  Script (replaced_files d replaced) false false false 0.

(** A partial file that is there only from [1050] to [1150], between two
    polls of phase 1, and is then replaced by the final file. *)
Definition flash_files (d : dir) : Z → dir → list entry := λ t d',
  if bool_decide (d' = d) then
    if (t <? 1050)%Z then []
    else if (t <? 1150)%Z then [("x.mp3.crdownload", t, true)]
    else [("x.mp3", 1150%Z, true)]
  else [].

(** The replacement of ["x.mp3.crdownload"] by ["x.mp3"] at [5000], next to
    a partial file ["y.mp3.crdownload"] that is written all the time and
    never completed. *)
Definition rival_files (d : dir) : Z → dir → list entry := λ t d',
  if bool_decide (d' = d) then
    if (t <? 1000)%Z then []
    else ("y.mp3.crdownload", t, true) ::
         (if (t <? 5000)%Z then [("x.mp3.crdownload", 1000%Z, true)]
          else [("x.mp3", 5000%Z, true)])
  else [].

(** The same replacement at time [5000], in a folder [d] where partial
    files of earlier downloads lie around: ["old.mp3.crdownload"], last
    written at [50], is there all the time, and ["w.mp3.crdownload"], last
    written at [200], from [1000] on. *)
Definition crowded_files (d : dir) : Z → dir → list entry := λ t d',
  if bool_decide (d' = d) then
    ("old.mp3.crdownload", 50%Z, true) ::
    (if (t <? 1000)%Z then []
     else ("w.mp3.crdownload", 200%Z, true) ::
          (if (t <? 5000)%Z then [("x.mp3.crdownload", t, true)]
           else [("x.mp3", 5000%Z, true)]))
  else [].

Definition start {H} (h : H) : world H := World 0 h [].

(** A CSV of [n] rows ["q0"], ["q1"], .. with a track and no artist. *)
Definition track_row (i : nat) : row := {["track_name" := "q" +:+ pretty i]}.
Definition track_rows (n : nat) : list row := track_row <$> seq 0 n.

(** Hosts on which worker [bad] cannot launch its browser and the other
    workers work normally (and find nothing to download). *)
Definition one_broken (bad : nat) (wid : nat) : script :=
  if (wid =? bad)%nat then no_browser_script else idle_script.

(** ** A host that records its calls

    To state what the program asks of the browser, any host can be wrapped
    into one that answers as before and keeps, in its state, the list of the
    calls made so far. *)

(** The calls of the host, by name and arguments. *)
Inductive request :=
| RListdir (d : dir)
| RStatMtime (p : path)
| RPathExists (p : path)
| RIsFile (p : path)
| RMkdir (d : dir)
| RRmtree (p : path)
| RMkdtemp
| RMove (src dst : path)
| RChrome (profile : string) (download_dir : dir)
| RQuit
| RGet (url : string)
| RExecuteScript (script : string) (args : list js_arg)
| RExecuteCdpCmd (cmd arg : string)
| RNewWindow (kind : string)
| RSwitchWindow (handle : string)
| RCloseWindow
| RCurrentUrl
| RCurrentWindowHandle
| RWindowHandles
| RWaitReadyState (timeout : Z)
| RWaitPresence (scope : option elem) (loc : locator) (timeout : Z)
| RFindElements (loc : locator)
| RFindElementIn (scope : elem) (loc : locator)
| RGetAttribute (e : elem) (attribute : string)
| RSearchHere (q : string).

(** How a call ended. Of the values returned, the location answered by
    [current_url] is kept. *)
Inductive reply :=
| Raised (e : exn)
| Returned
| ReturnedUrl (u : option string).

Abbreviation tape := (list (request * reply)).

Definition recorded {H A} (req : request) (rep : A → reply) (c : hcall H A)
  : hcall (H * tape) A :=
  λ t h, let a := c t h.1 in
         Answer (ans a)
           (host_after a,
            h.2 ++ [(req, match ans a with
                          | inl e => Raised e
                          | inr x => rep x
                          end)])
           (took a).

Definition recorded_ask {H A} (req : request) (c : hask H A)
  : hask (H * tape) A :=
  λ t h, let a := c t h.1 in
         Answer (ans a) (host_after a, h.2 ++ [(req, Returned)]) (took a).

Definition traced {H} (hst : Host H) : Host (H * tape) := {|
  listdir d := recorded_ask (RListdir d) (listdir hst d);
  stat_mtime p := recorded (RStatMtime p) (λ _, Returned) (stat_mtime hst p);
  path_exists p := recorded_ask (RPathExists p) (path_exists hst p);
  is_file p := recorded_ask (RIsFile p) (is_file hst p);
  mkdir d := recorded (RMkdir d) (λ _, Returned) (mkdir hst d);
  rmtree p := recorded_ask (RRmtree p) (rmtree hst p);
  mkdtemp := recorded RMkdtemp (λ _, Returned) (mkdtemp hst);
  move src dst := recorded (RMove src dst) (λ _, Returned) (move hst src dst);
  chrome p d := recorded (RChrome p d) (λ _, Returned) (chrome hst p d);
  quit := recorded RQuit (λ _, Returned) (quit hst);
  get url := recorded (RGet url) (λ _, Returned) (get hst url);
  execute_script s args :=
    recorded (RExecuteScript s args) (λ _, Returned) (execute_script hst s args);
  execute_cdp_cmd c a :=
    recorded (RExecuteCdpCmd c a) (λ _, Returned) (execute_cdp_cmd hst c a);
  new_window k := recorded (RNewWindow k) (λ _, Returned) (new_window hst k);
  switch_window h :=
    recorded (RSwitchWindow h) (λ _, Returned) (switch_window hst h);
  close_window := recorded RCloseWindow (λ _, Returned) (close_window hst);
  current_url := recorded RCurrentUrl ReturnedUrl (current_url hst);
  current_window_handle :=
    recorded RCurrentWindowHandle (λ _, Returned) (current_window_handle hst);
  window_handles :=
    recorded RWindowHandles (λ _, Returned) (window_handles hst);
  wait_ready_state t :=
    recorded (RWaitReadyState t) (λ _, Returned) (wait_ready_state hst t);
  wait_presence scope loc t :=
    recorded (RWaitPresence scope loc t) (λ _, Returned)
      (wait_presence hst scope loc t);
  find_elements loc :=
    recorded (RFindElements loc) (λ _, Returned) (find_elements hst loc);
  find_element_in e loc :=
    recorded (RFindElementIn e loc) (λ _, Returned) (find_element_in hst e loc);
  get_attribute e a :=
    recorded (RGetAttribute e a) (λ _, Returned) (get_attribute hst e a);
  search_here q := recorded (RSearchHere q) (λ _, Returned) (search_here hst q);
|}.

(** The calls a world of a recording host has seen. *)
Definition calls {H} (w : world (H * tape)) : tape := (host w).2.

(** The four strategies of the specification, as what they ask of the
    browser: a direct load, a redirect by script from a blank page, a load
    in a new tab, and the navigation command of the DevTools protocol from a
    blank page. *)
Definition strategy_requests (s : strategy) (url : string) : list request :=
  match s with
  | Direct => [RGet url]
  | Js => [RGet "about:blank";
           RExecuteScript "location.href = arguments[0];" [JsStr url]]
  | NewTab => [RNewWindow "tab"; RGet url]
  | Cdp => [RGet "about:blank"; RExecuteCdpCmd "Page.navigate" url]
  end.

Definition returned (c : request * reply) : Prop := ∀ e, c.2 ≠ Raised e.

(** The calls of one round of [force_nav] with strategy [s]. A round that
    does not raise makes the requests of its strategy, waits up to 15
    seconds for the page to be ready and asks for the location; its result
    is whether that location is on the site. A round that raises has made
    these requests up to the one that raised. *)
Definition round_of (s : strategy) (url : string) (result : exn + bool)
    (cs : tape) : Prop :=
  match result with
  | inr b =>
      cs.*1 = strategy_requests s url ++ [RWaitReadyState 15000; RCurrentUrl]
      ∧ Forall returned cs
      ∧ ∃ u, last cs = Some (RCurrentUrl, ReturnedUrl u) ∧ b = on_site u
  | inl e =>
      cs.*1 `prefix_of`
        strategy_requests s url ++ [RWaitReadyState 15000; RCurrentUrl]
      ∧ Forall returned (removelast cs)
      ∧ ∃ req, last cs = Some (req, Raised e)
  end.

(** ** Predicates on runs, used in the statements below *)

(** A computation is [good] from a world when it ends there without
    running out of fuel, the clock does not go back, the log only grows,
    and every event it adds satisfies [P]. *)
Definition good {H} (P : event → Prop) (w : world H) {A} (m : M H A) : Prop :=
  ∃ r w', m w = (r, w') ∧ r ≠ Unfinished ∧ (now w ≤ now w')%Z
          ∧ ∃ tr, log w' = log w ++ tr ∧ Forall P tr.

Definition tame {H} (P : event → Prop) {A} (m : M H A) : Prop :=
  ∀ w, good P w m.

(** No event at all. *)
Definition nothing : event → Prop := λ _, False.

(** The events one query leaves in the log, by the way its handling ends;
    [worker_dir] is the folder of the worker. *)
Inductive query_run (worker_dir : dir) (t : task)
  : outcome unit → list event → Prop :=
| query_raised e :
    query_run worker_dir t (Raise e) [LQuery t.1 t.2]
| query_no_results :
    query_run worker_dir t (Ok ()) [LQuery t.1 t.2; LNoResults t.1]
| query_no_file :
    query_run worker_dir t (Ok ()) [LQuery t.1 t.2; LNoFile t.1]
| query_moved src free :
    parent src = worker_dir →
    query_run worker_dir t (Ok ())
      [LQuery t.1 t.2; EMove src (Path Downloads free) None;
       LDownloaded t.1 (Path Downloads free)]
| query_kept src free e :
    parent src = worker_dir →
    query_run worker_dir t (Ok ())
      [LQuery t.1 t.2; EMove src (Path Downloads free) (Some e);
       LDownloaded t.1 src].

(** The events the query loop leaves in the log: complete queries, up to the
    end of the tasks or up to the first query whose handling raises. *)
Inductive tasks_run (worker_dir : dir)
  : list task → outcome unit → list event → Prop :=
| tasks_done :
    tasks_run worker_dir [] (Ok ()) []
| tasks_next t ts r tr1 tr2 :
    query_run worker_dir t (Ok ()) tr1 → tasks_run worker_dir ts r tr2 →
    tasks_run worker_dir (t :: ts) r (tr1 ++ tr2)
| tasks_stop t ts e tr :
    query_run worker_dir t (Raise e) tr →
    tasks_run worker_dir (t :: ts) (Raise e) tr.

(** Every value a computation returns satisfies [Q]. *)
Definition returns {H A} (Q : A → Prop) (m : M H A) : Prop :=
  ∀ w a w', m w = (Ok a, w') → Q a.

(** A found file lies in the directory [ddir]. *)
Definition inside (ddir : dir) (got : option path) : Prop :=
  ∀ p, got = Some p → parent p = ddir.

(** The events of session set-up, navigation and tear-down. *)
Definition housekeeping (e : event) : Prop :=
  match e with
  | EMkdtemp _ | ERmtree _ | ELaunch _ _ _ | ENavigate _ _ | EQuit => True
  | _ => False
  end.

(** The queries a log shows as started, in order. *)
Definition started (tr : list event) : list task :=
  omap (λ e, match e with LQuery i q => Some (i, q) | _ => None end) tr.

(** Every launch in a log directly follows the creation of its profile
    directory. *)
Definition launches_fresh (tr : list event) : Prop :=
  ∀ i p d err, tr !! i = Some (ELaunch p d err) →
               ∃ j, i = S j ∧ tr !! j = Some (EMkdtemp p).

(** The launches of a log, in order: the profile directory and the exception
    of each, if it raised. *)
Definition launch_attempts (tr : list event) : list (string * option exn) :=
  omap (λ e, match e with ELaunch p _ err => Some (p, err) | _ => None end) tr.

(** Every launch of a log is told to download into [base]. *)
Definition launches_into (base : dir) (tr : list event) : Prop :=
  ∀ p d err, ELaunch p d err ∈ tr → d = base.

(** The error of the last launch in a log that raised. *)
Definition last_failed_launch (tr : list event) : option exn :=
  last (omap (λ e, match e with ELaunch _ _ err => err | _ => None end) tr).

(** What [force_nav] raises after the rounds [rs], none of which returned:
    the last exception met, and a [RuntimeError] when there was none. *)
Definition nav_failure (last_err : option exn) (rs : list (exn + bool)) : exn :=
  default (RuntimeError "Failed to navigate to site")
    (match last (omap error_of rs) with
     | Some e => Some e
     | None => last_err
     end).

(** The events of one round of [build_driver]: the old profile directory is
    removed if it is still there, a new one is made, the browser is
    launched in it. *)
Definition removal (rm : list event) : Prop :=
  rm = [] ∨ ∃ old, rm = [ERmtree old].

Inductive attempt_run (base : dir) (user_data : option string)
  : outcome (driver + (option string * option exn)) → list event → Prop :=
| attempt_launched rm fresh :
    removal rm →
    attempt_run base user_data (Ok (inl (Driver fresh)))
      (rm ++ [EMkdtemp fresh; ELaunch fresh base None])
| attempt_retry rm fresh e :
    removal rm → is_session_not_created e = true →
    attempt_run base user_data (Ok (inr (Some fresh, Some e)))
      (rm ++ [EMkdtemp fresh; ELaunch fresh base (Some e)])
| attempt_crashed rm fresh e :
    removal rm → is_session_not_created e = false →
    attempt_run base user_data (Raise e)
      (rm ++ [EMkdtemp fresh; ELaunch fresh base (Some e)])
| attempt_no_dir_retry rm e :
    removal rm → is_session_not_created e = true →
    attempt_run base user_data (Ok (inr (user_data, Some e))) rm
| attempt_no_dir_crashed rm e :
    removal rm → is_session_not_created e = false →
    attempt_run base user_data (Raise e) rm.

(** The events of the retry loop of [build_driver] with [n] rounds left. *)
Inductive session_run (base : dir)
  : nat → option exn → outcome driver → list event → Prop :=
| session_exhausted last_err :
    session_run base 0 last_err
      (Raise (default
                (RuntimeError "Failed to create Chrome session after retries")
                last_err)) []
| session_opened n last_err user_data d tr :
    attempt_run base user_data (Ok (inl d)) tr →
    session_run base (S n) last_err (Ok d) tr
| session_crashed n last_err user_data e tr :
    attempt_run base user_data (Raise e) tr →
    session_run base (S n) last_err (Raise e) tr
| session_again n last_err user_data user_data' e tr1 r tr2 :
    attempt_run base user_data (Ok (inr (user_data', Some e))) tr1 →
    session_run base n (Some e) r tr2 →
    session_run base (S n) last_err r (tr1 ++ tr2).

(** ** Further predicates on runs *)

(** A computation that always returns: it neither raises nor runs out of
    fuel. *)
Definition never_raises {H A} (m : M H A) : Prop :=
  ∀ w, ∃ a w', m w = (Ok a, w').

(** The clock of a computation stays below [bound], unless it was already
    past it. *)
Definition bounded {H A} (bound : Z) (m : M H A) : Prop :=
  ∀ w r w', m w = (r, w') → (now w ≤ now w' ≤ Z.max (now w) bound)%Z.

(** A computation that takes no time. *)
Definition instant {H A} (m : M H A) : Prop :=
  ∀ w r w', m w = (r, w') → now w' = now w.

(** A computation that takes no time and raises no
    [SessionNotCreatedException]. *)
Definition calm {H A} (m : M H A) : Prop :=
  ∀ w r w', m w = (r, w') →
    now w' = now w ∧ ∀ e, r = Raise e → is_session_not_created e = false.

(** [shutil.move] was called. *)
Definition is_move (e : event) : bool :=
  match e with EMove _ _ _ => true | _ => false end.

(** The moves of a worker take files of its own folder to [DOWNLOADS], and
    the files it reports are in one of the two. *)
Definition own_move (worker_dir : dir) (e : event) : Prop :=
  match e with
  | EMove src dst _ => parent src = worker_dir ∧ parent dst = Downloads
  | LDownloaded _ p => parent p = Downloads ∨ parent p = worker_dir
  | _ => True
  end.

(** ** The playlist downloader: [NPTELDownloader.sanitize_filename] *)

(** [s.replace(c, '')] for a single character [c]. *)
Fixpoint remove_char (c : ascii) (s : string) : string :=
  match s with
  | String a s' =>
      if Ascii.eqb a c then remove_char c s' else String a (remove_char c s')
  | EmptyString => EmptyString
  end.

(** The nine characters of [invalid_chars], in the order of the source:
    [<], [>], [:], the double quote (code 34), [/], the backslash (code 92),
    [|], [?] and [*]. *)
Definition invalid_chars : list ascii :=
  ["<"; ">"; ":"; "034"; "/"; "092"; "|"; "?"; "*"]%char.

Definition sanitize_filename (filename : string) : string :=
  let filename := foldl (λ f c, remove_char c f) filename invalid_chars in
  str_take 200 (strip filename).

(** [c in s] for a single character. *)
Definition has_char (c : ascii) (s : string) : bool :=
  contains (String c EmptyString) s.

(* ===================================================================== *)
(** * Part II: properties                                                 *)
(* ===================================================================== *)

(** ** Facts about the string operations *)

Lemma lstrip_idemp s : lstrip (lstrip s) = lstrip s.
Proof.
  induction s as [|c s IH]; simpl; [done|].
  destruct (is_space c) eqn:Hc; [done|]. simpl. by rewrite Hc.
Qed.

Lemma rstrip_cons c s :
  rstrip (String c s) =
  if nonempty (rstrip s) then String c (rstrip s)
  else if is_space c then EmptyString else String c EmptyString.
Proof. simpl. by destruct (rstrip s). Qed.

Lemma rstrip_idemp s : rstrip (rstrip s) = rstrip s.
Proof.
  induction s as [|c s IH]; [done|].
  rewrite rstrip_cons.
  destruct (nonempty (rstrip s)) eqn:Hr.
  - rewrite rstrip_cons, IH, Hr. done.
  - destruct (is_space c) eqn:Hc; [done|].
    rewrite rstrip_cons. simpl. by rewrite Hc.
Qed.

Lemma lstrip_rstrip s : lstrip (rstrip s) = rstrip (lstrip s).
Proof.
  induction s as [|c s IH]; [done|].
  rewrite rstrip_cons. simpl lstrip at 2.
  destruct (is_space c) eqn:Hc.
  - rewrite <- IH. destruct (nonempty (rstrip s)) eqn:Hr.
    + simpl. by rewrite Hc.
    + destruct (rstrip s); done.
  - rewrite rstrip_cons.
    destruct (nonempty (rstrip s)); simpl; by rewrite Hc.
Qed.

Lemma strip_idemp s : strip (strip s) = strip s.
Proof.
  unfold strip.
  by rewrite lstrip_rstrip, lstrip_idemp, rstrip_idemp.
Qed.

Lemma str_take_all n s : String.length s ≤ n → str_take n s = s.
Proof.
  revert n. induction s as [|c s IH]; intros [|n] Hn; simpl in *; try done; try lia.
  f_equal. apply IH. lia.
Qed.

Lemma str_take_length n s : String.length (str_take n s) ≤ n.
Proof.
  revert s. induction n as [|n IH]; intros [|c s]; simpl; try lia.
  specialize (IH s). lia.
Qed.

(** Cutting at a single character that is not white space commutes with
    stripping. *)
Section single_char_separator.
Variable c : ascii.
Hypothesis c_not_space : is_space c = false.

Let sep : string := String c EmptyString.

Lemma startswith_single s :
  startswith sep s = match s with String a _ => Ascii.eqb c a | EmptyString => false end.
Proof. destruct s as [|a s]; simpl; [done|]. by destruct (Ascii.eqb c a). Qed.

Lemma split_head_single_cons a s :
  split_head sep (String a s) =
  if Ascii.eqb c a then EmptyString else String a (split_head sep s).
Proof. unfold split_head at 1. fold split_head. by rewrite startswith_single. Qed.

Lemma split_head_absent s : contains sep s = false → split_head sep s = s.
Proof.
  induction s as [|a s IH]; [done|].
  intros H. simpl contains in H. apply orb_false_iff in H as [H1 H2].
  unfold split_head; fold split_head. cbn in H1 |- *. rewrite H1.
  f_equal. by apply IH.
Qed.

Lemma split_head_lstrip s :
  split_head sep (lstrip s) = lstrip (split_head sep s).
Proof.
  induction s as [|a s IH]; [done|].
  rewrite split_head_single_cons. simpl lstrip at 1.
  destruct (is_space a) eqn:Ha.
  - destruct (Ascii.eqb_spec c a) as [->|_]; [congruence|].
    simpl. by rewrite Ha.
  - rewrite split_head_single_cons.
    destruct (Ascii.eqb c a); [done|]. simpl. by rewrite Ha.
Qed.

Lemma rstrip_split_head_rstrip s :
  rstrip (split_head sep (rstrip s)) = rstrip (split_head sep s).
Proof.
  induction s as [|a s IH]; [done|].
  rewrite split_head_single_cons.
  destruct (Ascii.eqb_spec c a) as [<-|Hne].
  - rewrite rstrip_cons, c_not_space.
    destruct (nonempty (rstrip s)); rewrite split_head_single_cons;
      by rewrite Ascii.eqb_refl.
  - assert (Ascii.eqb c a = false) as Hca by by apply Ascii.eqb_neq.
    rewrite (rstrip_cons a (split_head sep s)), <- IH.
    rewrite (rstrip_cons a s).
    destruct (rstrip s) as [|b r] eqn:Hr.
    + change (nonempty EmptyString) with false. cbv iota.
      change (rstrip (split_head sep EmptyString)) with EmptyString.
      change (nonempty EmptyString) with false. cbv iota.
      destruct (is_space a) eqn:Ha; [done|].
      rewrite split_head_single_cons, Hca, rstrip_cons.
      change (rstrip (split_head sep EmptyString)) with EmptyString.
      change (nonempty EmptyString) with false. cbv iota. by rewrite Ha.
    + change (nonempty (String b r)) with true. cbv iota.
      by rewrite split_head_single_cons, Hca, rstrip_cons.
Qed.

Lemma strip_split_head_strip s :
  strip (split_head sep (strip s)) = strip (split_head sep s).
Proof.
  unfold strip.
  rewrite <- split_head_lstrip, lstrip_rstrip, lstrip_idemp.
  rewrite rstrip_split_head_rstrip. by rewrite split_head_lstrip.
Qed.

Lemma drop_qualifier_strip s :
  drop_qualifier sep (strip s) = strip (split_head sep s).
Proof.
  unfold drop_qualifier.
  destruct (contains sep (strip s)) eqn:Hin.
  - apply strip_split_head_strip.
  - rewrite <- strip_split_head_strip, (split_head_absent _ Hin).
    by rewrite strip_idemp.
Qed.
End single_char_separator.

Lemma split_heads_truncate q :
  split_head "[" (split_head "(" (split_head " - " q))
  = truncate_at_first_separator q.
Proof.
  induction q as [|a q IH]; [done|].
  unfold truncate_at_first_separator; fold truncate_at_first_separator.
  unfold split_head at 3; fold split_head.
  destruct (startswith " - " (String a q)) eqn:Hd; [done|].
  rewrite split_head_single_cons, (startswith_single "(" (String a q)).
  destruct (Ascii.eqb "(" a) eqn:Hp; [done|].
  rewrite split_head_single_cons, (startswith_single "[" (String a q)).
  destruct (Ascii.eqb "[" a) eqn:Hk; [done|].
  simpl orb. cbv iota. by rewrite IH.
Qed.

(** ** C8: [simplify_query] *)

(** C8. For every input string [simplify_query] returns the text before the
    first separator token, stripped, cut to at most 90 characters; on
    ["Imagine - John Lennon (Remastered 2010)"] it returns ["Imagine"]. *)
Theorem simplify_query_truncates_and_caps :
  (∀ q, simplify_query q = simplify_query_spec q)
  ∧ (∀ q, String.length (simplify_query q) ≤ 90)
  ∧ simplify_query "Imagine - John Lennon (Remastered 2010)" = "Imagine".
Proof.
  assert (∀ q, simplify_query q = simplify_query_spec q) as Heq.
  { intros q. unfold simplify_query, simplify_query_spec.
    rewrite (drop_qualifier_strip "(") by done.
    rewrite (drop_qualifier_strip "[") by done.
    rewrite split_heads_truncate.
    destruct (Nat.ltb_spec 90 (String.length (strip (truncate_at_first_separator q))));
      [done|].
    symmetry. by apply str_take_all. }
  split; [done|]. split; [|done].
  intros q. rewrite Heq. apply str_take_length.
Qed.

(** ** C10: [read_queries] *)

Lemma append_nonempty (s t : string) : s ≠ EmptyString → s +:+ t ≠ EmptyString.
Proof. by destruct s. Qed.

Lemma nonempty_true s : nonempty s = true ↔ s ≠ EmptyString.
Proof. by destruct s. Qed.

Lemma artist_of_unfold (r : row) :
  artist_of r =
  match r !! "artist_name" with
  | Some s => if nonempty s then strip s
              else strip (or_empty (r !! "artist_names"))
  | None => strip (or_empty (r !! "artist_names"))
  end.
Proof.
  unfold artist_of, py_or.
  destruct (r !! "artist_name") as [s|]; [|done].
  by destruct (nonempty s).
Qed.

(** Where no row carries an [artist_name] cell that is non-empty yet blank,
    the loader agrees with the claimed reading. *)
Lemma read_queries_spec_agrees (rows : list row) :
  Forall (λ r : row, ∀ s, r !! "artist_name" = Some s →
                     nonempty s = true → nonempty (strip s) = true) rows →
  read_queries rows = read_queries_spec rows.
Proof.
  unfold read_queries_spec.
  induction 1 as [|r rows Hr _ IH]; [done|].
  simpl read_queries. rewrite filter_cons.
  destruct (nonempty (track_of r)) eqn:Ht.
  - rewrite decide_True by done. rewrite fmap_cons, <- IH. f_equal.
    unfold query_spec.
    assert (artist_of r = artist_spec r) as ->; [|done].
    rewrite artist_of_unfold. unfold artist_spec.
    destruct (r !! "artist_name") as [s|] eqn:Hs; [|done].
    destruct (nonempty s) eqn:Hn.
    + simpl or_empty. by rewrite (Hr s).
    + destruct s; done.
  - rewrite decide_False by (simpl; congruence). done.
Qed.

(** C10 (as amended). The loader yields one query per row whose stripped
    [track_name] is non-empty, in row order, and skips the other rows. The
    track is the stripped [track_name] cell. The artist is the stripped
    [artist_name] cell when that cell is non-empty as read, and the stripped
    [artist_names] cell when [artist_name] is missing or empty (a missing
    cell counts as empty). The query is ["<track> - <artist>"] when that
    artist is non-empty and ["<track>"] otherwise. No yielded query is the
    empty string. *)
Theorem read_queries_yields (rows : list row) :
  read_queries rows
  = (λ r, if nonempty (artist_of r)
          then track_of r +:+ " - " +:+ artist_of r
          else track_of r)
    <$> filter (λ r, nonempty (track_of r) = true) rows
  ∧ (∀ r : row, track_of r = strip (default EmptyString (r !! "track_name")))
  ∧ (∀ (r : row) s,
       r !! "artist_name" = Some s → s ≠ EmptyString → artist_of r = strip s)
  ∧ (∀ r : row,
       r !! "artist_name" = None ∨ r !! "artist_name" = Some EmptyString →
       artist_of r = strip (default EmptyString (r !! "artist_names")))
  ∧ Forall (λ q, q ≠ EmptyString) (read_queries rows).
Proof.
  split; [|split; [|split; [|split]]].
  - induction rows as [|r rows IH]; [done|].
    simpl read_queries. rewrite filter_cons.
    destruct (nonempty (track_of r)) eqn:Ht.
    + rewrite decide_True by done. by rewrite fmap_cons, <- IH.
    + rewrite decide_False by (simpl; congruence). done.
  - intros r. unfold track_of. by destruct (r !! "track_name").
  - intros r s Hs Hne. rewrite artist_of_unfold, Hs.
    by destruct s.
  - intros r Hr. rewrite artist_of_unfold.
    destruct Hr as [-> | ->]; simpl; by destruct (r !! "artist_names").
  - induction rows as [|r rows IH]; [done|].
    simpl read_queries.
    destruct (nonempty (track_of r)) eqn:Ht; [|done].
    apply nonempty_true in Ht. constructor; [|done].
    destruct (nonempty (artist_of r)); [|done].
    by apply append_nonempty.
Qed.

(** C10 (as stated) fails: a row whose [artist_name] cell is a single blank
    and whose [artist_names] cell is ["Beatles"] yields ["Song"], although an
    artist column is non-empty after stripping. *)
Lemma read_queries_blank_artist_name :
  read_queries [blank_artist_row] = ["Song"]
  ∧ strip (or_empty (blank_artist_row !! "artist_names")) = "Beatles"
  ∧ read_queries [blank_artist_row] ≠ read_queries_spec [blank_artist_row].
Proof. split; [|split]; vm_compute; done. Qed.

(** ** C2: the modulo partition *)

Lemma foldl_bucket_append_length n (l : list task) bs :
  length (foldl (bucket_append n) bs l) = length bs.
Proof.
  revert bs. induction l as [|t l IH]; intros bs; [done|].
  simpl. rewrite IH. apply length_alter.
Qed.

Lemma foldl_bucket_append_lookup n (l : list task) bs k b :
  bs !! k = Some b →
  foldl (bucket_append n) bs l !! k
  = Some (b ++ filter (λ t : task, t.1 mod n = k) l).
Proof.
  revert bs b. induction l as [|t l IH]; intros bs b Hk; simpl.
  - by rewrite filter_nil, app_nil_r.
  - rewrite filter_cons. destruct (decide (t.1 mod n = k)) as [Heq|Hne].
    + rewrite (IH _ (b ++ [t])).
      * by rewrite <- app_assoc.
      * unfold bucket_append. rewrite Heq, list_lookup_alter_eq, Hk. done.
    + apply IH. unfold bucket_append.
      by rewrite list_lookup_alter_ne.
Qed.

Lemma make_buckets_lookup n queries k :
  k < n →
  make_buckets n queries !! k
  = Some (filter (λ t : task, t.1 mod n = k) (enumerate queries)).
Proof.
  intros Hk. unfold make_buckets.
  rewrite (foldl_bucket_append_lookup _ _ _ _ []); [done|].
  by apply lookup_replicate_2.
Qed.

Lemma make_buckets_length n queries : length (make_buckets n queries) = n.
Proof.
  unfold make_buckets. by rewrite foldl_bucket_append_length, length_replicate.
Qed.

(** The buckets, concatenated, are the classes of the indices modulo [n]. *)
Lemma make_buckets_classes n queries :
  make_buckets n queries
  = (λ k, filter (λ t : task, t.1 mod n = k) (enumerate queries)) <$> seq 0 n.
Proof.
  apply list_eq. intros k.
  rewrite list_lookup_fmap.
  destruct (decide (k < n)) as [Hk|Hk].
  - rewrite make_buckets_lookup by done.
    by rewrite lookup_seq_lt.
  - rewrite lookup_ge_None_2 by (rewrite make_buckets_length; lia).
    by rewrite lookup_seq_ge by lia.
Qed.

Lemma concat_classes_cons_other n (t : task) (l : list task) ks :
  t.1 mod n ∉ ks →
  concat ((λ k, filter (λ t' : task, t'.1 mod n = k) (t :: l)) <$> ks)
  = concat ((λ k, filter (λ t' : task, t'.1 mod n = k) l) <$> ks).
Proof.
  induction ks as [|k ks IH]; intros Hj; [done|].
  apply not_elem_of_cons in Hj as [Hne Hj].
  rewrite !fmap_cons. simpl concat. rewrite IH by done.
  by rewrite filter_cons, decide_False.
Qed.

Lemma concat_classes_cons_here n (t : task) (l : list task) ks :
  NoDup ks → t.1 mod n ∈ ks →
  concat ((λ k, filter (λ t' : task, t'.1 mod n = k) (t :: l)) <$> ks)
  ≡ₚ t :: concat ((λ k, filter (λ t' : task, t'.1 mod n = k) l) <$> ks).
Proof.
  induction ks as [|k ks IH]; intros Hnd Hj; [by apply elem_of_nil in Hj|].
  apply NoDup_cons in Hnd as [Hk Hnd].
  rewrite !fmap_cons. simpl concat. rewrite filter_cons.
  destruct (decide (t.1 mod n = k)) as [Heq|Hne].
  - rewrite concat_classes_cons_other by (by rewrite Heq). done.
  - apply elem_of_cons in Hj as [Hj|Hj]; [done|].
    rewrite IH by done. by rewrite Permutation_middle.
Qed.

Lemma concat_classes_perm n (l : list task) :
  0 < n →
  concat ((λ k, filter (λ t : task, t.1 mod n = k) l) <$> seq 0 n) ≡ₚ l.
Proof.
  intros Hn. induction l as [|t l IH].
  - induction (seq 0 n) as [|k ks IHk]; done.
  - rewrite concat_classes_cons_here.
    + by rewrite IH.
    + apply NoDup_seq.
    + apply elem_of_seq. pose proof (Nat.mod_upper_bound (t.1) n). lia.
Qed.

Lemma enumerate_lookup {A} (l : list A) i :
  enumerate l !! i = pair i <$> l !! i.
Proof. unfold enumerate. apply list_lookup_imap. Qed.

Lemma enumerate_fst {A} (l : list A) : (enumerate l).*1 = seq 0 (length l).
Proof.
  apply list_eq. intros i. rewrite list_lookup_fmap, enumerate_lookup.
  destruct (l !! i) as [x|] eqn:Hi; simpl.
  - apply lookup_lt_Some in Hi. by rewrite lookup_seq_lt.
  - apply lookup_ge_None in Hi. by rewrite lookup_seq_ge.
Qed.

Lemma elem_of_submitted buckets wid (tasks : list task) :
  (wid, tasks) ∈ submitted buckets ↔ buckets !! wid = Some tasks ∧ tasks ≠ [].
Proof.
  unfold submitted. rewrite list_elem_of_filter. simpl.
  rewrite list_elem_of_lookup. split.
  - intros [Hne [i Hi]]. rewrite enumerate_lookup in Hi.
    destruct (buckets !! i) as [b|] eqn:Hb; simplify_eq/=. done.
  - intros [Hb Hne]. split; [done|]. exists wid.
    by rewrite enumerate_lookup, Hb.
Qed.

Lemma bucket_nonempty n (queries : list string) k b :
  make_buckets n queries !! k = Some b → b ≠ [] ↔ k < length queries.
Proof.
  intros Hb.
  assert (k < n) as Hk.
  { apply lookup_lt_Some in Hb. by rewrite make_buckets_length in Hb. }
  rewrite make_buckets_lookup in Hb by done. injection Hb as <-. split.
  - intros Hne.
    destruct (filter _ (enumerate queries)) as [|[i q] rest] eqn:Hf; [done|].
    assert ((i, q) ∈ filter (λ t : task, t.1 mod n = k) (enumerate queries))
      as Hin by (rewrite Hf; by left).
    apply list_elem_of_filter in Hin as [Hmod Hin]. simpl in Hmod.
    apply list_elem_of_lookup in Hin as [i' Hi'].
    rewrite enumerate_lookup in Hi'.
    destruct (queries !! i') as [q'|] eqn:Hq; simplify_eq/=.
    apply lookup_lt_Some in Hq.
    pose proof (Nat.Div0.mod_le i n). lia.
  - intros Hlt Hnil.
    destruct (lookup_lt_is_Some_2 queries k Hlt) as [q Hq].
    assert ((k, q) ∈ filter (λ t : task, t.1 mod n = k) (enumerate queries))
      as Hin.
    { apply list_elem_of_filter. split; [simpl; by apply Nat.mod_small|].
      apply list_elem_of_lookup. exists k. by rewrite enumerate_lookup, Hq. }
    rewrite Hnil in Hin. by apply elem_of_nil in Hin.
Qed.

(** C2. For concurrency [n > 0] the query at position [i] is put into bucket
    [i mod n]; bucket [k] holds exactly the queries at the positions
    congruent to [k], in input order; the buckets together are a permutation
    of the indexed input, each position occurring once; and exactly the
    non-empty buckets are submitted as workers. *)
Theorem partition_by_modulo (n : nat) (queries : list string) :
  0 < n →
  length (make_buckets n queries) = n
  ∧ (∀ i q, queries !! i = Some q →
       ∃ b, make_buckets n queries !! (i mod n) = Some b ∧ (i, q) ∈ b)
  ∧ (∀ k, k < n →
       make_buckets n queries !! k
       = Some (filter (λ t : task, t.1 mod n = k) (enumerate queries)))
  ∧ (∀ k b, make_buckets n queries !! k = Some b → b `sublist_of` enumerate queries)
  ∧ concat (make_buckets n queries) ≡ₚ enumerate queries
  ∧ NoDup (concat (make_buckets n queries)).*1
  ∧ length (concat (make_buckets n queries)) = length queries
  ∧ (∀ wid tasks, (wid, tasks) ∈ submitted (make_buckets n queries) ↔
       make_buckets n queries !! wid = Some tasks ∧ tasks ≠ []).
Proof.
  intros Hn.
  assert (concat (make_buckets n queries) ≡ₚ enumerate queries) as Hperm.
  { rewrite make_buckets_classes. by apply concat_classes_perm. }
  split; [apply make_buckets_length|].
  split.
  { intros i q Hq.
    assert (i mod n < n) as Hlt by (apply Nat.mod_upper_bound; lia).
    eexists. split; [by apply make_buckets_lookup|].
    apply list_elem_of_filter. split; [done|].
    apply list_elem_of_lookup. exists i. by rewrite enumerate_lookup, Hq. }
  split; [intros k Hk; by apply make_buckets_lookup|].
  split.
  { intros k b Hb.
    assert (k < n) as Hk.
    { apply lookup_lt_Some in Hb. by rewrite make_buckets_length in Hb. }
    rewrite make_buckets_lookup in Hb by done. simplify_eq.
    apply sublist_filter. }
  split; [done|].
  split.
  { rewrite Hperm, enumerate_fst. apply NoDup_seq. }
  split.
  { rewrite Hperm. unfold enumerate. apply length_imap. }
  intros wid tasks. apply elem_of_submitted.
Qed.

(** The partition of the specification's example: seven queries, three
    workers. *)
Lemma partition_by_modulo_witness :
  0 < 3 ∧
  make_buckets 3 ["q0"; "q1"; "q2"; "q3"; "q4"; "q5"; "q6"]
  = [ [(0, "q0"); (3, "q3"); (6, "q6")];
      [(1, "q1"); (4, "q4")];
      [(2, "q2"); (5, "q5")] ].
Proof.
  split; [lia|].
  pose proof (partition_by_modulo 3 ["q0"; "q1"; "q2"; "q3"; "q4"; "q5"; "q6"]) as H.
  destruct H as (_ & _ & Hk & _); [lia|].
  apply list_eq. intros [|[|[|k]]].
  - rewrite Hk by lia. reflexivity.
  - rewrite Hk by lia. reflexivity.
  - rewrite Hk by lia. reflexivity.
  - reflexivity.
Defined.

(** ** Reasoning about programs *)

Section program_facts.
Context {H : Type} (hst : Host H).

Lemma mbind_bind {A B} (m : M H A) (k : A → M H B) : m ≫= k = bind m k.
Proof. done. Qed.

Lemma mret_ret {A} (a : A) : mret a = ret (H:=H) a.
Proof. done. Qed.

Lemma good_weaken (P Q : event → Prop) (w : world H) {A} (m : M H A) :
  (∀ e, P e → Q e) → good P w m → good Q w m.
Proof.
  intros HPQ (r & w' & Hm & Hr & Ht & tr & Hl & Htr).
  exists r, w'. repeat split; try done. exists tr. split; [done|].
  eapply Forall_impl; eauto.
Qed.

Lemma good_ret P (w : world H) {A} (a : A) : good P w (mret a).
Proof.
  exists (Ok a), w. repeat split; try done; try lia.
  exists []. by rewrite app_nil_r.
Qed.

Lemma good_raise P (w : world H) {A} e : good P w (raise (A:=A) e).
Proof.
  exists (Raise e), w. repeat split; try done; try lia.
  exists []. by rewrite app_nil_r.
Qed.

Lemma good_time P (w : world H) : good P w time.
Proof.
  exists (Ok (now w)), w. repeat split; try done; try lia.
  exists []. by rewrite app_nil_r.
Qed.

Lemma good_sleep P (w : world H) ms : good P w (sleep ms).
Proof.
  eexists _, _. split; [reflexivity|]. repeat split; try done; simpl; try lia.
  exists []. by rewrite app_nil_r.
Qed.

Lemma good_emit (P : event → Prop) (w : world H) e : P e → good P w (emit e).
Proof.
  intros He. eexists _, _. split; [reflexivity|].
  repeat split; try done; simpl; try lia.
  exists [e]. split; [done|]. by constructor.
Qed.

Lemma good_call P (w : world H) {A} (c : hcall H A) : good P w (call c).
Proof.
  unfold good, call. destruct (ans (c (now w) (host w))) as [e|a];
    eexists _, _; (split; [reflexivity|]); repeat split; try done;
    simpl; try lia; exists []; by rewrite app_nil_r.
Qed.

Lemma good_ask P (w : world H) {A} (c : hask H A) : good P w (ask c).
Proof.
  eexists _, _. split; [reflexivity|]. repeat split; try done; simpl; try lia.
  exists []. by rewrite app_nil_r.
Qed.

Lemma good_bind P (w : world H) {A B} (m : M H A) (k : A → M H B) :
  good P w m →
  (∀ a w1, m w = (Ok a, w1) → (now w ≤ now w1)%Z → good P w1 (k a)) →
  good P w (m ≫= k).
Proof.
  intros (r & w1 & Hm & Hr & Ht & tr & Hl & Htr) Hk.
  rewrite mbind_bind. unfold good, bind. rewrite Hm.
  destruct r as [a|e|]; [|by eauto 10|done].
  destruct (Hk a w1 Hm Ht) as (r2 & w2 & Hk2 & Hr2 & Ht2 & tr2 & Hl2 & Htr2).
  exists r2, w2. repeat split; try done; try lia.
  exists (tr ++ tr2). split.
  - by rewrite Hl2, Hl, app_assoc.
  - by apply Forall_app.
Qed.

Lemma good_try_except P (w : world H) {A} catches (m : M H A) handler :
  good P w m →
  (∀ e w1, m w = (Raise e, w1) → catches e = true → good P w1 (handler e)) →
  good P w (try_except catches m handler).
Proof.
  intros (r & w1 & Hm & Hr & Ht & tr & Hl & Htr) Hh.
  unfold good, try_except. rewrite Hm.
  destruct r as [a|e|]; [by eauto 10| |done].
  destruct (catches e) eqn:Hc; [|by eauto 10].
  destruct (Hh e w1 Hm Hc) as (r2 & w2 & Hk2 & Hr2 & Ht2 & tr2 & Hl2 & Htr2).
  exists r2, w2. repeat split; try done; try lia.
  exists (tr ++ tr2). split.
  - by rewrite Hl2, Hl, app_assoc.
  - by apply Forall_app.
Qed.

Lemma good_try_finally P (w : world H) {A} (m : M H A) cleanup :
  good P w m → tame P cleanup → good P w (try_finally m cleanup).
Proof.
  intros (r & w1 & Hm & Hr & Ht & tr & Hl & Htr) Hc.
  unfold good, try_finally. rewrite Hm.
  destruct r as [a|e|]; [| |done].
  - destruct (Hc w1) as (r2 & w2 & Hk2 & Hr2 & Ht2 & tr2 & Hl2 & Htr2).
    unfold bind. rewrite Hk2.
    destruct r2 as [[]|e2|]; [| |done]; eexists _, _;
      (split; [reflexivity|]); repeat split; try done; try lia;
      exists (tr ++ tr2); (split; [by rewrite Hl2, Hl, app_assoc|by apply Forall_app]).
  - destruct (Hc w1) as (r2 & w2 & Hk2 & Hr2 & Ht2 & tr2 & Hl2 & Htr2).
    unfold bind. rewrite Hk2.
    destruct r2 as [[]|e2|]; [| |done]; eexists _, _;
      (split; [reflexivity|]); repeat split; try done; try lia;
      exists (tr ++ tr2); (split; [by rewrite Hl2, Hl, app_assoc|by apply Forall_app]).
Qed.

Lemma good_attempt P (w : world H) {A} (m : M H A) : good P w m → good P w (attempt m).
Proof.
  intros Hm. unfold attempt. apply good_try_except.
  - apply (good_bind P w m); [done|]. intros. apply good_ret.
  - intros. apply good_ret.
Qed.

Lemma good_time_bind P (w : world H) {B} (k : Z → M H B) :
  good P w (k (now w)) → good P w (time ≫= k).
Proof. done. Qed.

(** [attempt] turns an exception into a value and changes nothing else. *)
Lemma attempt_eq {A} (m : M H A) w :
  attempt m w =
  match m w with
  | (Ok a, w') => (Ok (inr a), w')
  | (Raise e, w') => (Ok (inl e), w')
  | (Unfinished, w') => (Unfinished, w')
  end.
Proof.
  unfold attempt, try_except, bind.
  by destruct (m w) as [[a|e|] w'].
Qed.
End program_facts.

(** Proves [good]/[tame] goals of straight-line code. *)
Ltac tame_step :=
  lazymatch goal with
  | |- tame _ _ => intros ?
  | |- good _ _ (mret _) => apply good_ret
  | |- good _ _ (ret _) => apply good_ret
  | |- good _ _ (raise _) => apply good_raise
  | |- good _ _ time => apply good_time
  | |- good _ _ (sleep _) => apply good_sleep
  | |- good _ _ (call _) => apply good_call
  | |- good _ _ (ask _) => apply good_ask
  | |- good _ _ (emit _) => apply good_emit
  | |- good _ _ (time ≫= _) => apply good_time_bind
  | |- good _ _ (_ ≫= _) => apply good_bind; [|intros ? ? _ _]
  | |- good _ _ (attempt _) => apply good_attempt
  | |- good _ _ (try_except _ _ _) => apply good_try_except; [|intros ? ? _ _]
  | |- good _ _ (try_finally _ _) => apply good_try_finally
  | |- good _ _ (match ?x with _ => _ end) => destruct x
  | |- good _ _ (let '(_, _) := ?x in _) => destruct x
  end.

Ltac tame := repeat tame_step.

(** ** The silent parts of the program *)

Lemma rounds_step t t' deadline step :
  (0 < step)%Z → (t < deadline)%Z → (t + step ≤ t')%Z →
  S (rounds t' deadline step) ≤ rounds t deadline step.
Proof.
  intros Hs Ht Ht'. unfold rounds.
  assert ((deadline - t' + step) / step + 1 ≤ (deadline - t + step) / step)%Z.
  { rewrite <- (Z.div_add _ 1 step) by lia. apply Z.div_le_mono; lia. }
  assert (0 < (deadline - t + step) / step)%Z by (apply Z.div_str_pos; lia).
  revert H H0.
  generalize ((deadline - t' + step) / step)%Z, ((deadline - t + step) / step)%Z.
  intros a b ? ?. lia.
Qed.

Lemma rounds_mono t t' deadline step :
  (0 < step)%Z → (t ≤ t')%Z → rounds t' deadline step ≤ rounds t deadline step.
Proof.
  intros Hs Ht. unfold rounds.
  assert ((deadline - t' + step) / step ≤ (deadline - t + step) / step)%Z
    as Hle by (apply Z.div_le_mono; lia).
  revert Hle.
  generalize ((deadline - t' + step) / step)%Z, ((deadline - t + step) / step)%Z.
  intros a b ?. lia.
Qed.

Section silent_parts.
Context {H : Type} (hst : Host H).
Context (P : event → Prop).

Lemma tame_grant_notifications : tame P (grant_notifications hst).
Proof. unfold grant_notifications. tame. Qed.

Lemma tame_nav_round s url : tame P (nav_round hst s url).
Proof. unfold nav_round, nav_action, _wait_ready. tame. Qed.

Lemma tame_scan_latest ddir ts names latest :
  tame P (scan_latest hst ddir ts names latest).
Proof.
  revert latest. induction names as [|n names IH]; intros latest; simpl.
  - tame.
  - intros w. tame_step.
    + tame.
    + destruct a as [mtime|]; [|apply IH].
      destruct (ts <=? mtime)%Z; [|apply IH].
      destruct latest as [[? best]|]; [|apply IH].
      destruct (best <? mtime)%Z; apply IH.
Qed.

Lemma tame_scan_new ddir ts names : tame P (scan_new hst ddir ts names).
Proof.
  induction names as [|n names IH]; simpl.
  - tame.
  - destruct (hidden_or_partial n); [done|].
    intros w. tame_step.
    + tame_step; [|tame]. tame_step; [tame|].
      destruct (ts <=? a)%Z; tame.
    + destruct a; [tame|apply IH].
Qed.

Lemma good_phase1 fuel ddir ts deadline w :
  rounds (now w) deadline 200 ≤ fuel →
  good P w (phase1 hst fuel ddir ts deadline).
Proof.
  revert w. induction fuel as [|fuel IH]; intros w Hf.
  { unfold rounds in Hf. lia. }
  simpl. tame_step.
  destruct (Z.ltb_spec (now w) deadline) as [Hlt|Hge]; [|tame].
  apply good_bind; [tame|]. intros names w1 _ H1.
  apply good_bind; [apply tame_scan_latest|]. intros latest w2 _ H2.
  destruct latest as [[c ?]|]; [tame|].
  apply good_bind; [tame|]. intros [] w3 Hs H3.
  apply IH.
  assert (now w3 = now w2 + 200)%Z as Hw3.
  { unfold sleep in Hs. by simplify_eq/=. }
  pose proof (rounds_step (now w) (now w3) deadline 200). lia.
Qed.

Lemma good_phase2 fuel ddir ts deadline c target_stem w :
  rounds (now w) deadline 300 ≤ fuel →
  good P w (phase2 hst fuel ddir ts deadline c target_stem).
Proof.
  revert w. induction fuel as [|fuel IH]; intros w Hf.
  { unfold rounds in Hf. lia. }
  simpl. tame_step.
  destruct (Z.ltb_spec (now w) deadline) as [Hlt|Hge]; [|tame].
  apply good_bind; [tame|]. intros still w1 _ H1.
  apply good_bind.
  { destruct still; [tame|].
    tame_step; [tame|]. tame_step; [destruct a; tame|].
    destruct a0; [tame|]. tame_step; [tame|]. apply tame_scan_new. }
  intros found w2 _ H2.
  destruct found as [p|]; [tame|].
  apply good_bind; [tame|]. intros [] w3 Hs H3.
  apply IH.
  assert (now w3 = now w2 + 300)%Z as Hw3.
  { unfold sleep in Hs. by simplify_eq/=. }
  pose proof (rounds_step (now w) (now w3) deadline 300). lia.
Qed.

Lemma tame_wait_for_download ts timeout download_dir :
  tame P (wait_for_download hst ts timeout download_dir).
Proof.
  intros w. unfold wait_for_download. tame_step.
  apply good_bind; [by apply good_phase1|].
  intros candidate w1 _ H1.
  destruct candidate as [c|].
  - apply good_phase2.
    by apply rounds_mono.
  - tame_step; [tame|]. apply tame_scan_new.
Qed.

Lemma tame_close_each new_ones grant :
  tame P (close_each hst new_ones grant).
Proof.
  induction new_ones as [|h rest IH]; simpl; [tame|].
  intros w. tame_step; [|apply IH].
  tame_step; [|tame]. tame_step; [tame|].
  tame_step; [|tame]. destruct grant; [apply tame_grant_notifications|tame].
Qed.

Lemma tame_close_new_tabs baseline original grant :
  tame P (close_new_tabs hst baseline original grant).
Proof.
  unfold close_new_tabs. intros w.
  tame_step; [|tame]. tame_step; [tame|].
  tame_step; [apply tame_close_each|tame].
Qed.

Lemma tame_first_with_mp3 blocks : tame P (first_with_mp3 hst blocks).
Proof.
  induction blocks as [|b rest IH]; simpl; [tame|].
  intros w. tame_step; [tame|]. destruct a; [apply IH|tame].
Qed.

Lemma good_wait_href fuel dl_btn deadline w :
  rounds (now w) deadline 200 ≤ fuel →
  good P w (wait_href hst fuel dl_btn deadline).
Proof.
  revert w. induction fuel as [|fuel IH]; intros w Hf.
  { unfold rounds in Hf. lia. }
  cbn [wait_href]. tame_step.
  destruct (Z.ltb_spec (now w) deadline) as [Hlt|Hge]; [|tame].
  apply good_bind; [tame|]. intros href w1 _ H1.
  destruct (startswith "http" (or_empty href)); [tame|].
  apply good_bind; [tame|]. intros [] w2 Hs H2.
  apply IH.
  assert (now w2 = now w1 + 200)%Z as Hw2.
  { unfold sleep in Hs. by simplify_eq/=. }
  pose proof (rounds_step (now w) (now w2) deadline 200). lia.
Qed.

Lemma tame_find_new worker_dir before click names :
  tame P (find_new hst worker_dir before click names).
Proof.
  induction names as [|n rest IH]; simpl; [tame|].
  destruct (bool_decide (n ∈ before)); [done|].
  intros w. tame_step; [tame|]. destruct a; [tame|apply IH].
Qed.

Lemma good_watch_new fuel worker_dir before click deadline w :
  rounds (now w) deadline 200 ≤ fuel →
  good P w (watch_new hst fuel worker_dir before click deadline).
Proof.
  revert w. induction fuel as [|fuel IH]; intros w Hf.
  { unfold rounds in Hf. lia. }
  simpl. tame_step.
  destruct (Z.ltb_spec (now w) deadline) as [Hlt|Hge]; [|tame].
  apply good_bind; [tame|]. intros names w1 _ H1.
  apply good_bind; [apply tame_find_new|]. intros found w2 _ H2.
  apply good_bind; [tame|]. intros [] w3 Hs H3.
  destruct found; [tame|].
  apply IH.
  assert (now w3 = now w2 + 200)%Z as Hw3.
  { unfold sleep in Hs. by simplify_eq/=. }
  pose proof (rounds_step (now w) (now w3) deadline 200). lia.
Qed.

Lemma tame_fetch worker_dir results first :
  tame P (fetch hst worker_dir results first).
Proof.
  intros w. unfold fetch.
  tame_step; [apply tame_first_with_mp3|].
  tame_step; [destruct a; tame|].
  destruct a0 as [target_block mp3_btn].
  do 3 (tame_step; [tame|]).
  tame_step.
  tame_step; [by apply good_wait_href|].
  do 5 (tame_step; [tame|]).
  tame_step.
  tame_step; [tame|].
  tame_step.
  tame_step; [by apply good_watch_new|].
  tame_step; [tame|].
  tame_step; [apply tame_close_new_tabs|].
  apply tame_wait_for_download.
Qed.
End silent_parts.

(** ** C6: collision-free names *)

Lemma string_app_length (s t : string) :
  String.length (s +:+ t) = String.length s + String.length t.
Proof. induction s as [|c s IH]; [done|]. cbn. by rewrite <- IH. Qed.

Lemma string_app_inj_r (s1 s2 t : string) : s1 +:+ t = s2 +:+ t → s1 = s2.
Proof.
  revert s2. induction s1 as [|c s1 IH]; intros [|c2 s2] Heq; simpl in *.
  - done.
  - apply (f_equal String.length) in Heq.
    rewrite !string_app_length in Heq. simpl in Heq. lia.
  - apply (f_equal String.length) in Heq.
    rewrite !string_app_length in Heq. simpl in Heq. lia.
  - injection Heq as -> Heq. f_equal. by apply IH.
Qed.

Lemma numbered_inj s : Inj (=) (=) (numbered s).
Proof.
  intros i j Heq. unfold numbered in Heq.
  apply (inj (String.app _)) in Heq.
  apply (inj (String.app _)) in Heq.
  apply string_app_inj_r in Heq.
  by apply (inj pretty) in Heq.
Qed.

Lemma append_cons c (s t : string) : String c s +:+ t = String c (s +:+ t).
Proof. reflexivity. Qed.

Lemma str_take_drop n s : str_take n s +:+ str_drop n s = s.
Proof.
  revert s. induction n as [|n IH]; intros [|c s]; cbn; try done.
  by rewrite append_cons, IH.
Qed.

Lemma stem_suffix s : stem s +:+ suffix s = s.
Proof.
  unfold stem, suffix. destruct (suffix_at s) as [i|].
  - apply str_take_drop.
  - clear. induction s as [|c s IH]; [done|]. by rewrite append_cons, IH.
Qed.

Lemma first_free_spec (taken : gset string) s fuel k (T : gset string) :
  size T < fuel →
  (∀ j, k ≤ j → numbered s j ∈ taken → numbered s j ∈ T) →
  ∃ j, k ≤ j
       ∧ first_free fuel taken s k = Some (numbered s j)
       ∧ (numbered s j ∉ taken)
       ∧ ∀ i, k ≤ i < j → numbered s i ∈ taken.
Proof.
  revert k T. induction fuel as [|fuel IH]; intros k T Hsize HT; [lia|].
  simpl. destruct (decide (numbered s k ∈ taken)) as [Hin|Hout].
  - destruct (IH (S k) (T ∖ {[numbered s k]})) as (j & Hj & Hff & Hfree & Hbelow).
    + assert (numbered s k ∈ T) as HkT by (apply HT; [lia|done]).
      rewrite size_difference by set_solver.
      rewrite size_singleton.
      assert (size T ≠ 0); [|lia].
      intros Hz. apply size_empty_inv in Hz. set_solver.
    + intros j Hj Hjt. apply elem_of_difference. split; [apply HT; [lia|done]|].
      intros Heq%elem_of_singleton. apply numbered_inj in Heq. lia.
    + exists j. split; [lia|]. split; [done|]. split; [done|].
      intros i Hi. destruct (decide (i = k)) as [->|]; [done|].
      apply Hbelow. lia.
  - exists k. split; [lia|]. split; [done|]. split; [done|]. intros i Hi. lia.
Qed.

Lemma resolve_collision_free (taken : gset string) s :
  ∃ t, resolve_collision taken s = Some t ∧ t ∉ taken.
Proof.
  unfold resolve_collision. destruct (decide (s ∈ taken)) as [Hin|Hout]; [|eauto].
  destruct (first_free_spec taken s (S (size taken)) 1 taken)
    as (j & _ & Hff & Hfree & _); [lia|done|]. eauto.
Qed.

(** A worker that chooses and moves without another worker in between puts
    its file under a name that was free and touches no other file. *)
Lemma placement_in_one_go (dir : folder) (ps : list placement) wid p :
  ps !! wid = Some p →
  ∃ t, resolve_collision (dom dir) (name (completed p)) = Some t
       ∧ dir !! t = None
       ∧ play (dir, ps) [Choose wid; Move wid true]
         = (<[t := completed p]> dir,
            <[wid := Placement (completed p) (Some (Path Downloads t))]> ps).
Proof.
  intros Hp.
  destruct (resolve_collision_free (dom dir) (name (completed p)))
    as (t & Ht & Hfree).
  exists t. split; [done|]. split; [by apply not_elem_of_dom|].
  unfold play. cbn [foldl]. unfold step at 2. cbn [fst snd]. rewrite Hp, Ht.
  unfold step. cbn [fst snd fmap option_fmap option_map].
  rewrite list_lookup_insert_eq by (by eapply lookup_lt_Some).
  done.
Qed.

(** C6. The choice of a name: against any state [taken] of the shared
    folder, a name that is not taken is kept; a taken name becomes
    [stem (k) suffix] for the smallest [k ≥ 1] whose name is free; the chosen
    name is never taken. A worker that chooses and moves in one go adds its
    file under a free name and keeps every file of the folder, so three
    workers that place ["Song.mp3"] one after the other get ["Song.mp3"],
    ["Song (1).mp3"] and ["Song (2).mp3"]. But the choice and the move are
    two steps: when two workers both choose before either moves, both get
    ["Song.mp3"], and the second move replaces the file of the first; two
    downloads are reported under one name and one file is left. *)
Theorem placements_race_for_a_name :
  (∀ (taken : gset string) s, s ∉ taken → resolve_collision taken s = Some s)
  ∧ (∀ (taken : gset string) s, s ∈ taken →
       ∃ k, 1 ≤ k
            ∧ resolve_collision taken s
              = Some (stem s +:+ " (" +:+ pretty k +:+ ")" +:+ suffix s)
            ∧ (numbered s k ∉ taken)
            ∧ ∀ j, 1 ≤ j < k → numbered s j ∈ taken)
  ∧ (∀ (taken : gset string) s,
       ∃ t, resolve_collision taken s = Some t ∧ t ∉ taken)
  ∧ (∀ s, stem s +:+ suffix s = s)
  ∧ (∀ (dir : folder) ps wid p,
       ps !! wid = Some p →
       ∃ t, dir !! t = None
            ∧ play (dir, ps) [Choose wid; Move wid true]
              = (<[t := completed p]> dir,
                 <[wid := Placement (completed p) (Some (Path Downloads t))]> ps)
            ∧ ∀ n f, dir !! n = Some f →
                     (play (dir, ps) [Choose wid; Move wid true]).1 !! n = Some f)
  ∧ (let st := play (∅, waiting ["Song.mp3"; "Song.mp3"; "Song.mp3"])
                 [Choose 0; Move 0 true; Choose 1; Move 1 true;
                  Choose 2; Move 2 true] in
     reported st = [Some "Song.mp3"; Some "Song (1).mp3"; Some "Song (2).mp3"]
     ∧ st.1 !! "Song.mp3" = Some (Path (WorkerDir 1) "Song.mp3")
     ∧ st.1 !! "Song (1).mp3" = Some (Path (WorkerDir 2) "Song.mp3")
     ∧ st.1 !! "Song (2).mp3" = Some (Path (WorkerDir 3) "Song.mp3")
     ∧ size st.1 = 3)
  ∧ (let st := play (∅, waiting ["Song.mp3"; "Song.mp3"])
                 [Choose 0; Choose 1; Move 0 true; Move 1 true] in
     reported st = [Some "Song.mp3"; Some "Song.mp3"]
     ∧ st.1 !! "Song.mp3" = Some (Path (WorkerDir 2) "Song.mp3")
     ∧ size st.1 = 1).
Proof.
  split; [|split; [|split; [|split; [|split; [|split]]]]].
  - intros taken s Hs. unfold resolve_collision. by rewrite decide_False.
  - intros taken s Hs. unfold resolve_collision. rewrite decide_True by done.
    destruct (first_free_spec taken s (S (size taken)) 1 taken)
      as (j & Hj & Hff & Hfree & Hbelow); [lia|done|].
    exists j. by repeat split.
  - intros. apply resolve_collision_free.
  - apply stem_suffix.
  - intros dir ps wid p Hp.
    destruct (placement_in_one_go dir ps wid p Hp) as (t & _ & Hfree & Hplay).
    exists t. split; [done|]. split; [done|].
    intros n f Hn. rewrite Hplay. cbn [fst].
    rewrite lookup_insert_ne; [done|]. intros ->. congruence.
  - cbv zeta. repeat split; by vm_compute.
  - cbv zeta. repeat split; by vm_compute.
Qed.

(** ** Where the watcher finds its file *)

Section returned_paths.
Context {H : Type} (hst : Host H).

Lemma returns_bind {A B} (P : A → Prop) (Q : B → Prop)
    (m : M H A) (k : A → M H B) :
  returns P m → (∀ a, P a → returns Q (k a)) → returns Q (m ≫= k).
Proof.
  intros Hm Hk w b w'. rewrite mbind_bind. unfold bind.
  destruct (m w) as [[a|e|] w1] eqn:Hmw; [|done|done].
  apply Hk. by eapply Hm.
Qed.

Lemma returns_any {A} (m : M H A) : returns (λ _, True) m.
Proof. by intros w a w' _. Qed.

Lemma returns_seq {A B} (Q : B → Prop) (m : M H A) (k : A → M H B) :
  (∀ a, returns Q (k a)) → returns Q (m ≫= k).
Proof. intros Hk. eapply returns_bind; [apply returns_any|]. auto. Qed.

Lemma returns_ret {A} (Q : A → Prop) a : Q a → returns (H:=H) Q (mret a).
Proof. intros Ha w b w' [= <- _]. done. Qed.

Lemma returns_unfinished {A} (Q : A → Prop) : returns (H:=H) Q unfinished.
Proof. by intros w b w'. Qed.

Lemma inside_none ddir : inside ddir None.
Proof. by intros p. Qed.

Lemma inside_some ddir n : inside ddir (Some (Path ddir n)).
Proof. by intros p [= <-]. Qed.

Lemma returns_scan_new ddir ts names :
  returns (inside ddir) (scan_new hst ddir ts names).
Proof.
  induction names as [|n names IH]; simpl.
  - apply returns_ret, inside_none.
  - destruct (hidden_or_partial n); [done|].
    apply returns_seq. intros [|]; [|done].
    apply returns_ret, inside_some.
Qed.

Lemma returns_phase2 fuel ddir ts deadline c target_stem :
  returns (inside ddir) (phase2 hst fuel ddir ts deadline c target_stem).
Proof.
  induction fuel as [|fuel IH]; simpl; [apply returns_unfinished|].
  apply returns_seq. intros t.
  destruct (t <? deadline)%Z; [|apply returns_ret, inside_none].
  apply returns_seq. intros still.
  apply (returns_bind (inside ddir)).
  - destruct still; [apply returns_ret, inside_none|].
    apply returns_seq. intros fe. apply returns_seq. intros ff.
    destruct ff; [apply returns_ret, inside_some|].
    apply returns_seq. intros names. apply returns_scan_new.
  - intros [p|] Hp; [by apply returns_ret|].
    apply returns_seq. intros _. apply IH.
Qed.

Lemma returns_wait_for_download ts timeout ddir :
  returns (inside ddir) (wait_for_download hst ts timeout (Some ddir)).
Proof.
  unfold wait_for_download. apply returns_seq. intros t0. cbv zeta.
  apply returns_seq. intros [c|].
  - apply returns_phase2.
  - apply returns_seq. intros names. apply returns_scan_new.
Qed.

Lemma returns_fetch worker_dir results first :
  returns (inside worker_dir) (fetch hst worker_dir results first).
Proof.
  unfold fetch. apply returns_seq. intros found.
  apply returns_seq. intros [target_block mp3_btn].
  repeat lazymatch goal with
         | |- returns _ (wait_for_download _ _ _ _) => fail
         | |- _ => apply returns_seq; intros ?
         end.
  apply returns_wait_for_download.
Qed.
End returned_paths.

(** ** The query loop *)

Section worker_facts.
Context {H : Type} (hst : Host H).

(** A silent computation followed by another: either it raises, or the
    second one runs from a world with the same log. *)
Lemma bind_quiet {A B} (m : M H A) (k : A → M H B) (w : world H) :
  good nothing w m →
  (∃ e w1, (m ≫= k) w = (Raise e, w1) ∧ log w1 = log w ∧ (now w ≤ now w1)%Z)
  ∨ (∃ a w1, (m ≫= k) w = k a w1 ∧ m w = (Ok a, w1)
             ∧ log w1 = log w ∧ (now w ≤ now w1)%Z).
Proof.
  intros (r & w1 & Hm & Hr & Ht & tr & Hl & Htr).
  assert (tr = []) as ->.
  { destruct tr as [|e tr]; [done|]. by inversion Htr. }
  rewrite app_nil_r in Hl.
  rewrite mbind_bind. unfold bind. rewrite Hm.
  destruct r as [a|e|]; [right|left|done]; eauto 10.
Qed.

Tactic Notation "quiet_bind" "as" simple_intropattern(pat) :=
  lazymatch goal with
  | |- ∃ _ _ _, (?m ≫= ?k) ?w = _ ∧ _ => destruct (bind_quiet m k w) as pat
  end.

Lemma place_download_spec idx got (w : world H) :
  ∃ w' free err,
    place_download hst idx got w = (Ok (), w')
    ∧ (now w ≤ now w')%Z
    ∧ log w' = log w ++
        [EMove got (Path Downloads free) err;
         LDownloaded idx (match err with
                          | Some _ => got
                          | None => Path Downloads free
                          end)].
Proof.
  unfold place_download. rewrite mbind_bind. unfold bind at 1, ask at 1.
  set (taken := ans (listdir hst Downloads (now w) (host w))).
  set (w1 := World _ _ _).
  assert (log w1 = log w) as Hl by done.
  assert (now w ≤ now w1)%Z as Ht by (simpl; lia).
  clearbody w1 taken.
  destruct (resolve_collision_free (list_to_set taken) (name got))
    as (free & -> & _).
  cbv zeta. rewrite mbind_bind. unfold bind at 1. rewrite attempt_eq.
  unfold call.
  destruct (ans (move hst got (Path Downloads free) (now w1) (host w1)))
    as [e|[]] eqn:Hmove.
  - eexists _, free, (Some e). split; [reflexivity|].
    simpl. split; [lia|]. by rewrite Hl, <- app_assoc.
  - eexists _, free, None. split; [reflexivity|].
    simpl. split; [lia|]. by rewrite Hl, <- app_assoc.
Qed.

Lemma handle_query_spec worker_dir t (w : world H) :
  ∃ r w' tr,
    handle_query hst worker_dir t w = (r, w')
    ∧ (now w ≤ now w')%Z
    ∧ log w' = log w ++ tr
    ∧ query_run worker_dir t r tr.
Proof.
  destruct t as [idx q]. unfold handle_query.
  set (w0 := World (now w) (host w) (log w ++ [LQuery idx q])).
  change ((emit (LQuery idx q);; ?k) w) with (k w0).
  assert (log w0 = log w ++ [LQuery idx q]) as Hl0 by done.
  assert (now w ≤ now w0)%Z as Ht0 by done.
  clearbody w0.
  quiet_bind as [(e & w1 & -> & Hl & Ht)|(a & w1 & -> & _ & Hl1 & Ht1)]; [apply good_call| |].
  { eexists _, _, _. split; [done|]. split; [lia|]. split.
    - by rewrite Hl, Hl0.
    - apply (query_raised worker_dir (idx, q)). }
  quiet_bind as [(e & w2 & -> & Hl & Ht)|(a2 & w2 & -> & _ & Hl2 & Ht2)]; [apply good_call| |].
  { eexists _, _, _. split; [done|]. split; [lia|]. split.
    - by rewrite Hl, Hl1, Hl0.
    - apply (query_raised worker_dir (idx, q)). }
  quiet_bind as [(e & w3 & -> & Hl & Ht)|(a3 & w3 & -> & _ & Hl3 & Ht3)]; [apply good_sleep| |].
  { eexists _, _, _. split; [done|]. split; [lia|]. split.
    - by rewrite Hl, Hl2, Hl1, Hl0.
    - apply (query_raised worker_dir (idx, q)). }
  quiet_bind as [(e & w4 & -> & Hl & Ht)|(results & w4 & -> & _ & Hl4 & Ht4)]; [apply good_call| |].
  { eexists _, _, _. split; [done|]. split; [lia|]. split.
    - by rewrite Hl, Hl3, Hl2, Hl1, Hl0.
    - apply (query_raised worker_dir (idx, q)). }
  destruct results as [|first rest].
  { eexists _, _, _. split; [reflexivity|]. simpl. split; [lia|]. split.
    - by rewrite Hl4, Hl3, Hl2, Hl1, Hl0, <- app_assoc.
    - apply (query_no_results worker_dir (idx, q)). }
  quiet_bind as [(e & w5 & -> & Hl & Ht)|(got & w5 & -> & Hgot & Hl5 & Ht5)]; [apply tame_fetch| |].
  { eexists _, _, _. split; [done|]. split; [lia|]. split.
    - by rewrite Hl, Hl4, Hl3, Hl2, Hl1, Hl0.
    - apply (query_raised worker_dir (idx, q)). }
  destruct got as [file|].
  - destruct (place_download_spec idx file w5) as (w6 & free & err & -> & Ht6 & Hl6).
    eexists _, _, _. split; [done|]. split; [lia|]. split.
    + by rewrite Hl6, Hl5, Hl4, Hl3, Hl2, Hl1, Hl0, <- app_assoc.
    + apply returns_fetch in Hgot. specialize (Hgot file eq_refl).
      destruct err; [by apply (query_kept worker_dir (idx, q))
                    |by apply (query_moved worker_dir (idx, q))].
  - eexists _, _, _. split; [reflexivity|]. simpl. split; [lia|]. split.
    + by rewrite Hl5, Hl4, Hl3, Hl2, Hl1, Hl0, <- app_assoc.
    + apply (query_no_file worker_dir (idx, q)).
Qed.

Lemma run_tasks_spec worker_dir tasks (w : world H) :
  ∃ r w' tr,
    run_tasks hst worker_dir tasks w = (r, w')
    ∧ (now w ≤ now w')%Z
    ∧ log w' = log w ++ tr
    ∧ tasks_run worker_dir tasks r tr.
Proof.
  revert w. induction tasks as [|t tasks IH]; intros w.
  - exists (Ok ()), w, []. split; [done|]. split; [lia|].
    split; [by rewrite app_nil_r|constructor].
  - destruct (handle_query_spec worker_dir t w) as (r & w1 & tr1 & Hq & Ht1 & Hl1 & Hr).
    simpl. rewrite mbind_bind. unfold bind. rewrite Hq.
    destruct r as [[]|e|].
    + destruct (IH w1) as (r2 & w2 & tr2 & -> & Ht2 & Hl2 & Hr2).
      exists r2, w2, (tr1 ++ tr2). split; [done|]. split; [lia|]. split.
      * by rewrite Hl2, Hl1, app_assoc.
      * by apply tasks_next.
    + exists (Raise e), w1, tr1. split; [done|]. split; [lia|].
      split; [done|]. by apply tasks_stop.
    + inversion Hr.
Qed.
End worker_facts.

(** ** Navigation, session set-up and tear-down *)

Section session_facts.
Context {H : Type} (hst : Host H).

Lemma tame_cleanup_driver d : tame housekeeping (cleanup_driver hst d).
Proof. unfold cleanup_driver. tame; done. Qed.

Lemma force_nav_from_spec ts url last_err (w : world H) :
  ∃ r w' rs,
    force_nav_from hst ts url last_err w = (r, w')
    ∧ (now w ≤ now w')%Z
    ∧ log w' = log w ++ zip_with ENavigate (label <$> ts) rs
    ∧ length rs ≤ length ts
    ∧ ((r = Ok () ∧ ∃ rs0, rs = rs0 ++ [inr true] ∧ Forall (λ x, x ≠ inr true) rs0)
       ∨ (length rs = length ts ∧ Forall (λ x, x ≠ inr true) rs
          ∧ r = Raise (nav_failure last_err rs))).
Proof.
  revert last_err w. induction ts as [|s ts IH]; intros last_err w.
  - exists (Raise (nav_failure last_err [])), w, [].
    split; [done|]. split; [lia|]. split; [by rewrite app_nil_r|].
    split; [done|]. right. by repeat split.
  - cbn [force_nav_from]. rewrite mbind_bind. unfold bind at 1.
    rewrite attempt_eq.
    destruct (tame_nav_round hst nothing s url w)
      as (r1 & w1 & Hr1 & Hfin & Ht1 & tr & Hl1 & Htr).
    assert (tr = []) as ->.
    { destruct tr as [|e tr]; [done|]. by inversion Htr. }
    rewrite app_nil_r in Hl1. rewrite Hr1.
    destruct r1 as [b|e|]; [| |done].
    + set (w2 := World (now w1) (host w1) (log w1 ++ [ENavigate (label s) (inr b)])).
      change ((emit ?e ≫= ?k) w1) with (k () w2).
      assert (log w2 = log w ++ [ENavigate (label s) (inr b)]) as Hl2
        by (by rewrite <- Hl1).
      assert (now w ≤ now w2)%Z as Ht2 by done.
      clearbody w2.
      destruct b.
      * exists (Ok ()), w2, [inr true]. split; [done|].
        split; [done|].
        split; [rewrite Hl2; simpl; by rewrite zip_with_nil_r|].
        split; [simpl; lia|]. left. split; [done|]. by exists [].
      * destruct (IH last_err w2) as (r & w' & rs & Hf & Ht & Hl & Hlen & Hcase).
        exists r, w', (inr false :: rs). split; [done|].
        split; [lia|].
        split; [rewrite Hl, Hl2; simpl; by rewrite <- app_assoc|].
        split; [simpl; lia|].
        destruct Hcase as [(-> & rs0 & -> & Hrs0)|(Hlen' & Hrs & ->)].
        -- left. split; [done|]. exists (inr false :: rs0). split; [done|].
           by constructor.
        -- right. split; [simpl; lia|]. split; [by constructor|done].
    + set (w2 := World (now w1) (host w1) (log w1 ++ [ENavigate (label s) (inl e)])).
      change ((emit ?e ≫= ?k) w1) with (k () w2).
      assert (log w2 = log w ++ [ENavigate (label s) (inl e)]) as Hl2
        by (by rewrite <- Hl1).
      assert (now w ≤ now w2)%Z as Ht2 by done.
      clearbody w2.
      destruct (IH (Some e) w2) as (r & w' & rs & Hf & Ht & Hl & Hlen & Hcase).
      exists r, w', (inl e :: rs). split; [done|].
      split; [lia|].
      split; [rewrite Hl, Hl2; simpl; by rewrite <- app_assoc|].
      split; [simpl; lia|].
      destruct Hcase as [(-> & rs0 & -> & Hrs0)|(Hlen' & Hrs & ->)].
      * left. split; [done|]. exists (inl e :: rs0). split; [done|].
        by constructor.
      * right. split; [simpl; lia|]. split; [by constructor|].
        f_equal. unfold nav_failure.
        change (omap error_of (inl e :: rs)) with (e :: omap error_of rs).
        rewrite last_cons. by destruct (last (omap error_of rs)).
Qed.

Lemma tame_force_nav url : tame housekeeping (force_nav hst url).
Proof.
  intros w. unfold force_nav.
  destruct (force_nav_from_spec targets url None w)
    as (r & w' & rs & Hf & Ht & Hl & Hlen & Hcase).
  exists r, w'. split; [done|]. split.
  { destruct Hcase as [(-> & _)|(_ & _ & ->)]; done. }
  split; [done|]. eexists. split; [done|].
  generalize (label <$> targets). clear. intros ls. revert rs.
  induction ls as [|l ls IH]; intros [|r rs]; simpl; constructor; [done|].
  apply IH.
Qed.

Lemma removal_nil : removal [].
Proof. by left. Qed.

Lemma removal_one old : removal [ERmtree old].
Proof. right. by exists old. Qed.

Lemma build_driver_attempt_spec base user_data (w : world H) :
  ∃ r w' tr,
    build_driver_attempt hst base user_data w = (r, w')
    ∧ (now w ≤ now w')%Z
    ∧ log w' = log w ++ tr
    ∧ attempt_run base user_data r tr.
Proof.
  pose proof removal_nil. pose proof removal_one.
  cbv [build_driver_attempt try_except attempt mbind M_bind bind ask call
       emit mret M_ret ret raise sleep any_exception error_of].
  destruct user_data as [old|]; cbn [log now host];
    repeat (first
      [ match goal with
        | |- context [match ans ?a with _ => _ end] => destruct (ans a) eqn:?
        | |- context [if ans ?a then _ else _] => destruct (ans a) eqn:?
        | |- context [if is_session_not_created ?e then _ else _] =>
            destruct (is_session_not_created e) eqn:?
        end
      | progress cbn [log now host] ]);
    eexists _, _, _; (split; [reflexivity|]); cbn [log now host];
    (split; [lia|]);
    (split; [rewrite <- ?app_assoc; try reflexivity; by rewrite app_nil_r|]);
    simpl;
    first
      [ by apply (attempt_launched base _ [])
      | by apply (attempt_launched base _ [ERmtree _])
      | by apply (attempt_retry base _ [])
      | by apply (attempt_retry base _ [ERmtree _])
      | by apply (attempt_crashed base _ [])
      | by apply (attempt_crashed base _ [ERmtree _])
      | by apply attempt_no_dir_retry
      | by apply attempt_no_dir_crashed ].
Qed.

Lemma build_driver_loop_spec n base user_data last_err (w : world H) :
  ∃ r w' tr,
    build_driver_loop hst n base user_data last_err w = (r, w')
    ∧ (now w ≤ now w')%Z
    ∧ log w' = log w ++ tr
    ∧ session_run base n last_err r tr.
Proof.
  revert user_data last_err w.
  induction n as [|n IH]; intros user_data last_err w.
  - eexists _, w, []. split; [reflexivity|]. split; [lia|].
    split; [by rewrite app_nil_r|]. constructor.
  - cbn [build_driver_loop]. rewrite mbind_bind. unfold bind.
    destruct (build_driver_attempt_spec base user_data w)
      as (r1 & w1 & tr1 & -> & Ht1 & Hl1 & Hr1).
    destruct r1 as [[d|[user_data' last_err']]|e|].
    + exists (Ok d), w1, tr1. repeat split; try done.
      by eapply session_opened.
    + destruct (IH user_data' last_err' w1)
        as (r & w' & tr2 & -> & Ht & Hl & Hr).
      exists r, w', (tr1 ++ tr2). split; [done|]. split; [lia|].
      split; [by rewrite Hl, Hl1, app_assoc|].
      inversion Hr1; subst; by eapply session_again.
    + exists (Raise e), w1, tr1. repeat split; try done.
      by eapply session_crashed.
    + inversion Hr1.
Qed.

Lemma build_driver_spec download_dir (w : world H) :
  ∃ r w' tr,
    build_driver hst download_dir w = (r, w')
    ∧ (now w ≤ now w')%Z
    ∧ log w' = log w ++ tr
    ∧ ((tr = [] ∧ ∃ e, r = Raise e)
       ∨ session_run (default Downloads download_dir) 3 None r tr).
Proof.
  unfold build_driver. cbv zeta.
  destruct (bind_quiet (call (mkdir hst (default Downloads download_dir)))
              (λ _, call (mkdir hst CacheRoot);;
                    build_driver_loop hst 3 (default Downloads download_dir)
                      None None) w)
    as [(e & w1 & -> & Hl & Ht)|([] & w1 & -> & _ & Hl1 & Ht1)];
    [apply good_call| |].
  { exists (Raise e), w1, []. split; [done|]. split; [done|].
    split; [by rewrite app_nil_r|]. left. eauto. }
  destruct (bind_quiet (call (mkdir hst CacheRoot))
              (λ _, build_driver_loop hst 3 (default Downloads download_dir)
                      None None) w1)
    as [(e & w2 & -> & Hl & Ht)|([] & w2 & -> & _ & Hl2 & Ht2)];
    [apply good_call| |].
  { exists (Raise e), w2, []. split; [done|]. split; [lia|].
    split; [by rewrite app_nil_r, Hl, Hl1|]. left. eauto. }
  destruct (build_driver_loop_spec 3 (default Downloads download_dir) None None w2)
    as (r & w' & tr & -> & Ht & Hl & Hr).
  exists r, w', tr. split; [done|]. split; [lia|].
  split; [by rewrite Hl, Hl2, Hl1|]. by right.
Qed.
End session_facts.

(** ** Facts about logs *)

Lemma count_app f tr1 tr2 : count f (tr1 ++ tr2) = count f tr1 + count f tr2.
Proof. unfold count. by rewrite filter_app, length_app. Qed.

Lemma count_le_length f tr : count f tr ≤ length tr.
Proof. unfold count. apply length_filter. Qed.

Lemma started_app tr1 tr2 : started (tr1 ++ tr2) = started tr1 ++ started tr2.
Proof. unfold started. apply omap_app. Qed.

Lemma outcomes_app tr1 tr2 : outcomes (tr1 ++ tr2) = outcomes tr1 + outcomes tr2.
Proof. unfold outcomes. rewrite !count_app. lia. Qed.

Lemma housekeeping_started tr : Forall housekeeping tr → started tr = [].
Proof.
  induction 1 as [|e tr He _ IH]; [done|].
  unfold started in *. destruct e; simpl in *; done.
Qed.

Lemma housekeeping_outcomes tr : Forall housekeeping tr → outcomes tr = 0.
Proof.
  induction 1 as [|e tr He _ IH]; [done|].
  change (e :: tr) with ([e] ++ tr). rewrite outcomes_app, IH.
  by destruct e.
Qed.

Lemma launches_fresh_app tr1 tr2 :
  launches_fresh tr1 → launches_fresh tr2 → launches_fresh (tr1 ++ tr2).
Proof.
  intros H1 H2 i p d err Hi.
  destruct (decide (i < length tr1)) as [Hlt|Hge].
  - rewrite lookup_app_l in Hi by done.
    destruct (H1 i p d err Hi) as (j & -> & Hj).
    exists j. split; [done|]. rewrite lookup_app_l by lia. done.
  - rewrite lookup_app_r in Hi by lia.
    destruct (H2 _ p d err Hi) as (j & Hij & Hj).
    exists (length tr1 + j). split; [lia|].
    rewrite lookup_app_r by lia. rewrite <- Hj. f_equal. lia.
Qed.

Lemma last_failed_launch_app tr1 tr2 :
  last_failed_launch (tr1 ++ tr2)
  = match last_failed_launch tr2 with
    | Some e => Some e
    | None => last_failed_launch tr1
    end.
Proof.
  unfold last_failed_launch. rewrite omap_app.
  generalize (omap (λ e, match e with ELaunch _ _ err => err | _ => None end) tr1).
  generalize (omap (λ e, match e with ELaunch _ _ err => err | _ => None end) tr2).
  intros l2 l1. destruct l2 as [|x l2 _] using rev_ind.
  - by rewrite app_nil_r.
  - by rewrite app_assoc, !last_snoc.
Qed.

Lemma attempt_run_facts base user_data r tr :
  attempt_run base user_data r tr →
  Forall housekeeping tr
  ∧ launches_fresh tr
  ∧ count is_launch tr ≤ 1
  ∧ count is_failed_launch tr ≤ count is_launch tr
  ∧ r ≠ Unfinished
  ∧ (∀ x e, r = Ok (inr (x, Some e)) → count is_failed_launch tr = 1 →
       last_failed_launch tr = Some e)
  ∧ (∀ e, r = Raise e → count is_failed_launch tr = 1 →
       last_failed_launch tr = Some e)
  ∧ (∀ d, r = Ok (inl d) →
       count is_failed_launch tr = 0
       ∧ ∃ tr0, tr = tr0 ++ [EMkdtemp (_temp_user_data d);
                             ELaunch (_temp_user_data d) base None]).
Proof.
  intros Hrun.
  inversion Hrun as [rm f Hrm|rm f e Hrm He|rm f e Hrm He|rm e Hrm He|rm e Hrm He];
    subst; destruct Hrm as [->|[old ->]]; simpl;
    (split; [repeat constructor|]);
    (split; [intros i ???; repeat (destruct i as [|i]; simpl; try done);
             intros; simplify_eq; eauto|]);
    (split; [vm_compute; lia|]);
    (split; [vm_compute; lia|]);
    (split; [done|]);
    (split; [intros ???; try done; intros; simplify_eq; by vm_compute|]);
    (split; [intros ??; try done; intros; simplify_eq; by vm_compute|]);
    intros ??; try done; simplify_eq; (split; [done|]); simpl.
  - by exists [].
  - by exists [ERmtree old].
Qed.

Lemma session_run_facts base n last_err r tr :
  session_run base n last_err r tr →
  Forall housekeeping tr
  ∧ launches_fresh tr
  ∧ count is_launch tr ≤ n
  ∧ count is_failed_launch tr ≤ count is_launch tr
  ∧ r ≠ Unfinished
  ∧ (∀ d, r = Ok d →
       ∃ tr0, tr = tr0 ++ [EMkdtemp (_temp_user_data d);
                           ELaunch (_temp_user_data d) base None]).
Proof.
  induction 1 as [last_err|n last_err ud d tr Ha|n last_err ud e tr Ha
                  |n last_err ud ud' e tr1 r tr2 Ha Hs IH].
  - repeat split; try done; try (by vm_compute); try (by intros i ????).
  - destruct (attempt_run_facts _ _ _ _ Ha) as (?&?&?&?&?&?&?&Hd).
    repeat split; try done; try lia.
    intros d' [= <-]. by apply Hd.
  - destruct (attempt_run_facts _ _ _ _ Ha) as (?&?&?&?&?&?&?&Hd).
    repeat split; try done; lia.
  - destruct (attempt_run_facts _ _ _ _ Ha) as (?&?&?&?&?&?&?&Hd).
    destruct IH as (?&?&?&?&?&Hd2).
    split; [by apply Forall_app|].
    split; [by apply launches_fresh_app|].
    rewrite !count_app.
    split; [lia|]. split; [lia|]. split; [done|].
    intros d Hr. destruct (Hd2 d Hr) as [tr0 ->].
    exists (tr1 ++ tr0). by rewrite app_assoc.
Qed.

(** When every round of the retry loop ends in a failed launch, the loop
    raises the exception of the last launch. *)
Lemma session_run_exhausted base n last_err r tr :
  session_run base n last_err r tr →
  count is_failed_launch tr = n →
  r = Raise (default
               (RuntimeError "Failed to create Chrome session after retries")
               (match last_failed_launch tr with
                | Some e => Some e
                | None => last_err
                end)).
Proof.
  induction 1 as [last_err|n last_err ud d tr Ha|n last_err ud e tr Ha
                  |n last_err ud ud' e tr1 r tr2 Ha Hs IH]; intros Hn.
  - done.
  - destruct (attempt_run_facts _ _ _ _ Ha) as (?&?&?&?&?&?&?&Hd).
    destruct (Hd d eq_refl) as [Hz _]. lia.
  - destruct (attempt_run_facts _ _ _ _ Ha) as (?&?&?&?&?&?&He&Hd).
    assert (count is_failed_launch tr = 1) as Hone by lia.
    by rewrite (He e eq_refl Hone).
  - destruct (attempt_run_facts _ _ _ _ Ha) as (?&?&?&?&?&He&?&Hd).
    destruct (session_run_facts _ _ _ _ _ Hs) as (?&?&?&?&?&?).
    rewrite count_app in Hn.
    assert (count is_failed_launch tr1 = 1) as Hone by lia.
    assert (count is_failed_launch tr2 = n) as Hrest by lia.
    rewrite (IH Hrest), last_failed_launch_app, (He _ e eq_refl Hone).
    by destruct (last_failed_launch tr2).
Qed.

Lemma query_run_facts worker_dir t r tr :
  query_run worker_dir t r tr →
  started tr = [t]
  ∧ r ≠ Unfinished
  ∧ (r = Ok () → outcomes tr = 1)
  ∧ (∀ e, r = Raise e → outcomes tr = 0).
Proof. destruct t. by inversion 1. Qed.

Lemma tasks_run_facts worker_dir tasks r tr :
  tasks_run worker_dir tasks r tr →
  started tr `prefix_of` tasks
  ∧ r ≠ Unfinished
  ∧ (r = Ok () → started tr = tasks ∧ outcomes tr = length tasks)
  ∧ (∀ e, r = Raise e → S (outcomes tr) = length (started tr)).
Proof.
  induction 1 as [|t ts r tr1 tr2 Hq Hts IH|t ts e tr Hq].
  - repeat split; try done.
  - destruct (query_run_facts _ _ _ _ Hq) as (Hs & _ & Ho & _).
    destruct IH as (Hpre & Hfin & Hok & Hraise).
    rewrite started_app, outcomes_app, Hs, (Ho eq_refl). simpl.
    split; [by apply prefix_cons|]. split; [done|]. split.
    + intros Hr. destruct (Hok Hr) as [-> ->]. done.
    + intros e Hr. by rewrite (Hraise e Hr).
  - destruct (query_run_facts _ _ _ _ Hq) as (Hs & _ & _ & Ho).
    rewrite Hs, (Ho e eq_refl).
    split; [by apply prefix_cons, prefix_nil|]. by repeat split.
Qed.

Section process_worker_facts.
Context {H : Type} (hst : Host H).

Lemma cleanup_driver_spec d (w : world H) :
  ∃ r w' rest,
    cleanup_driver hst d w = (r, w')
    ∧ (now w ≤ now w')%Z
    ∧ log w' = log w ++ EQuit :: rest
    ∧ Forall housekeeping rest
    ∧ r ≠ Unfinished.
Proof.
  cbv [cleanup_driver try_finally attempt mbind M_bind bind ask call
       emit mret M_ret ret raise].
  repeat (first
    [ match goal with
      | |- context [match ans ?a with _ => _ end] => destruct (ans a) eqn:?
      | |- context [if ans ?a then _ else _] => destruct (ans a) eqn:?
      | |- context [if nonempty ?s then _ else _] => destruct (nonempty s) eqn:?
      end
    | progress cbn [log now host] ]);
    eexists _, _, _; (split; [reflexivity|]); cbn [log now host];
    (split; [lia|]);
    (split; [rewrite <- ?app_assoc; reflexivity|]);
    split; try done; repeat constructor.
Qed.

(** The shape of a worker's run: set-up events, the events of the query
    loop, tear-down events. Either the set-up failed and no query was
    started, or the loop ran and the session was quit; the worker ends
    the way the loop ended, unless the tear-down raised. *)
Lemma process_worker_spec worker_id tasks (w : world H) :
  ∃ r w' pre mid post,
    process_worker hst worker_id tasks w = (r, w')
    ∧ (now w ≤ now w')%Z
    ∧ log w' = log w ++ pre ++ mid ++ post
    ∧ Forall housekeeping pre
    ∧ Forall housekeeping post
    ∧ r ≠ Unfinished
    ∧ ((mid = [] ∧ ∃ e, r = Raise e)
       ∨ (∃ r0 post', tasks_run (WorkerDir (worker_id + 1)) tasks r0 mid
                      ∧ post = EQuit :: post'
                      ∧ (r = r0 ∨ ∃ e, r = Raise e))).
Proof.
  unfold process_worker. cbv zeta. rewrite mbind_bind. unfold bind at 1.
  destruct (build_driver_spec hst (Some (WorkerDir (worker_id + 1))) w)
    as (r0 & w1 & tr0 & -> & Ht1 & Hl1 & Hshape).
  assert (Forall housekeeping tr0 ∧ r0 ≠ Unfinished) as [Hh0 Hfin0].
  { destruct Hshape as [[-> [e ->]]|Hs]; [done|].
    by destruct (session_run_facts _ _ _ _ _ Hs) as (?&?&?&?&?&?). }
  destruct r0 as [d|e|]; [| |done].
  2:{ exists (Raise e), w1, tr0, [], []. rewrite !app_nil_r.
      repeat split; try done. left. eauto. }
  unfold try_finally.
  (* the stagger and the navigation to the site *)
  set (setup := (match tasks with
                 | [] => mret ()
                 | _ :: _ => force_nav hst SITE_URL;; grant_notifications hst
                 end : M H unit)).
  assert (tame housekeeping setup) as Hsetup.
  { subst setup. destruct tasks; [tame|].
    intros w0. tame_step; [apply tame_force_nav|].
    apply tame_grant_notifications. }
  change ((sleep ?ms;; setup;; ?k) w1) with ((setup;; k) (World (now w1 + Z.max 0 ms) (host w1) (log w1))).
  set (w2 := World _ (host w1) (log w1)).
  assert (log w2 = log w1) as Hl2 by done.
  assert (now w1 ≤ now w2)%Z as Ht2 by (simpl; lia).
  clearbody w2.
  rewrite mbind_bind. unfold bind at 1.
  destruct (Hsetup w2) as (r3 & w3 & -> & Hfin3 & Ht3 & tr3 & Hl3 & Hh3).
  destruct r3 as [[]|e|]; [| |done].
  - destruct (run_tasks_spec hst (WorkerDir (worker_id + 1)) tasks w3)
      as (r4 & w4 & mid & -> & Ht4 & Hl4 & Hrun).
    destruct (tasks_run_facts _ _ _ _ Hrun) as (_ & Hfin4 & _).
    destruct (cleanup_driver_spec d w4)
      as (r5 & w5 & rest & Hc & Ht5 & Hl5 & Hh5 & Hfin5).
    assert (log w5 = log w ++ (tr0 ++ tr3) ++ mid ++ EQuit :: rest) as Hlog.
    { rewrite Hl5, Hl4, Hl3, Hl2, Hl1. by rewrite <- !app_assoc. }
    assert (Forall housekeeping (tr0 ++ tr3)) by (by apply Forall_app).
    assert (Forall housekeeping (EQuit :: rest)) by (by constructor).
    destruct r4 as [[]|e|]; [| |done]; unfold bind; rewrite Hc;
      destruct r5 as [[]|e5|]; try done;
      eexists _, w5, (tr0 ++ tr3), mid, (EQuit :: rest);
      (split; [reflexivity|]); (split; [lia|]); (split; [done|]);
      (split; [done|]); (split; [done|]); (split; [done|]);
      right; eexists _, rest; (split; [exact Hrun|]); (split; [done|]); eauto.
  - destruct (cleanup_driver_spec d w3)
      as (r5 & w5 & rest & Hc & Ht5 & Hl5 & Hh5 & Hfin5).
    assert (log w5 = log w ++ (tr0 ++ tr3) ++ [] ++ EQuit :: rest) as Hlog.
    { rewrite Hl5, Hl3, Hl2, Hl1. by rewrite <- !app_assoc. }
    assert (Forall housekeeping (tr0 ++ tr3)) by (by apply Forall_app).
    assert (Forall housekeeping (EQuit :: rest)) by (by constructor).
    unfold bind; rewrite Hc;
      destruct r5 as [[]|e5|]; try done;
      eexists _, w5, (tr0 ++ tr3), [], (EQuit :: rest);
      (split; [reflexivity|]); (split; [lia|]); (split; [done|]);
      (split; [done|]); (split; [done|]); (split; [done|]);
      left; eauto.
Qed.

(** A worker whose session cannot be set up raises what [build_driver]
    raised, from the world [build_driver] left. *)
Lemma process_worker_no_session worker_id tasks (w w1 : world H) e :
  build_driver hst (Some (WorkerDir (worker_id + 1))) w = (Raise e, w1) →
  process_worker hst worker_id tasks w = (Raise e, w1).
Proof.
  intros Hb. unfold process_worker. cbv zeta. rewrite mbind_bind.
  unfold bind at 1. by rewrite Hb.
Qed.
End process_worker_facts.

(** ** C7: [force_nav] *)

Lemma bind_ok {H A B} (m : M H A) (k : A → M H B) (w w1 : world H) a :
  m w = (Ok a, w1) → (m ≫= k) w = k a w1.
Proof. intros Hm. rewrite mbind_bind. unfold bind. by rewrite Hm. Qed.

Section navigation_calls.
Context {H : Type} (hst : Host H).

Lemma bind_call_recorded {A B} req (rep : A → reply) (c : hcall H A)
    (k : A → M (H * tape) B) (w : world (H * tape)) :
  ∃ w1, (now w ≤ now w1)%Z ∧ log w1 = log w
    ∧ ((∃ e, (call (recorded req rep c) ≫= k) w = (Raise e, w1)
             ∧ calls w1 = calls w ++ [(req, Raised e)])
       ∨ (∃ x, (call (recorded req rep c) ≫= k) w = k x w1
               ∧ calls w1 = calls w ++ [(req, rep x)])).
Proof.
  rewrite mbind_bind. unfold bind, call, recorded. cbn.
  destruct (ans (c (now w) (host w).1)) as [e|x];
    eexists; (split; [|split; [|first [left; by eexists | right; by eexists]]]);
    cbn; [lia|done|lia|done].
Qed.

Lemma bind_assoc_at {A B C} (m : M (H * tape) A) (f : A → M (H * tape) B)
    (g : B → M (H * tape) C) (w : world (H * tape)) :
  ((m ≫= f) ≫= g) w = (m ≫= λ x, f x ≫= g) w.
Proof.
  rewrite !mbind_bind. unfold bind. destruct (m w) as [[a|e|] w1]; [|done..].
  by rewrite mbind_bind.
Qed.

Lemma bind_mret_at {A B} (a : A) (k : A → M (H * tape) B)
    (w : world (H * tape)) :
  (mret a ≫= k) w = k a w.
Proof. by rewrite mbind_bind. Qed.

(** One round on the recording host. *)
Lemma nav_round_result s url (w : world (H * tape)) :
  ∃ res cs,
    match (nav_round (traced hst) s url w).1 with
    | Ok b => Some (inr b)
    | Raise e => Some (inl e)
    | Unfinished => None
    end = Some res
    ∧ calls (nav_round (traced hst) s url w).2 = calls w ++ cs
    ∧ round_of s url res cs
    ∧ log (nav_round (traced hst) s url w).2 = log w
    ∧ (now w ≤ now (nav_round (traced hst) s url w).2)%Z.
Proof.
  unfold nav_round, nav_action, _wait_ready.
  destruct s; cbn [traced get wait_ready_state current_url execute_script
                   execute_cdp_cmd new_window];
    repeat first
      [ rewrite bind_assoc_at
      | rewrite bind_mret_at
      | match goal with
        | |- context [(call (recorded ?req ?rep ?c) ≫= ?k) ?w0] =>
            destruct (bind_call_recorded req rep c k w0)
              as (?w & ?Ht & ?Hl & [(?e & -> & ?Hc)|(?x & -> & ?Hc)]);
            cbv beta
        end ];
    cbn [fst snd mret M_ret ret];
    repeat match goal with
           | Hc : calls ?x = _ |- context [calls ?x] => rewrite Hc; clear Hc
           | Hl : log ?x = _ |- context [log ?x] => rewrite Hl; clear Hl
           end;
    eexists _, _; (split; [reflexivity|]);
    (split; [rewrite <- ?app_assoc; reflexivity|]);
    (split; [|split; [reflexivity|lia]]);
    unfold round_of; cbn;
    (split; [first [reflexivity | by eexists]|]);
    (split; [repeat constructor; by intros ?|]);
    eexists; first [split; reflexivity | reflexivity].
Qed.

Lemma nav_round_calls s url (w : world (H * tape)) :
  ∃ res w' cs,
    attempt (nav_round (traced hst) s url) w = (Ok res, w')
    ∧ calls w' = calls w ++ cs
    ∧ round_of s url res cs
    ∧ log w' = log w
    ∧ (now w ≤ now w')%Z.
Proof.
  destruct (nav_round_result s url w) as (res & cs & Hres & Hc & Hr & Hl & Ht).
  rewrite attempt_eq.
  destruct (nav_round (traced hst) s url w) as [[b|e|] w1]; simplify_eq/=;
    by eexists _, _, _.
Qed.

Lemma force_nav_from_calls ts url last_err (w : world (H * tape)) :
  ∃ r w' (rounds : list ((exn + bool) * tape)),
    force_nav_from (traced hst) ts url last_err w = (r, w')
    ∧ calls w' = calls w ++ concat rounds.*2
    ∧ Forall2 (λ s rd, round_of s url rd.1 rd.2)
        (take (length rounds) ts) rounds
    ∧ length rounds ≤ length ts
    ∧ log w' = log w ++ zip_with ENavigate (label <$> ts) rounds.*1
    ∧ ((r = Ok ()
        ∧ ∃ rds0 cs, rounds = rds0 ++ [(inr true, cs)]
                     ∧ Forall (λ rd, rd.1 ≠ inr true) rds0)
       ∨ (length rounds = length ts
          ∧ Forall (λ rd, rd.1 ≠ inr true) rounds
          ∧ r = Raise (nav_failure last_err rounds.*1))).
Proof.
  revert last_err w. induction ts as [|s ts IH]; intros last_err w.
  - exists (Raise (nav_failure last_err [])), w, [].
    split; [done|]. split; [by rewrite app_nil_r|]. split; [constructor|].
    split; [done|]. split; [by rewrite app_nil_r|]. right. by repeat split.
  - cbn [force_nav_from].
    destruct (nav_round_calls s url w)
      as (res & w1 & cs & Hr & Hc1 & Hround & Hl1 & Ht1).
    rewrite (bind_ok _ _ _ _ _ Hr).
    set (w2 := World (now w1) (host w1) (log w1 ++ [ENavigate (label s) res])).
    change ((emit ?e ≫= ?k) w1) with (k () w2).
    assert (log w2 = log w ++ [ENavigate (label s) res]) as Hl2
      by (by rewrite <- Hl1).
    assert (calls w2 = calls w ++ cs) as Hc2 by done.
    clearbody w2.
    destruct res as [e|[|]].
    + destruct (IH (Some e) w2)
        as (r & w' & rounds & Hf & Hc & Hrs & Hlen & Hl & Hcase).
      exists r, w', ((inl e, cs) :: rounds). split; [done|].
      split; [rewrite Hc, Hc2; cbn; by rewrite <- app_assoc|].
      split; [cbn; by constructor|]. split; [cbn; lia|].
      split; [rewrite Hl, Hl2; cbn; by rewrite <- app_assoc|].
      destruct Hcase as [(-> & rds0 & cs0 & -> & Hrds0)|(Hlen' & Hrs' & ->)].
      * left. split; [done|]. exists ((inl e, cs) :: rds0), cs0.
        split; [done|]. by constructor.
      * right. split; [cbn; lia|]. split; [by constructor|].
        f_equal. unfold nav_failure. rewrite !fmap_cons.
        change (omap error_of ((inl e, cs).1 :: rounds.*1))
          with (e :: omap error_of rounds.*1).
        rewrite last_cons. by destruct (last (omap error_of rounds.*1)).
    + exists (Ok ()), w2, [(inr true, cs)]. split; [done|].
      split; [rewrite Hc2; cbn; by rewrite app_nil_r|].
      split; [cbn; rewrite take_0; by apply Forall2_cons|].
      split; [cbn; lia|].
      split; [rewrite Hl2; cbn; by rewrite zip_with_nil_r|].
      left. split; [done|]. by exists [], cs.
    + destruct (IH last_err w2)
        as (r & w' & rounds & Hf & Hc & Hrs & Hlen & Hl & Hcase).
      exists r, w', ((inr false, cs) :: rounds). split; [done|].
      split; [rewrite Hc, Hc2; cbn; by rewrite <- app_assoc|].
      split; [cbn; by constructor|]. split; [cbn; lia|].
      split; [rewrite Hl, Hl2; cbn; by rewrite <- app_assoc|].
      destruct Hcase as [(-> & rds0 & cs0 & -> & Hrds0)|(Hlen' & Hrs' & ->)].
      * left. split; [done|]. exists ((inr false, cs) :: rds0), cs0.
        split; [done|]. by constructor.
      * right. split; [cbn; lia|]. split; [by constructor|done].
Qed.
End navigation_calls.


(** ** C1: exceptions in the query loop *)

Lemma run_tasks_app {H} (hst : Host H) worker_dir pre post (w : world H) :
  run_tasks hst worker_dir (pre ++ post) w =
  match run_tasks hst worker_dir pre w with
  | (Ok _, w1) => run_tasks hst worker_dir post w1
  | r => r
  end.
Proof.
  revert w. induction pre as [|t pre IH]; intros w; [done|].
  simpl. rewrite !mbind_bind. unfold bind.
  destruct (handle_query hst worker_dir t w) as [[[]|e|] w1]; [|done|done].
  apply IH.
Qed.

(** The events a worker adds to its log, in terms of the queries started
    and the outcome lines printed. *)
Lemma process_worker_log {H} (hst : Host H) worker_id tasks (w : world H) :
  ∃ r w' tr,
    process_worker hst worker_id tasks w = (r, w')
    ∧ log w' = log w ++ tr
    ∧ r ≠ Unfinished
    ∧ started tr `prefix_of` tasks
    ∧ outcomes tr ≤ length (started tr)
    ∧ (r = Ok () → started tr = tasks ∧ outcomes tr = length tasks)
    ∧ (started tr ≠ [] → EQuit ∈ tr).
Proof.
  destruct (process_worker_spec hst worker_id tasks w)
    as (r & w' & pre & mid & post & Hp & _ & Hl & Hpre & Hpost & Hfin & Hcase).
  exists r, w', (pre ++ mid ++ post). split; [done|]. split; [done|].
  split; [done|].
  rewrite !started_app, !outcomes_app.
  rewrite (housekeeping_started pre), (housekeeping_started post) by done.
  rewrite (housekeeping_outcomes pre), (housekeeping_outcomes post) by done.
  rewrite app_nil_r. simpl.
  destruct Hcase as [(-> & e & ->)|(r0 & post' & Hrun & -> & Hr)].
  - split; [apply prefix_nil|]. split; [done|]. split; done.
  - destruct (tasks_run_facts _ _ _ _ Hrun) as (Hprefix & Hfin0 & Hok & Hraise).
    split; [done|]. split.
    { destruct r0 as [[]|e|]; [|pose proof (Hraise e eq_refl); lia|done].
      destruct (Hok eq_refl) as [-> ->]. lia. }
    split.
    { intros ->. destruct Hr as [<-|[e ?]]; [|done].
      destruct (Hok eq_refl) as [-> ->]. split; [done|lia]. }
    intros _. rewrite !elem_of_app. right. right. by left.
Qed.

Lemma cleanup_driver_exact {H} (hst : Host H) d (w : world H) :
  ∃ r w' rest,
    cleanup_driver hst d w = (r, w')
    ∧ r ≠ Unfinished
    ∧ log w' = log w ++ EQuit :: rest
    ∧ (rest = [] ∨ rest = [ERmtree (_temp_user_data d)]).
Proof.
  cbv [cleanup_driver try_finally mbind M_bind bind ask call
       emit mret M_ret ret raise].
  repeat (first
    [ match goal with
      | |- context [match ans ?a with _ => _ end] => destruct (ans a) eqn:?
      | |- context [if ans ?a then _ else _] => destruct (ans a) eqn:?
      | |- context [if nonempty ?s then _ else _] => destruct (nonempty s) eqn:?
      end
    | progress cbn [log now host] ]);
    eexists _, _, _; (split; [reflexivity|]); cbn [log now host];
    (split; [done|]);
    (split; [rewrite <- ?app_assoc; reflexivity|]); auto.
Qed.

(** C1 (as amended). A query whose handling ends without an exception
    prints one outcome line after its query line, and the loop goes on with
    the next query. An exception raised while handling a query is not caught
    in the loop. For a worker whose session is up and whose queries [pre]
    were handled, when the handling of the next query [t] raises [e]: every
    query of [pre] has its outcome line, [t] has its query line and no
    outcome, the loop ends there with [e], and the worker runs
    [cleanup_driver] from there and nothing else (no later query is
    started); it ends by raising, [e] itself unless the clean-up raised. *)
Theorem worker_ends_at_first_exception {H} (hst : Host H)
    worker_id pre t post d e (w w1 w2 w3 w4 : world H) :
  build_driver hst (Some (WorkerDir (worker_id + 1))) w = (Ok d, w1) →
  (sleep (250 * Z.of_nat worker_id)%Z;;
   force_nav hst SITE_URL;; grant_notifications hst) w1 = (Ok (), w2) →
  run_tasks hst (WorkerDir (worker_id + 1)) pre w2 = (Ok (), w3) →
  handle_query hst (WorkerDir (worker_id + 1)) t w3 = (Raise e, w4) →
  (∀ worker_dir t0 rest (u u' : world H),
     handle_query hst worker_dir t0 u = (Ok (), u') →
     run_tasks hst worker_dir (t0 :: rest) u = run_tasks hst worker_dir rest u'
     ∧ ∃ o, log u' = log u ++ LQuery t0.1 t0.2 :: o
            ∧ outcomes o = 1 ∧ started o = [])
  ∧ (∃ tr, log w3 = log w2 ++ tr ∧ started tr = pre
           ∧ outcomes tr = length pre)
  ∧ log w4 = log w3 ++ [LQuery t.1 t.2]
  ∧ run_tasks hst (WorkerDir (worker_id + 1)) (pre ++ t :: post) w2
    = (Raise e, w4)
  ∧ ∃ rc w' e' rest,
      cleanup_driver hst d w4 = (rc, w')
      ∧ process_worker hst worker_id (pre ++ t :: post) w = (Raise e', w')
      ∧ (rc = Ok () ∧ e' = e ∨ rc = Raise e')
      ∧ log w' = log w4 ++ EQuit :: rest
      ∧ (rest = [] ∨ rest = [ERmtree (_temp_user_data d)]).
Proof.
  intros Hb Hsetup Hpre Ht.
  assert (run_tasks hst (WorkerDir (worker_id + 1)) (pre ++ t :: post) w2
          = (Raise e, w4)) as Hloop.
  { rewrite run_tasks_app, Hpre. cbn [run_tasks].
    rewrite mbind_bind. unfold bind. by rewrite Ht. }
  split; [|split; [|split; [|split; [done|]]]].
  - intros worker_dir t0 rest u u' Hq. split.
    + cbn [run_tasks]. by rewrite (bind_ok _ _ _ _ _ Hq).
    + destruct (handle_query_spec hst worker_dir t0 u)
        as (r & u1 & tr & Hq' & _ & Hl & Hrun).
      rewrite Hq in Hq'. injection Hq' as <- <-.
      inversion Hrun; subst; eexists; (split; [exact Hl|]); by vm_compute.
  - destruct (run_tasks_spec hst (WorkerDir (worker_id + 1)) pre w2)
      as (r & u & tr & Hr & _ & Hl & Hrun).
    rewrite Hpre in Hr. injection Hr as <- <-.
    destruct (tasks_run_facts _ _ _ _ Hrun) as (_ & _ & Hok & _).
    destruct (Hok eq_refl) as [Hs Ho]. by exists tr.
  - destruct (handle_query_spec hst (WorkerDir (worker_id + 1)) t w3)
      as (r & u & tr & Hq & _ & Hl & Hrun).
    rewrite Ht in Hq. injection Hq as <- <-.
    by inversion Hrun; subst.
  - destruct (cleanup_driver_exact hst d w4)
      as (rc & w' & rest & Hc & Hfin & Hl & Hrest).
    assert (try_finally
              (sleep (250 * Z.of_nat worker_id)%Z;;
               match pre ++ t :: post with
               | [] => mret ()
               | _ :: _ => force_nav hst SITE_URL;; grant_notifications hst
               end;;
               run_tasks hst (WorkerDir (worker_id + 1)) (pre ++ t :: post))
              (cleanup_driver hst d) w1
            = (cleanup_driver hst d ≫= λ _, raise e) w4) as Hbody.
    { unfold try_finally.
      assert ((sleep (250 * Z.of_nat worker_id)%Z;;
               match pre ++ t :: post with
               | [] => mret ()
               | _ :: _ => force_nav hst SITE_URL;; grant_notifications hst
               end;;
               run_tasks hst (WorkerDir (worker_id + 1)) (pre ++ t :: post)) w1
              = (Raise e, w4)) as ->; [|by rewrite mbind_bind].
      revert Hsetup Hloop. generalize (pre ++ t :: post). intros tasks.
      rewrite !mbind_bind. unfold bind at 1 3, sleep. intros Hsetup Hloop.
      destruct tasks as [|t0 tasks].
      { cbn [run_tasks] in Hloop. by injection Hloop. }
      unfold bind at 1. by rewrite Hsetup. }
    unfold process_worker. cbv zeta.
    rewrite (bind_ok _ _ _ _ _ Hb), Hbody, mbind_bind. unfold bind.
    rewrite Hc.
    destruct rc as [[]|e'|]; [| |done].
    + exists (Ok ()), w', e, rest. repeat split; auto.
    + exists (Raise e'), w', e', rest. repeat split; auto.
Qed.

(** On a host where the result list never shows up, the first query of a
    worker raises: the worker quits its session, removes the profile and
    ends with that exception; the second query is never started. *)
Lemma worker_ends_at_first_exception_witness :
  let e := OtherException "TimeoutException" "" in
  let w := start no_results_script in
  process_worker scripted 0 [(0, "a"); (1, "b")] w
  = (Raise e,
     World 0 (Script no_files false true false 1)
       [EMkdtemp "chromium_profile_0";
        ELaunch "chromium_profile_0" (WorkerDir 1) None;
        ENavigate "direct" (inr true);
        LQuery 0 "a"; EQuit; ERmtree "chromium_profile_0"]).
Proof.
  intros e w.
  set (d := Driver "chromium_profile_0").
  set (r1 := build_driver scripted (Some (WorkerDir (0 + 1))) w).
  set (r2 := (sleep (250 * Z.of_nat 0)%Z;;
              force_nav scripted SITE_URL;; grant_notifications scripted) r1.2).
  set (r3 := run_tasks scripted (WorkerDir (0 + 1)) [] r2.2).
  set (r4 := handle_query scripted (WorkerDir (0 + 1)) (0, "a") r3.2).
  assert (r1 = (Ok d, r1.2)) as H1 by (vm_compute; reflexivity).
  assert (r2 = (Ok (), r2.2)) as H2 by (vm_compute; reflexivity).
  assert (r3 = (Ok (), r3.2)) as H3 by (vm_compute; reflexivity).
  assert (r4 = (Raise e, r4.2)) as H4 by (vm_compute; reflexivity).
  destruct (worker_ends_at_first_exception scripted 0 [] (0, "a") [(1, "b")]
              d e w r1.2 r2.2 r3.2 r4.2 H1 H2 H3 H4)
    as (_ & _ & _ & _ & rc & w' & e' & rest & Hc & Hp & Hrc & _).
  assert (cleanup_driver scripted d r4.2
          = (Ok (), World 0 (Script no_files false true false 1)
               [EMkdtemp "chromium_profile_0";
                ELaunch "chromium_profile_0" (WorkerDir 1) None;
                ENavigate "direct" (inr true);
                LQuery 0 "a"; EQuit; ERmtree "chromium_profile_0"])) as Hc'
    by (vm_compute; reflexivity).
  rewrite Hc' in Hc. injection Hc as <- <-.
  destruct Hrc as [[_ ->]|Hrc]; [exact Hp|discriminate Hrc].
Defined.

(** C1 (as stated) fails: with two queries on a host where the result list
    never shows up, the worker raises out of the first query; no outcome is
    recorded for it and the second query is never started. *)
Lemma worker_aborted_by_query_exception :
  let r := process_worker scripted 0 [(0, "a"); (1, "b")]
             (start no_results_script) in
  r.1 = Raise (OtherException "TimeoutException" "")
  ∧ started (log r.2) = [(0, "a")]
  ∧ outcomes (log r.2) = 0.
Proof. by vm_compute. Qed.

(** ** C9: a completed file that cannot be moved *)

(** C9. When the move of a completed file to [DOWNLOADS] raises while a
    query is handled, the handling still returns: the log of the query is
    the query line, the failed move and the line [Downloaded] with the path
    the file had in the worker's folder, which is where the watcher found
    it; nothing else is done to the file and no exception reaches the
    caller. *)
Theorem move_failure_reports_worker_path {H} (hst : Host H)
    worker_dir t (w w' : world H) r tr src dst e :
  handle_query hst worker_dir t w = (r, w') →
  log w' = log w ++ tr →
  EMove src dst (Some e) ∈ tr →
  r = Ok ()
  ∧ tr = [LQuery t.1 t.2; EMove src dst (Some e); LDownloaded t.1 src]
  ∧ parent src = worker_dir
  ∧ parent dst = Downloads.
Proof.
  intros Hq Hl Hin.
  destruct (handle_query_spec hst worker_dir t w)
    as (r1 & w1 & tr1 & Hq1 & _ & Hl1 & Hrun).
  rewrite Hq in Hq1. injection Hq1 as <- <-.
  rewrite Hl in Hl1. apply app_inv_head in Hl1 as <-.
  inversion Hrun as [e0| | |src0 free Hsrc|src0 free e0 Hsrc]; subst;
    repeat match goal with
           | Hx : _ ∈ _ :: _ |- _ => apply elem_of_cons in Hx as [Hx|Hx]
           | Hx : _ ∈ [] |- _ => by apply elem_of_nil in Hx
           end; simplify_eq.
  done.
Qed.

(** A worker whose download completes while [shutil.move] fails. *)
Lemma move_failure_reports_worker_path_witness :
  let w := start (move_fails_script (WorkerDir 1)) in
  let src := Path (WorkerDir 1) "song.mp3" in
  let dst := Path Downloads "song (1).mp3" in
  let e := OtherException "OSError" "cannot move" in
  let tr := [LQuery 0 "a"; EMove src dst (Some e); LDownloaded 0 src] in
  let r := handle_query scripted (WorkerDir 1) (0, "a") w in
  r = (r.1, r.2)
  ∧ log r.2 = log w ++ tr
  ∧ EMove src dst (Some e) ∈ tr
  ∧ r.1 = Ok ()
  ∧ parent src = WorkerDir 1.
Proof.
  intros w src dst e tr r.
  assert (log r.2 = log w ++ tr) as Hl by (vm_compute; reflexivity).
  assert (r = (r.1, r.2)) as Hr by (destruct r; reflexivity).
  assert (EMove src dst (Some e) ∈ tr) as Hin by (right; left).
  destruct (move_failure_reports_worker_path scripted (WorkerDir 1) (0, "a")
              w r.2 r.1 tr src dst e Hr Hl Hin) as (Hok & _ & Hsrc & _).
  exact (conj Hr (conj Hl (conj Hin (conj Hok Hsrc)))).
Defined.

(** ** C5: session retries and worker isolation *)

Lemma run_eq {H} (hst : Host H) n rows t0 hosts :
  0 < n → read_queries rows ≠ [] →
  run hst n rows t0 hosts =
  let results :=
    run_worker hst t0 hosts <$> submitted (make_buckets n (read_queries rows)) in
  Report (Ok ())
    (LTotal (length (read_queries rows)) n :: (results ≫= worker_error) ++ [LDone])
    results.
Proof.
  intros Hn Hq. unfold run. destruct (read_queries rows) as [|q qs] eqn:Hqs; [done|].
  destruct (Nat.eqb_spec n 0) as [->|_]; [lia|].
  cbv zeta. rewrite (proj2 (forallb_forall _ _)); [done|].
  intros [[wid tasks] res] Hin%list_elem_of_In.
  apply list_elem_of_fmap in Hin as ([wid' tasks'] & Heq & _).
  unfold run_worker in Heq. simplify_eq/=.
  destruct (process_worker_spec hst wid' tasks' (World t0 (hosts wid') []))
    as (r & w' & ? & ? & ? & -> & _ & _ & _ & _ & Hfin & _).
  unfold worker_finished. simpl. by destruct r.
Qed.

Section launch_retries.
Context {H : Type} (hst : Host H).

Hypothesis mkdir_works : ∀ d t h, ans (mkdir hst d t h) = inr ().
Hypothesis mkdtemp_works : ∀ t h, ∃ p, ans (mkdtemp hst t h) = inr p.

(** One round of the retry loop, when the profile directory can be made:
    the old profile is removed if it is there, a new one is made, and the
    browser is launched in it. *)
Lemma build_driver_attempt_launches base user_data (w : world H) :
  ∃ rm fresh err w',
    build_driver_attempt hst base user_data w
    = (match err with
       | None => Ok (inl (Driver fresh))
       | Some e => if is_session_not_created e
                   then Ok (inr (Some fresh, Some e))
                   else Raise e
       end, w')
    ∧ log w' = log w ++ rm ++ [EMkdtemp fresh; ELaunch fresh base err]
    ∧ removal rm.
Proof.
  pose proof removal_nil. pose proof removal_one.
  cbv [build_driver_attempt try_except attempt mbind M_bind bind ask call
       emit mret M_ret ret raise sleep any_exception error_of].
  destruct user_data as [old|]; cbn [log now host];
    repeat (first
      [ match goal with
        | |- context [match ans (mkdtemp hst ?t ?h) with _ => _ end] =>
            let Hp := fresh "Hp" in
            destruct (mkdtemp_works t h) as [?p Hp]; rewrite Hp
        | |- context [match ans ?a with _ => _ end] => destruct (ans a) eqn:?
        | |- context [if ans ?a then _ else _] => destruct (ans a) eqn:?
        | |- context [if is_session_not_created ?e then _ else _] =>
            destruct (is_session_not_created e) eqn:?
        end
      | progress cbn [log now host] ]);
    try discriminate;
    first
      [ solve [ eexists [], _, None, _; split; [reflexivity|];
                cbn [log]; split; [rewrite <- ?app_assoc; reflexivity|auto] ]
      | solve [ eexists [ERmtree _], _, None, _; split; [reflexivity|];
                cbn [log]; split; [rewrite <- ?app_assoc; reflexivity|auto] ]
      | match goal with
        | Hs : is_session_not_created ?e = _ |- _ =>
            first
              [ solve [ eexists [], _, (Some e), _; rewrite Hs;
                        split; [reflexivity|]; cbn [log];
                        split; [rewrite <- ?app_assoc; reflexivity|auto] ]
              | solve [ eexists [ERmtree _], _, (Some e), _; rewrite Hs;
                        split; [reflexivity|]; cbn [log];
                        split; [rewrite <- ?app_assoc; reflexivity|auto] ] ]
        end ].
Qed.

Lemma launch_attempts_app tr1 tr2 :
  launch_attempts (tr1 ++ tr2) = launch_attempts tr1 ++ launch_attempts tr2.
Proof. unfold launch_attempts. apply omap_app. Qed.

Lemma launch_attempts_removal rm : removal rm → launch_attempts rm = [].
Proof. by intros [->|[old ->]]. Qed.

Lemma launches_into_app base tr1 tr2 :
  launches_into base tr1 → launches_into base tr2 →
  launches_into base (tr1 ++ tr2).
Proof.
  intros H1 H2 p d err [?|?]%elem_of_app; [by eapply H1|by eapply H2].
Qed.

Lemma build_driver_loop_launches n base user_data last_err (w : world H) :
  ∃ r w' tr,
    build_driver_loop hst n base user_data last_err w = (r, w')
    ∧ log w' = log w ++ tr
    ∧ launches_into base tr
    ∧ length (launch_attempts tr) ≤ n
    ∧ (∀ i a, launch_attempts tr !! i = Some a →
              S i < length (launch_attempts tr) →
              ∃ e, a.2 = Some e ∧ is_session_not_created e = true)
    ∧ match last (launch_attempts tr) with
      | Some (p, None) => r = Ok (Driver p)
      | Some (p, Some e) =>
          r = Raise e
          ∧ (is_session_not_created e = true → length (launch_attempts tr) = n)
      | None =>
          n = 0
          ∧ r = Raise (default
                         (RuntimeError
                            "Failed to create Chrome session after retries")
                         last_err)
      end.
Proof.
  revert user_data last_err w.
  induction n as [|n IH]; intros user_data last_err w.
  - eexists _, w, []. split; [reflexivity|]. split; [by rewrite app_nil_r|].
    split; [by intros p d err Hin%elem_of_nil|].
    split; [done|]. split; [by intros i a Hi|]. done.
  - cbn [build_driver_loop]. rewrite mbind_bind. unfold bind.
    destruct (build_driver_attempt_launches base user_data w)
      as (rm & fresh & err & w1 & -> & Hl1 & Hrm).
    set (tr1 := rm ++ [EMkdtemp fresh; ELaunch fresh base err]) in *.
    assert (launch_attempts tr1 = [(fresh, err)]) as Hla1.
    { subst tr1. by rewrite launch_attempts_app, launch_attempts_removal. }
    assert (launches_into base tr1) as Hinto1.
    { subst tr1. intros p d e0 [Hin|Hin]%elem_of_app.
      - destruct Hrm as [->|[old ->]]; [by apply elem_of_nil in Hin|].
        by apply list_elem_of_singleton in Hin.
      - apply elem_of_cons in Hin as [?|Hin]; [done|].
        apply list_elem_of_singleton in Hin. by injection Hin. }
    destruct err as [e|].
    + destruct (is_session_not_created e) eqn:He.
      * destruct (IH (Some fresh) (Some e) w1)
          as (r & w' & tr2 & -> & Hl & Hinto & Hlen & Hall & Hlast).
        exists r, w', (tr1 ++ tr2). split; [done|].
        split; [by rewrite Hl, Hl1, app_assoc|].
        split; [by apply launches_into_app|].
        rewrite launch_attempts_app, Hla1. cbn [app length].
        split; [lia|]. split.
        { intros [|i] a Hi Hlt; cbn in Hi.
          - injection Hi as <-. eauto.
          - apply (Hall i a Hi). lia. }
        destruct (launch_attempts tr2) as [|a2 la2] eqn:Hla2.
        -- cbn. destruct Hlast as [-> ->]. by split.
        -- rewrite last_cons. destruct (last (a2 :: la2)) as [[p [e2|]]|] eqn:Hlast2.
           ++ destruct Hlast as [-> Hn]. split; [done|].
              intros He2. rewrite <- (Hn He2). done.
           ++ done.
           ++ by apply last_None in Hlast2.
      * exists (Raise e), w1, tr1. split; [done|]. split; [done|].
        split; [done|]. rewrite Hla1. cbn.
        split; [lia|]. split; [intros [|i] a Hi Hlt; cbn in *; lia|].
        split; [done|]. congruence.
    + exists (Ok (Driver fresh)), w1, tr1. split; [done|]. split; [done|].
      split; [done|]. rewrite Hla1. cbn.
      split; [lia|]. split; [intros [|i] a Hi Hlt; cbn in *; lia|]. done.
Qed.

Lemma build_driver_launches download_dir (w : world H) :
  ∃ r w' tr,
    build_driver hst download_dir w = (r, w')
    ∧ log w' = log w ++ tr
    ∧ launches_fresh tr
    ∧ launches_into (default Downloads download_dir) tr
    ∧ 1 ≤ length (launch_attempts tr) ≤ 3
    ∧ (∀ i a, launch_attempts tr !! i = Some a →
              S i < length (launch_attempts tr) →
              ∃ e, a.2 = Some e ∧ is_session_not_created e = true)
    ∧ match last (launch_attempts tr) with
      | Some (p, None) => r = Ok (Driver p)
      | Some (p, Some e) =>
          r = Raise e
          ∧ (is_session_not_created e = true → length (launch_attempts tr) = 3)
      | None => False
      end.
Proof.
  destruct (build_driver_spec hst download_dir w)
    as (r0 & w0 & tr0 & Hb0 & _ & Hl0 & Hshape).
  assert (∃ w2, log w2 = log w
                ∧ build_driver hst download_dir w
                  = build_driver_loop hst 3 (default Downloads download_dir)
                      None None w2) as (w2 & Hl2 & Heq).
  { unfold build_driver. cbv zeta. rewrite !mbind_bind. unfold bind, call.
    rewrite !mkdir_works. eexists. split; [|reflexivity]. done. }
  rewrite Heq in Hb0 |- *.
  destruct (build_driver_loop_launches 3 (default Downloads download_dir)
              None None w2)
    as (r & w' & tr & Hb & Hl & Hinto & Hlen & Hall & Hlast).
  rewrite Hb in Hb0. injection Hb0 as <- <-.
  assert (tr0 = tr) as ->.
  { rewrite Hl, Hl2 in Hl0. by apply app_inv_head in Hl0. }
  exists r, w', tr. split; [done|]. split; [by rewrite Hl, Hl2|].
  split.
  { destruct Hshape as [[-> _]|Hs]; [by intros i ????|].
    by destruct (session_run_facts _ _ _ _ _ Hs) as (_ & ? & _). }
  split; [done|].
  destruct (launch_attempts tr) as [|a la] eqn:Hla.
  { cbn in Hlast. by destruct Hlast. }
  split; [cbn in *; lia|]. split; [done|].
  destruct (last (a :: la)) as [[p [e|]]|]; try done.
  by destruct Hlast.
Qed.
End launch_retries.

(** C5. On a host on which the folders can be made ([mkdir] and [mkdtemp]
    do not raise): [build_driver] launches the browser at least once and at
    most three times, each time into the download folder it was given and
    in a profile directory that [mkdtemp] has made directly before; every
    launch but the last raised a [SessionNotCreatedException]; when the last
    launch worked, the driver of that launch is returned, and when it
    raised, its exception is raised, after three launches if it is a
    [SessionNotCreatedException]. A worker whose [build_driver] raises ends
    with that exception, from the same world, having started no query and
    printed no outcome. In a run, that exception is printed as a worker
    error, the run ends normally with its closing line, and every other
    submitted worker runs on its own tasks and comes to an end; one that
    returns has started all its tasks and printed one outcome for each. *)
Theorem session_retries_and_isolation {H} (hst : Host H) :
  (∀ d t h, ans (mkdir hst d t h) = inr ()) →
  (∀ t h, ∃ p, ans (mkdtemp hst t h) = inr p) →
  (∀ download_dir (w : world H),
     ∃ r w' tr,
       build_driver hst download_dir w = (r, w')
       ∧ log w' = log w ++ tr
       ∧ launches_fresh tr
       ∧ launches_into (default Downloads download_dir) tr
       ∧ 1 ≤ length (launch_attempts tr) ≤ 3
       ∧ (∀ i a, launch_attempts tr !! i = Some a →
                 S i < length (launch_attempts tr) →
                 ∃ e, a.2 = Some e ∧ is_session_not_created e = true)
       ∧ match last (launch_attempts tr) with
         | Some (p, None) => r = Ok (Driver p)
         | Some (p, Some e) =>
             r = Raise e
             ∧ (is_session_not_created e = true →
                length (launch_attempts tr) = 3)
         | None => False
         end)
  ∧ (∀ worker_id tasks (w w1 : world H) e,
       build_driver hst (Some (WorkerDir (worker_id + 1))) w = (Raise e, w1) →
       process_worker hst worker_id tasks w = (Raise e, w1)
       ∧ ∃ tr, log w1 = log w ++ tr ∧ started tr = [] ∧ outcomes tr = 0)
  ∧ (∀ n rows t0 hosts wid tasks e w1,
       0 < n →
       (wid, tasks) ∈ submitted (make_buckets n (read_queries rows)) →
       build_driver hst (Some (WorkerDir (wid + 1))) (World t0 (hosts wid) [])
       = (Raise e, w1) →
       run_outcome (run hst n rows t0 hosts) = Ok ()
       ∧ last (main_log (run hst n rows t0 hosts)) = Some LDone
       ∧ LWorkerError e ∈ main_log (run hst n rows t0 hosts)
       ∧ (wid, tasks, (Raise e, w1)) ∈ workers (run hst n rows t0 hosts)
       ∧ started (log w1) = [] ∧ outcomes (log w1) = 0
       ∧ ∀ wid' tasks',
           (wid', tasks') ∈ submitted (make_buckets n (read_queries rows)) →
           ∃ r' w',
             process_worker hst wid' tasks' (World t0 (hosts wid') [])
             = (r', w')
             ∧ (wid', tasks', (r', w')) ∈ workers (run hst n rows t0 hosts)
             ∧ r' ≠ Unfinished
             ∧ (r' = Ok () →
                started (log w') = tasks' ∧ outcomes (log w') = length tasks')).
Proof.
  intros Hmkdir Hmkdtemp. split; [|split].
  - intros download_dir w. by apply build_driver_launches.
  - intros worker_id tasks w w1 e Hb. split.
    + by apply process_worker_no_session.
    + destruct (build_driver_spec hst (Some (WorkerDir (worker_id + 1))) w)
        as (r & w' & tr & Hb' & _ & Hl & Hshape).
      rewrite Hb in Hb'. injection Hb' as <- <-.
      exists tr. split; [done|].
      assert (Forall housekeeping tr) as Hh.
      { destruct Hshape as [[-> _]|Hs]; [done|].
        by destruct (session_run_facts _ _ _ _ _ Hs) as (?&_). }
      split; [by apply housekeeping_started|by apply housekeeping_outcomes].
  - intros n rows t0 hosts wid tasks e w1 Hn Hin Hb.
    assert (read_queries rows ≠ []) as Hq.
    { apply elem_of_submitted in Hin as [Hbk Hne].
      apply (bucket_nonempty _ _ _ _ Hbk) in Hne.
      destruct (read_queries rows); [simpl in Hne; lia|done]. }
    rewrite run_eq by done. cbv zeta. cbn [run_outcome main_log workers].
    pose proof (process_worker_no_session hst wid tasks _ _ _ Hb) as Hp.
    assert ((wid, tasks, (Raise e, w1))
            ∈ run_worker hst t0 hosts
              <$> submitted (make_buckets n (read_queries rows))) as Hres.
    { apply list_elem_of_fmap. exists (wid, tasks). split; [|done].
      unfold run_worker. cbn [fst snd]. by rewrite Hp. }
    split; [done|]. split; [rewrite app_comm_cons; apply last_snoc|].
    split.
    { apply elem_of_cons. right. apply elem_of_app. left.
      apply list_elem_of_bind. eexists. split; [|exact Hres].
      unfold worker_error. cbn. by left. }
    split; [done|].
    destruct (build_driver_spec hst (Some (WorkerDir (wid + 1)))
                (World t0 (hosts wid) []))
      as (r & w' & tr & Hb' & _ & Hl & Hshape).
    rewrite Hb in Hb'. injection Hb' as <- <-. cbn in Hl. rewrite Hl.
    assert (Forall housekeeping tr) as Hh.
    { destruct Hshape as [[-> _]|Hs]; [done|].
      by destruct (session_run_facts _ _ _ _ _ Hs) as (?&_). }
    split; [by apply housekeeping_started|].
    split; [by apply housekeeping_outcomes|].
    intros wid' tasks' Hin'.
    destruct (process_worker_log hst wid' tasks' (World t0 (hosts wid') []))
      as (r' & w' & tr' & Hp' & Hl' & Hfin & _ & _ & Hok & _).
    exists r', w'. split; [done|]. split.
    { apply list_elem_of_fmap. exists (wid', tasks'). split; [|done].
      unfold run_worker. cbn [fst snd]. by rewrite Hp'. }
    split; [done|]. cbn in Hl'. by rewrite Hl'.
Qed.

(** Two workers, the second of which cannot launch its browser: it tries
    three times, in three profile directories, and its exception is printed
    by the run, which goes on to its end. *)
Lemma session_retries_and_isolation_witness :
  let rep := run scripted 2 (track_rows 7) 0 (one_broken 1) in
  let w := World 0 no_browser_script [] in
  let e := SessionNotCreatedException "user data directory is already in use" in
  let tasks := [(1, "q1"); (3, "q3"); (5, "q5")] in
  (∃ w' tr,
     build_driver scripted (Some (WorkerDir (1 + 1))) w = (Raise e, w')
     ∧ log w' = tr
     ∧ launch_attempts tr
       = [("chromium_profile_0", Some e); ("chromium_profile_1", Some e);
          ("chromium_profile_2", Some e)]
     ∧ launches_fresh tr)
  ∧ (process_worker scripted 1 tasks w).1 = Raise e
  ∧ run_outcome rep = Ok ()
  ∧ last (main_log rep) = Some LDone
  ∧ LWorkerError e ∈ main_log rep.
Proof.
  intros rep w e tasks.
  destruct (session_retries_and_isolation scripted
              (λ _ _ _, eq_refl) (λ _ _, ex_intro _ _ eq_refl))
    as (Hbuild & Hworker & Hrun).
  destruct (Hbuild (Some (WorkerDir (1 + 1))) w)
    as (r & w' & tr & Hb & Hl & Hfresh & _).
  assert ((build_driver scripted (Some (WorkerDir (1 + 1))) w).1 = Raise e)
    as Hr by (vm_compute; reflexivity).
  rewrite Hb in Hr. cbn in Hr. subst r.
  assert (launch_attempts (log (build_driver scripted
                                  (Some (WorkerDir (1 + 1))) w).2)
          = [("chromium_profile_0", Some e); ("chromium_profile_1", Some e);
             ("chromium_profile_2", Some e)]) as Hla
    by (vm_compute; reflexivity).
  rewrite Hb in Hla. cbn [snd] in Hla. cbn in Hl.
  assert ((1, tasks) ∈ submitted (make_buckets 2 (read_queries (track_rows 7))))
    as Hin.
  { apply elem_of_submitted. clear. split; [vm_compute; reflexivity|].
    subst tasks. discriminate. }
  destruct (Hrun 2 (track_rows 7) 0%Z (one_broken 1) 1 tasks e w'
              ltac:(lia) Hin Hb) as (Hout & Hdone & Herr & _).
  destruct (Hworker 1 tasks w w' e Hb) as [Hp _].
  split.
  { exists w', tr. split; [done|]. split; [done|]. rewrite <- Hl.
    split; [done|]. by rewrite Hl. }
  split; [by rewrite Hp|]. by repeat split.
Defined.

(** ** C3: what a run reports *)

Lemma submitted_total_with (bs : list (list task))
    (f : nat → list task → nat * list task) :
  (∀ i b, (f i b).2 = b) →
  sum_list_with (λ wt : nat * list task, length wt.2)
    (filter (λ wt : nat * list task, wt.2 ≠ []) (imap f bs))
  = length (concat bs).
Proof.
  revert f. induction bs as [|b bs IH]; intros f Hf; [done|].
  rewrite imap_cons, filter_cons. simpl concat. rewrite length_app.
  rewrite <- (IH (f ∘ S)) by (intros; apply Hf).
  destruct (decide ((f 0 b).2 ≠ [])) as [Hne|Heq].
  - simpl. by rewrite Hf.
  - rewrite Hf in Heq. destruct b; [done|]. by destruct Heq.
Qed.

Lemma submitted_total n queries :
  0 < n →
  sum_list_with (λ wt : nat * list task, length wt.2)
    (submitted (make_buckets n queries))
  = length queries.
Proof.
  intros Hn. unfold submitted, enumerate.
  rewrite submitted_total_with by done.
  rewrite make_buckets_classes, concat_classes_perm by done.
  unfold enumerate. apply length_imap.
Qed.

Lemma worker_outcomes_bound {H} (hst : Host H) wid tasks t0 h :
  outcomes (log (process_worker hst wid tasks (World t0 h [])).2) ≤ length tasks
  ∧ ((process_worker hst wid tasks (World t0 h [])).1 = Ok () →
     outcomes (log (process_worker hst wid tasks (World t0 h [])).2) = length tasks).
Proof.
  destruct (process_worker_log hst wid tasks (World t0 h []))
    as (r & w' & tr & -> & Hl & Hfin & Hprefix & Hout & Hok & _).
  simpl in *. subst. split.
  - apply prefix_length in Hprefix. lia.
  - intros ->. by apply Hok.
Qed.

Lemma tally_outcomes {H} (rep : report (H:=H)) :
  downloaded rep + failed rep + skipped rep
  = sum_list_with (λ r : nat * list task * (outcome unit * world H),
                     outcomes (log r.2.2)) (workers rep).
Proof.
  unfold downloaded, failed, skipped, tally.
  induction (workers rep) as [|r rs IH]; [done|].
  simpl. unfold outcomes at 1. lia.
Qed.

(** C3 (as amended). [run] keeps no counts; the outcome lines printed by the
    workers (downloaded, failed, skipped) number at most the queries of the
    input, and exactly as many when every worker returns. For a non-empty
    input the run ends normally and its last line is the closing line,
    whatever the workers raise; for an empty input the only line says that
    there are no queries. *)
Theorem run_reports_at_most_all_queries {H} (hst : Host H) n rows t0 hosts :
  0 < n →
  downloaded (run hst n rows t0 hosts) + failed (run hst n rows t0 hosts)
    + skipped (run hst n rows t0 hosts) ≤ length (read_queries rows)
  ∧ (Forall (λ r, r.2.1 = Ok ()) (workers (run hst n rows t0 hosts)) →
     downloaded (run hst n rows t0 hosts) + failed (run hst n rows t0 hosts)
       + skipped (run hst n rows t0 hosts) = length (read_queries rows))
  ∧ run_outcome (run hst n rows t0 hosts) = Ok ()
  ∧ (read_queries rows ≠ [] →
     last (main_log (run hst n rows t0 hosts)) = Some LDone)
  ∧ (read_queries rows = [] → main_log (run hst n rows t0 hosts) = [LNoQueries]).
Proof.
  intros Hn. rewrite tally_outcomes.
  destruct (decide (read_queries rows = [])) as [Hq|Hq].
  { unfold run. rewrite Hq. simpl. repeat split; try done; lia. }
  rewrite run_eq by done. cbv zeta. simpl workers. simpl run_outcome.
  simpl main_log.
  rewrite <- (submitted_total n (read_queries rows)) by done.
  generalize (submitted (make_buckets n (read_queries rows))). intros l.
  split; [|split; [|split; [done|split; [|done]]]].
  - induction l as [|[wid tasks] l IH]; [done|].
    rewrite fmap_cons. simpl.
    pose proof (worker_outcomes_bound hst wid tasks t0 (hosts wid)). lia.
  - induction l as [|[wid tasks] l IH]; [done|].
    rewrite fmap_cons. intros [Hok Hall]%Forall_cons. simpl in *.
    rewrite (IH Hall).
    by rewrite (proj2 (worker_outcomes_bound hst wid tasks t0 (hosts wid)) Hok).
  - intros _. rewrite app_comm_cons. apply last_snoc.
Qed.

(** Seven queries at concurrency two on a host where every download times
    out: seven outcome lines. *)
Lemma run_reports_at_most_all_queries_witness :
  let rep := run scripted 2 (track_rows 7) 0 (λ _, idle_script) in
  0 < 2
  ∧ length (read_queries (track_rows 7)) = 7
  ∧ downloaded rep + failed rep + skipped rep ≤ 7
  ∧ run_outcome rep = Ok ().
Proof.
  intros rep.
  destruct (run_reports_at_most_all_queries scripted 2 (track_rows 7) 0%Z
              (λ _, idle_script)) as (Hle & _ & Hout & _); [lia|].
  split; [lia|]. split; [by vm_compute|]. split; [|done].
  by replace 7 with (length (read_queries (track_rows 7))) by (by vm_compute).
Defined.

(** C3 (as stated) fails: seven queries at concurrency two on a host where
    the result list never shows up. Both workers raise out of their first
    query, the run prints its closing line, and the outcome lines sum to
    zero, not to seven. *)
Lemma run_counts_fall_short :
  let rep := run scripted 2 (track_rows 7) 0 (λ _, no_results_script) in
  length (read_queries (track_rows 7)) = 7
  ∧ last (main_log rep) = Some LDone
  ∧ downloaded rep + failed rep + skipped rep = 0
  ∧ downloaded rep + failed rep + skipped rep ≠ length (read_queries (track_rows 7)).
Proof. by vm_compute. Qed.

(** ** C4: the watcher on a scripted directory *)

Lemma world_same {H} (w : world H) :
  World (now w + Z.of_N 0) (host w) (log w) = w.
Proof. destruct w. simpl. f_equal. lia. Qed.

Lemma ask_instant {H A} (c : hask H A) (w : world H) a :
  c (now w) (host w) = Answer a (host w) 0%N → ask c w = (Ok a, w).
Proof. intros Hc. unfold ask. rewrite Hc. simpl. by rewrite world_same. Qed.

Lemma call_instant {H A} (c : hcall H A) (w : world H) r :
  c (now w) (host w) = Answer r (host w) 0%N →
  call c w = (match r with inl e => Raise e | inr a => Ok a end, w).
Proof.
  intros Hc. unfold call. rewrite Hc. simpl. rewrite world_same.
  by destruct r.
Qed.

Lemma sleep_eq {H} (w : world H) ms :
  (0 ≤ ms)%Z → sleep ms w = (Ok (), World (now w + ms) (host w) (log w)).
Proof. intros. unfold sleep. by rewrite Z.max_r. Qed.

Lemma lookup_entry_Some n (l : list entry) e :
  lookup_entry n l = Some e → e ∈ l ∧ e.1.1 = n.
Proof.
  unfold lookup_entry. intros Hl.
  destruct (list_find (λ e : entry, e.1.1 = n) l) as [[i e']|] eqn:Hf;
    simplify_eq/=.
  apply list_find_Some in Hf as (Hi & Hn & _).
  split; [|done]. by eapply list_elem_of_lookup_2.
Qed.

Lemma scripted_try_stat (h : script) d n (w : world script) :
  host w = h →
  try_except is_file_not_found
    (mtime ← call (stat_mtime scripted (Path d n)); mret (Some mtime))
    (λ _, mret None) w
  = (Ok ((λ e : entry, e.1.2) <$> lookup_entry n (files_at h (now w) d)), w).
Proof.
  intros Hh. unfold try_except. rewrite mbind_bind. unfold bind.
  rewrite (call_instant _ w
             (match lookup_entry n (files_at h (now w) d) with
              | Some e => inr e.1.2
              | None => inl (FileNotFoundError n)
              end)).
  - by destruct (lookup_entry n (files_at h (now w) d)).
  - simpl. by rewrite Hh.
Qed.

Section watcher_on_a_trace.
Variables (h : script) (d : dir) (ts t1 t2 deadline : Z) (c : string).

Let final : string :=
  str_take (String.length c - String.length ".crdownload") c.
Let names (t : Z) : list string := (λ e : entry, e.1.1) <$> files_at h t d.

Hypothesis d_not_cache : d ≠ CacheRoot.
Hypothesis c_partial : is_crdownload c = true.
(** Before [t1] the partial files of the directory are older than [ts]. *)
Hypothesis before : ∀ t (e : entry), (t < t1)%Z →
  e ∈ files_at h t d → is_crdownload e.1.1 = true → (e.1.2 < ts)%Z.
(** From [t1] to [t2] the partial file [c] is there, not older than [ts],
    and every other partial file is older than [ts] or than [c]. *)
Hypothesis during : ∀ t, (t1 ≤ t < t2)%Z →
  ∃ ec, lookup_entry c (files_at h t d) = Some ec ∧ (ts ≤ ec.1.2)%Z
        ∧ ∀ e : entry, e ∈ files_at h t d → is_crdownload e.1.1 = true →
            e.1.1 ≠ c → (e.1.2 < ts ∨ e.1.2 < ec.1.2)%Z.
Hypothesis after : ∀ t, (t2 ≤ t)%Z →
  lookup_entry c (files_at h t d) = None
  ∧ ∃ e, lookup_entry final (files_at h t d) = Some e ∧ e.2 = true.
Hypothesis long_enough : (t1 + 200 ≤ t2)%Z.
Hypothesis early_enough : (t2 + 300 ≤ deadline)%Z.

Lemma listdir_scripted (w : world script) :
  host w = h → ask (listdir scripted d) w = (Ok (names (now w)), w).
Proof. intros Hh. apply ask_instant. simpl. by rewrite Hh. Qed.

Lemma exists_scripted n (w : world script) :
  host w = h →
  ask (path_exists scripted (Path d n)) w
  = (Ok (bool_decide (is_Some (lookup_entry n (files_at h (now w) d)))), w).
Proof.
  intros Hh. apply ask_instant. simpl. rewrite Hh. by destruct d.
Qed.

(** Before [t1] the scan of phase 1 keeps nothing. *)
Lemma scan_latest_stale l latest (w : world script) :
  host w = h → (now w < t1)%Z →
  Forall (λ n, is_crdownload n = true) l →
  scan_latest scripted d ts l latest w = (Ok latest, w).
Proof.
  intros Hh Ht. induction 1 as [|n l Hn _ IH]; [done|].
  cbn [scan_latest]. rewrite (bind_ok _ _ _ _ _ (scripted_try_stat h d n w Hh)).
  destruct (lookup_entry n (files_at h (now w) d)) as [e|] eqn:He;
    simpl; [|done].
  destruct (lookup_entry_Some _ _ _ He) as [Hin Hname].
  rewrite <- Hname in Hn. pose proof (before _ _ Ht Hin Hn).
  by destruct (Z.leb_spec ts e.1.2); [lia|].
Qed.

(** From [t1] to [t2] the scan of phase 1 ends with [c], the most recently
    modified of the partial files that are not older than [ts]. *)
Lemma scan_latest_picks l latest ec (w : world script) :
  host w = h → (t1 ≤ now w < t2)%Z →
  lookup_entry c (files_at h (now w) d) = Some ec →
  Forall (λ n, is_crdownload n = true) l →
  (latest = None ∨ (∃ n m, latest = Some (n, m) ∧ (m < ec.1.2)%Z)
   ∨ latest = Some (c, ec.1.2)) →
  (c ∈ l ∨ latest = Some (c, ec.1.2)) →
  scan_latest scripted d ts l latest w = (Ok (Some (c, ec.1.2)), w).
Proof.
  intros Hh Ht Hc Hl. revert latest.
  destruct (during _ Ht) as (ec' & Hc' & Hts & Hothers).
  rewrite Hc in Hc'. injection Hc' as <-.
  induction Hl as [|n l Hn _ IH]; intros latest Hlatest Hin.
  { destruct Hin as [Hin| ->]; [by apply elem_of_nil in Hin|done]. }
  cbn [scan_latest]. rewrite (bind_ok _ _ _ _ _ (scripted_try_stat h d n w Hh)).
  destruct (decide (n = c)) as [->|Hne].
  - rewrite Hc. simpl. destruct (Z.leb_spec ts ec.1.2); [|lia].
    destruct Hlatest as [->|[(n' & m' & -> & Hm)| ->]].
    + apply IH; auto.
    + destruct (Z.ltb_spec m' ec.1.2); [|lia]. apply IH; auto.
    + destruct (Z.ltb_spec ec.1.2 ec.1.2); [lia|]. apply IH; auto.
  - assert (c ∈ l ∨ latest = Some (c, ec.1.2)) as Hin'.
    { destruct Hin as [Hin|?]; [left|by right].
      apply elem_of_cons in Hin as [?|?]; [congruence|done]. }
    destruct (lookup_entry n (files_at h (now w) d)) as [e|] eqn:He;
      simpl; [|by apply IH].
    destruct (lookup_entry_Some _ _ _ He) as [Hine Hname].
    destruct (Z.leb_spec ts e.1.2) as [Hle|Hlt]; [|by apply IH].
    assert (e.1.2 < ec.1.2)%Z as Hless.
    { destruct (Hothers e Hine) as [?|?]; [by rewrite Hname|congruence|lia|done]. }
    destruct Hlatest as [->|[(n' & m' & -> & Hm)| ->]].
    + apply IH; [right; left; eauto|].
      destruct Hin' as [?|?]; [by left|done].
    + assert (c ∈ l) as Hcl by (destruct Hin' as [?|[= _ ?]]; [done|lia]).
      destruct (Z.ltb_spec m' e.1.2); apply IH; auto; right; left; eauto.
    + destruct (Z.ltb_spec ec.1.2 e.1.2); [lia|]. apply IH; auto.
Qed.

Lemma partial_names t : Forall (λ n, is_crdownload n = true)
                          (filter is_crdownload (names t)).
Proof.
  apply Forall_forall. intros n [Hn _]%list_elem_of_filter.
  by apply Is_true_true.
Qed.

Lemma phase1_finds fuel (w : world script) :
  host w = h → (now w < t2)%Z →
  rounds (now w) deadline 200 ≤ fuel →
  ∃ t, phase1 scripted fuel d ts deadline w
       = (Ok (Some c), World t h (log w))
       ∧ (t1 ≤ t < t2)%Z ∧ (now w ≤ t)%Z.
Proof.
  revert w. induction fuel as [|fuel IH]; intros w Hh Ht Hf.
  { unfold rounds in Hf. lia. }
  cbn [phase1]. rewrite mbind_bind. unfold bind at 1, time.
  destruct (Z.ltb_spec (now w) deadline) as [_|?]; [|lia].
  rewrite (bind_ok _ _ _ _ _ (listdir_scripted w Hh)).
  destruct (decide (now w < t1)%Z) as [Hlt|Hge].
  - rewrite (bind_ok _ _ _ _ _
               (scan_latest_stale _ None w Hh Hlt (partial_names (now w)))).
    rewrite (bind_ok _ _ _ _ _ (sleep_eq w 200 ltac:(lia))).
    destruct (IH (World (now w + 200) (host w) (log w))) as (t & -> & Ht1 & Ht2).
    + done.
    + simpl. lia.
    + simpl. pose proof (rounds_step (now w) (now w + 200) deadline 200). lia.
    + exists t. simpl in *. split; [done|]. lia.
  - destruct (during (now w)) as (ec & Hc & Hts & _); [lia|].
    assert (c ∈ filter is_crdownload (names (now w))) as Hin.
    { apply list_elem_of_filter. split; [by apply Is_true_true|].
      destruct (lookup_entry_Some _ _ _ Hc) as [Hine Hname].
      apply list_elem_of_fmap. by exists ec. }
    rewrite (bind_ok _ _ _ _ _
               (scan_latest_picks _ None ec w Hh ltac:(lia) Hc
                  (partial_names (now w)) (or_introl eq_refl) (or_introl Hin))).
    exists (now w). split; [|lia].
    rewrite mret_ret. unfold ret. destruct w; simpl in *. by subst.
Qed.

Lemma phase2_returns fuel (w : world script) :
  host w = h → (t1 ≤ now w < t2 + 300)%Z →
  rounds (now w) deadline 300 ≤ fuel →
  ∃ t, phase2 scripted fuel d ts deadline c final w
       = (Ok (Some (Path d final)), World t h (log w))
       ∧ (t2 ≤ t < deadline)%Z.
Proof.
  revert w. induction fuel as [|fuel IH]; intros w Hh Ht Hf.
  { unfold rounds in Hf. lia. }
  cbn [phase2]. rewrite mbind_bind. unfold bind at 1, time.
  destruct (Z.ltb_spec (now w) deadline) as [_|?]; [|lia].
  rewrite (bind_ok _ _ _ _ _ (exists_scripted c w Hh)).
  destruct (decide (now w < t2)%Z) as [Hlt|Hge].
  - destruct (during (now w)) as (e & He & _); [lia|].
    rewrite He. rewrite bool_decide_true by eauto.
    rewrite (bind_ok _ _ w w None) by done.
    rewrite (bind_ok _ _ _ _ _ (sleep_eq w 300 ltac:(lia))).
    destruct (IH (World (now w + 300) (host w) (log w))) as (t & -> & Ht2).
    + done.
    + simpl. lia.
    + simpl. pose proof (rounds_step (now w) (now w + 300) deadline 300). lia.
    + by exists t.
  - destruct (after (now w)) as (Hc & e & He & Hfile); [lia|].
    rewrite Hc. rewrite bool_decide_false by (by intros [? ?]).
    assert (ask (path_exists scripted (Path d final)) w = (Ok true, w)) as Hex.
    { rewrite exists_scripted by done. rewrite He.
      by rewrite bool_decide_true by eauto. }
    assert (ask (is_file scripted (Path d final)) w = (Ok true, w)) as Hfl.
    { apply ask_instant. simpl. by rewrite Hh, He, Hfile. }
    erewrite bind_ok; cycle 1.
    { rewrite (bind_ok _ _ _ _ _ Hex). rewrite (bind_ok _ _ _ _ _ Hfl).
      reflexivity. }
    exists (now w). split; [|lia].
    rewrite mret_ret. unfold ret. destruct w; simpl in *. by subst.
Qed.

Lemma wait_for_download_returns_final timeout (w : world script) :
  host w = h → (now w < t2)%Z → deadline = (now w + timeout)%Z →
  ∃ tc t,
    phase1 scripted (rounds (now w) deadline 200) d ts deadline w
    = (Ok (Some c), World tc h (log w))
    ∧ (t1 ≤ tc < t2)%Z
    ∧ wait_for_download scripted ts timeout (Some d) w
      = (Ok (Some (Path d final)), World t h (log w))
    ∧ (t2 ≤ t < deadline)%Z.
Proof.
  intros Hh Ht Hd. unfold wait_for_download.
  rewrite mbind_bind. unfold bind at 1, time. cbv zeta. rewrite <- Hd.
  destruct (phase1_finds (rounds (now w) deadline 200) w)
    as (t & Hp1 & Htt & Hle); [done|done|done|].
  rewrite (bind_ok _ _ _ _ _ Hp1). simpl default.
  destruct (phase2_returns (rounds (now w) deadline 300) (World t h (log w)))
    as (t' & Hp2 & Ht'); [done|simpl; lia| |].
  { simpl. apply rounds_mono; lia. }
  exists t, t'. split; [done|]. split; [done|]. split; [|done]. exact Hp2.
Qed.
End watcher_on_a_trace.

Section watcher_without_a_file.
Variables (h : script) (d : dir) (ts deadline : Z).

Let names (t : Z) : list string := (λ e : entry, e.1.1) <$> files_at h t d.

Hypothesis d_not_cache : d ≠ CacheRoot.
(** No new final file ever shows up. *)
Hypothesis no_final : ∀ t (e : entry), e ∈ files_at h t d →
  hidden_or_partial e.1.1 = true ∨ (e.1.2 < ts)%Z ∨ e.2 = false.
(** A partial file, once there, stays. *)
Hypothesis partial_stays : ∀ t t' n, (t ≤ t')%Z →
  is_Some (lookup_entry n (files_at h t d)) →
  is_Some (lookup_entry n (files_at h t' d)).

Lemma stat_scripted n (w : world script) :
  host w = h →
  call (stat_mtime scripted (Path d n)) w
  = (match lookup_entry n (files_at h (now w) d) with
     | Some e => Ok e.1.2
     | None => Raise (FileNotFoundError n)
     end, w).
Proof.
  intros Hh.
  rewrite (call_instant _ w
             (match lookup_entry n (files_at h (now w) d) with
              | Some e => inr e.1.2
              | None => inl (FileNotFoundError n)
              end)).
  - by destruct (lookup_entry n (files_at h (now w) d)).
  - simpl. by rewrite Hh.
Qed.

Lemma scan_new_nothing l (w : world script) :
  host w = h → scan_new scripted d ts l w = (Ok None, w).
Proof.
  intros Hh. induction l as [|n l IH]; [done|].
  cbn [scan_new]. destruct (hidden_or_partial n) eqn:Hn; [done|].
  assert (try_except is_file_not_found
            (mtime ← call (stat_mtime scripted (Path d n));
             if (ts <=? mtime)%Z
             then ask (is_file scripted (Path d n))
             else mret false)
            (λ _, mret false) w = (Ok false, w)) as Hhit.
  { unfold try_except. rewrite mbind_bind. unfold bind.
    rewrite stat_scripted by done.
    destruct (lookup_entry n (files_at h (now w) d)) as [e|] eqn:He; [|done].
    destruct (lookup_entry_Some _ _ _ He) as [Hin Hname].
    destruct (Z.leb_spec ts e.1.2) as [Hle|Hlt]; [|done].
    rewrite (ask_instant _ w e.2).
    - destruct (no_final _ _ Hin) as [Hhid|[?|Hnf]]; [|lia|by rewrite Hnf].
      rewrite Hname in Hhid. congruence.
    - simpl. by rewrite Hh, He. }
  by rewrite (bind_ok _ _ _ _ _ Hhit).
Qed.

Lemma scan_latest_present l latest (w : world script) :
  host w = h →
  (∀ n m, latest = Some (n, m) →
          is_Some (lookup_entry n (files_at h (now w) d))) →
  ∃ r, scan_latest scripted d ts l latest w = (Ok r, w)
       ∧ ∀ n m, r = Some (n, m) →
                is_Some (lookup_entry n (files_at h (now w) d)).
Proof.
  intros Hh. revert latest. induction l as [|n l IH]; intros latest Hlatest.
  { exists latest. by split. }
  cbn [scan_latest].
  assert (try_except is_file_not_found
            (mtime ← call (stat_mtime scripted (Path d n)); mret (Some mtime))
            (λ _, mret None) w
          = (Ok ((λ e : entry, e.1.2) <$> lookup_entry n (files_at h (now w) d)), w))
    as Htry.
  { unfold try_except. rewrite mbind_bind. unfold bind.
    rewrite stat_scripted by done.
    by destruct (lookup_entry n (files_at h (now w) d)). }
  rewrite (bind_ok _ _ _ _ _ Htry).
  destruct (lookup_entry n (files_at h (now w) d)) as [e|] eqn:He;
    simpl; [|by apply IH].
  assert (∀ n0 m0, Some (n, e.1.2) = Some (n0, m0) →
                   is_Some (lookup_entry n0 (files_at h (now w) d))) as Hnew.
  { intros ?? [= <- <-]. by rewrite He. }
  destruct (ts <=? e.1.2)%Z; [|by apply IH].
  destruct latest as [[? best]|]; [|by apply IH].
  destruct (best <? e.1.2)%Z; by apply IH.
Qed.

Lemma phase2_times_out fuel c target_stem (w : world script) :
  host w = h →
  is_Some (lookup_entry c (files_at h (now w) d)) →
  rounds (now w) deadline 300 ≤ fuel →
  ∃ t, phase2 scripted fuel d ts deadline c target_stem w
       = (Ok None, World t h (log w))
       ∧ (deadline ≤ t)%Z ∧ (now w ≤ t)%Z.
Proof.
  revert w. induction fuel as [|fuel IH]; intros w Hh Hc Hf.
  { unfold rounds in Hf. lia. }
  cbn [phase2]. rewrite mbind_bind. unfold bind at 1, time.
  destruct (Z.ltb_spec (now w) deadline) as [Hlt|Hge].
  2:{ exists (now w). split; [|lia]. rewrite mret_ret. unfold ret.
      destruct w; simpl in *. by subst. }
  assert (ask (path_exists scripted (Path d c)) w = (Ok true, w)) as Hex.
  { apply ask_instant. simpl. rewrite Hh.
    destruct d; [| |done]; by rewrite bool_decide_true. }
  rewrite (bind_ok _ _ _ _ _ Hex).
  rewrite (bind_ok _ _ w w None) by done.
  rewrite (bind_ok _ _ _ _ _ (sleep_eq w 300 ltac:(lia))).
  destruct (IH (World (now w + 300) (host w) (log w))) as (t & -> & Ht & Ht').
  - done.
  - simpl. apply (partial_stays (now w)); [lia|done].
  - simpl. pose proof (rounds_step (now w) (now w + 300) deadline 300). lia.
  - exists t. simpl in *. split; [done|]. lia.
Qed.

Lemma phase1_or_timeout fuel (w : world script) :
  host w = h →
  rounds (now w) deadline 200 ≤ fuel →
  ∃ r t, phase1 scripted fuel d ts deadline w = (Ok r, World t h (log w))
         ∧ (now w ≤ t)%Z
         ∧ match r with
           | Some c => is_Some (lookup_entry c (files_at h t d))
           | None => (deadline ≤ t)%Z
           end.
Proof.
  revert w. induction fuel as [|fuel IH]; intros w Hh Hf.
  { unfold rounds in Hf. lia. }
  cbn [phase1]. rewrite mbind_bind. unfold bind at 1, time.
  destruct (Z.ltb_spec (now w) deadline) as [Hlt|Hge].
  2:{ exists None, (now w). split; [|split; [lia|done]].
      rewrite mret_ret. unfold ret. destruct w; simpl in *. by subst. }
  assert (ask (listdir scripted d) w = (Ok (names (now w)), w)) as Hls.
  { apply ask_instant. simpl. by rewrite Hh. }
  rewrite (bind_ok _ _ _ _ _ Hls).
  destruct (scan_latest_present (filter is_crdownload (names (now w))) None w)
    as (r & Hscan & Hr); [done|done|].
  rewrite (bind_ok _ _ _ _ _ Hscan).
  destruct r as [[c m]|].
  - exists (Some c), (now w). split; [|split; [lia|by eapply Hr]].
    rewrite mret_ret. unfold ret. destruct w; simpl in *. by subst.
  - rewrite (bind_ok _ _ _ _ _ (sleep_eq w 200 ltac:(lia))).
    destruct (IH (World (now w + 200) (host w) (log w)))
      as (r & t & -> & Ht & Hr').
    + done.
    + simpl. pose proof (rounds_step (now w) (now w + 200) deadline 200). lia.
    + exists r, t. simpl in *. split; [done|]. split; [lia|done].
Qed.

Lemma wait_for_download_not_found timeout (w : world script) :
  host w = h → deadline = (now w + timeout)%Z →
  ∃ t, wait_for_download scripted ts timeout (Some d) w
       = (Ok None, World t h (log w))
       ∧ (deadline ≤ t)%Z.
Proof.
  intros Hh Hd. unfold wait_for_download.
  rewrite mbind_bind. unfold bind at 1, time. cbv zeta. rewrite <- Hd.
  destruct (phase1_or_timeout (rounds (now w) deadline 200) w)
    as (r & t & Hp1 & Ht & Hr); [done|done|].
  rewrite (bind_ok _ _ _ _ _ Hp1). simpl default.
  destruct r as [c|].
  - destruct (phase2_times_out (rounds (now w) deadline 300) c
                (str_take (String.length c - String.length ".crdownload") c)
                (World t h (log w))) as (t' & Hp2 & Ht' & _); [done|done| |].
    { simpl. apply rounds_mono; lia. }
    exists t'. split; [exact Hp2|done].
  - assert (ask (listdir scripted d) (World t h (log w))
            = (Ok (names t), World t h (log w))) as Hls.
    { by apply ask_instant. }
    rewrite (bind_ok _ _ _ _ _ Hls).
    exists t. split; [|done]. by apply scan_new_nothing.
Qed.
End watcher_without_a_file.

Lemma replaced_files_before d replaced t :
  (t < 1000)%Z → replaced_files d replaced t d = [].
Proof.
  intros Ht. unfold replaced_files. rewrite bool_decide_true by done.
  by destruct (Z.ltb_spec t 1000); [|lia].
Qed.

Lemma replaced_files_during d replaced t :
  (1000 ≤ t < replaced)%Z →
  replaced_files d replaced t d = [("x.mp3.crdownload", t, true)].
Proof.
  intros Ht. unfold replaced_files. rewrite bool_decide_true by done.
  destruct (Z.ltb_spec t 1000); [lia|].
  by destruct (Z.ltb_spec t replaced); [|lia].
Qed.

Lemma replaced_files_after d replaced t :
  (1000 ≤ replaced ≤ t)%Z →
  replaced_files d replaced t d = [("x.mp3", replaced, true)].
Proof.
  intros Ht. unfold replaced_files. rewrite bool_decide_true by done.
  destruct (Z.ltb_spec t 1000); [lia|].
  by destruct (Z.ltb_spec t replaced); [lia|].
Qed.

Lemma crowded_files_before d t :
  (t < 1000)%Z → crowded_files d t d = [("old.mp3.crdownload", 50%Z, true)].
Proof.
  intros Ht. unfold crowded_files. rewrite bool_decide_true by done.
  by destruct (Z.ltb_spec t 1000); [|lia].
Qed.

Lemma crowded_files_during d t :
  (1000 ≤ t < 5000)%Z →
  crowded_files d t d
  = [("old.mp3.crdownload", 50%Z, true); ("w.mp3.crdownload", 200%Z, true);
     ("x.mp3.crdownload", t, true)].
Proof.
  intros Ht. unfold crowded_files. rewrite bool_decide_true by done.
  destruct (Z.ltb_spec t 1000); [lia|].
  by destruct (Z.ltb_spec t 5000); [|lia].
Qed.

Lemma crowded_files_after d t :
  (5000 ≤ t)%Z →
  crowded_files d t d
  = [("old.mp3.crdownload", 50%Z, true); ("w.mp3.crdownload", 200%Z, true);
     ("x.mp3", 5000%Z, true)].
Proof.
  intros Ht. unfold crowded_files. rewrite bool_decide_true by done.
  destruct (Z.ltb_spec t 1000); [lia|].
  by destruct (Z.ltb_spec t 5000); [lia|].
Qed.

(** C4 (as amended). On a host whose calls take no time: when from [t1] to
    [t2], for at least one phase-1 interval, the partial file [c] (a name
    ending in [.crdownload]) is in the directory, not older than
    [new_after_ts], and is the most recently modified of the partial files
    that are not older than [new_after_ts] (older partial files may lie
    around, also before [t1]), and when from [t2] on, at least one phase-2
    interval before the deadline, [c] is gone and the file named like [c]
    without that ending is there, then phase 1 picks [c], phase 2 waits until
    it is gone, and the watcher returns the path of that file before the
    deadline. When no new final file ever shows up and partial files never
    go away, the watcher returns nothing, once the deadline has passed. *)
Theorem watcher_follows_partial_file :
  (∀ (h : script) d ts t1 t2 timeout c (w : world script),
     host w = h → d ≠ CacheRoot → is_crdownload c = true →
     (∀ t (e : entry), (t < t1)%Z →
        e ∈ files_at h t d → is_crdownload e.1.1 = true → (e.1.2 < ts)%Z) →
     (∀ t, (t1 ≤ t < t2)%Z →
        ∃ ec, lookup_entry c (files_at h t d) = Some ec ∧ (ts ≤ ec.1.2)%Z
              ∧ ∀ e : entry,
                  e ∈ files_at h t d → is_crdownload e.1.1 = true →
                  e.1.1 ≠ c → (e.1.2 < ts ∨ e.1.2 < ec.1.2)%Z) →
     (∀ t, (t2 ≤ t)%Z →
        lookup_entry c (files_at h t d) = None
        ∧ ∃ e, lookup_entry
                 (str_take (String.length c - String.length ".crdownload") c)
                 (files_at h t d) = Some e
               ∧ e.2 = true) →
     (t1 + 200 ≤ t2)%Z → (now w < t2)%Z → (t2 + 300 ≤ now w + timeout)%Z →
     ∃ tc t,
       phase1 scripted (rounds (now w) (now w + timeout) 200) d ts
         (now w + timeout) w
       = (Ok (Some c), World tc h (log w))
       ∧ (t1 ≤ tc < t2)%Z
       ∧ wait_for_download scripted ts timeout (Some d) w
         = (Ok (Some (Path d (str_take (String.length c
                                        - String.length ".crdownload") c))),
            World t h (log w))
       ∧ (t2 ≤ t < now w + timeout)%Z)
  ∧ (∀ (h : script) d ts timeout (w : world script),
       host w = h → d ≠ CacheRoot →
       (∀ t (e : entry), e ∈ files_at h t d →
          hidden_or_partial e.1.1 = true ∨ (e.1.2 < ts)%Z ∨ e.2 = false) →
       (∀ t t' n, (t ≤ t')%Z →
          is_Some (lookup_entry n (files_at h t d)) →
          is_Some (lookup_entry n (files_at h t' d))) →
       ∃ t, wait_for_download scripted ts timeout (Some d) w
            = (Ok None, World t h (log w))
            ∧ (now w + timeout ≤ t)%Z).
Proof.
  split.
  - intros h d ts t1 t2 timeout c w Hh Hd Hc Hbefore Hduring Hafter Hlong Hnow
      Hearly.
    by apply (wait_for_download_returns_final h d ts t1 t2 (now w + timeout) c).
  - intros h d ts timeout w Hh Hd Hnone Hstay.
    by apply (wait_for_download_not_found h d ts (now w + timeout)).
Qed.

(** The specification's example, with the names the program uses and with a
    stale and an older partial file lying around: [x.mp3.crdownload] is
    there from [1000], replaced at [5000], deadline [10000]. *)
Lemma watcher_follows_partial_file_witness :
  let d := WorkerDir 1 in
  let h := Script (crowded_files d) false false false 0 in
  (1000 + 200 ≤ 5000)%Z ∧ (0 < 5000)%Z ∧ (5000 + 300 ≤ 0 + 10000)%Z
  ∧ ∃ t, wait_for_download scripted 100 10000 (Some d) (World 0 h [])
         = (Ok (Some (Path d "x.mp3")), World t h [])
         ∧ (5000 ≤ t < 10000)%Z.
Proof.
  intros d h.
  split; [lia|]. split; [lia|]. split; [lia|].
  destruct (proj1 watcher_follows_partial_file h d 100%Z 1000%Z 5000%Z 10000%Z
              "x.mp3.crdownload" (World 0 h []))
    as (tc & t & _ & _ & Hw & Ht).
  - reflexivity.
  - discriminate.
  - reflexivity.
  - intros t e Ht. simpl. rewrite crowded_files_before by done.
    intros [->|[]%elem_of_nil]%elem_of_cons _. simpl. lia.
  - intros t Ht. simpl. rewrite crowded_files_during by done.
    eexists. split; [reflexivity|]. split; [simpl; lia|].
    intros e [->|[->|[->|[]%elem_of_nil]%elem_of_cons]%elem_of_cons]%elem_of_cons;
      simpl; intros Hp Hne; try done; lia.
  - intros t Ht. simpl. rewrite crowded_files_after by lia.
    split; [reflexivity|]. eexists. split; reflexivity.
  - lia.
  - simpl. lia.
  - simpl. lia.
  - exists t. split; [exact Hw|]. simpl in Ht. lia.
Defined.

(** C4 (as stated) fails: the partial file is there from [1000] and is
    replaced by the final file at [9950], before the deadline [10000], yet
    the watcher returns nothing: its last phase-2 poll is at [9700]. A
    partial file that comes and goes between two polls of phase 1 is never
    picked: the final file is only found by the last scan, at the deadline.
    And next to a partial file that was modified later, the partial file of
    the example is not the one phase 1 picks. *)
Lemma late_replacement_is_missed :
  let d := WorkerDir 1 in
  let h := replaced_script d 9950 in
  let hf := Script (flash_files d) false false false 0 in
  let hr := Script (rival_files d) false false false 0 in
  (∀ t, (1000 ≤ t < 9950)%Z →
     files_at h t d = [("x.mp3.crdownload", t, true)])
  ∧ (∀ t, (9950 ≤ t)%Z → files_at h t d = [("x.mp3", 9950%Z, true)])
  ∧ (9950 < 0 + 10000)%Z
  ∧ wait_for_download scripted 0 10000 (Some d) (start h)
    = (Ok None, World 10000 h [])
  ∧ phase1 scripted (rounds 0 10000 200) d 0 10000 (start hf)
    = (Ok None, World 10000 hf [])
  ∧ wait_for_download scripted 0 10000 (Some d) (start hf)
    = (Ok (Some (Path d "x.mp3")), World 10000 hf [])
  ∧ phase1 scripted (rounds 0 10000 200) d 0 10000 (start hr)
    = (Ok (Some "y.mp3.crdownload"), World 1000 hr [])
  ∧ wait_for_download scripted 0 10000 (Some d) (start hr)
    = (Ok None, World 10000 hr []).
Proof.
  intros d h hf hr. split; [|split; [|split; [|split; [|split; [|split; [|split]]]]]].
  - intros t Ht. by apply replaced_files_during.
  - intros t Ht. apply replaced_files_after. lia.
  - lia.
  - vm_compute. reflexivity.
  - vm_compute. reflexivity.
  - vm_compute. reflexivity.
  - vm_compute. reflexivity.
  - vm_compute. reflexivity.
Qed.

(** * Further properties of the program *)

(** ** X1: [cleanup_driver] *)

(** X1. [cleanup_driver] calls [d.quit()] and then, whether or not the quit
    raised, removes the profile directory of the driver if it is still
    there; it ends the way the quit ended. *)
Theorem cleanup_driver_removes_profile {H} (hst : Host H) d (w : world H) :
  nonempty (_temp_user_data d) = true →
  let q := quit hst (now w) (host w) in
  let w1 := World (now w + Z.of_N (took q)) (host_after q) (log w ++ [EQuit]) in
  let x := path_exists hst (Path CacheRoot (_temp_user_data d)) (now w1) (host w1) in
  ∃ w',
    cleanup_driver hst d w
    = (match ans q with inl e => Raise e | inr _ => Ok () end, w')
    ∧ log w' = log w ++ EQuit :: (if ans x then [ERmtree (_temp_user_data d)] else []).
Proof.
  intros Htmp.
  cbv [cleanup_driver try_finally mbind M_bind bind ask call
       emit mret M_ret ret raise].
  rewrite Htmp. cbn [log now host].
  destruct (ans (quit hst (now w) (host w))) as [e|[]] eqn:Hq; cbn [log now host];
    match goal with
    | |- context [if ans ?a then _ else _] => destruct (ans a) eqn:Hx
    end; cbn [log now host];
    eexists; (split; [reflexivity|]); cbn [log]; by rewrite <- ?app_assoc.
Qed.

(** The session of a worker of the scripted host is cleaned up. *)
Lemma cleanup_driver_removes_profile_witness :
  nonempty (_temp_user_data (Driver "chromium_profile_0")) = true
  ∧ ∃ w', cleanup_driver scripted (Driver "chromium_profile_0") (start idle_script)
          = (Ok (), w')
          ∧ log w' = [EQuit; ERmtree "chromium_profile_0"].
Proof.
  split; [reflexivity|].
  destruct (cleanup_driver_removes_profile scripted (Driver "chromium_profile_0")
              (start idle_script) eq_refl) as (w' & Hc & Hl).
  exists w'. split; [exact Hc|exact Hl].
Defined.

(** ** X2: the session of a worker is always released *)

Lemma tame_force_nav_events {H} (hst : Host H) (P : event → Prop) url :
  (∀ l r, P (ENavigate l r)) → tame P (force_nav hst url).
Proof.
  intros HP w. unfold force_nav.
  destruct (force_nav_from_spec hst targets url None w)
    as (r & w' & rs & Hf & Ht & Hl & Hlen & Hcase).
  exists r, w'. split; [done|]. split.
  { destruct Hcase as [(-> & _)|(_ & _ & ->)]; done. }
  split; [done|]. eexists. split; [done|].
  generalize (label <$> targets). clear -HP. intros ls. revert rs.
  induction ls as [|l ls IH]; intros [|r rs]; simpl; constructor; [apply HP|].
  apply IH.
Qed.

Lemma tasks_run_no_quit worker_dir tasks r tr :
  tasks_run worker_dir tasks r tr → Forall (λ e, e ≠ EQuit) tr.
Proof.
  induction 1 as [|t ts r tr1 tr2 Hq _ IH|t ts e tr Hq].
  - constructor.
  - apply Forall_app. split; [|done].
    inversion Hq; repeat constructor; done.
  - inversion Hq; repeat constructor; done.
Qed.

Lemma tame_run_tasks_no_quit {H} (hst : Host H) worker_dir tasks :
  tame (λ e, e ≠ EQuit) (run_tasks hst worker_dir tasks).
Proof.
  intros w.
  destruct (run_tasks_spec hst worker_dir tasks w)
    as (r & w' & tr & Hr & Ht & Hl & Hrun).
  exists r, w'. split; [done|].
  destruct (tasks_run_facts _ _ _ _ Hrun) as (_ & Hfin & _).
  split; [done|]. split; [done|]. exists tr. split; [done|].
  by eapply tasks_run_no_quit.
Qed.

(** X2. Once [build_driver] has returned a driver, the worker quits it
    exactly once, as the last thing it does before the profile directory is
    removed, whichever way the navigation and the query loop end. *)
Theorem process_worker_releases_session {H} (hst : Host H)
    worker_id tasks (w w1 : world H) d :
  build_driver hst (Some (WorkerDir (worker_id + 1))) w = (Ok d, w1) →
  ∃ r w' tr rest,
    process_worker hst worker_id tasks w = (r, w')
    ∧ r ≠ Unfinished
    ∧ log w' = log w1 ++ tr ++ EQuit :: rest
    ∧ Forall (λ e, e ≠ EQuit) tr
    ∧ (rest = [] ∨ rest = [ERmtree (_temp_user_data d)]).
Proof.
  intros Hb. unfold process_worker. cbv zeta.
  rewrite (bind_ok _ _ _ _ _ Hb). unfold try_finally.
  set (body := (sleep (250 * Z.of_nat worker_id);;
                match tasks with
                | [] => mret ()
                | _ :: _ => force_nav hst SITE_URL;; grant_notifications hst
                end;;
                run_tasks hst (WorkerDir (worker_id + 1)) tasks : M H unit)).
  assert (tame (λ e, e ≠ EQuit) body) as Hbody.
  { subst body. intros w0. tame_step; [tame|]. tame_step.
    - destruct tasks; [tame|]. tame_step; [by apply tame_force_nav_events|].
      apply tame_grant_notifications.
    - apply tame_run_tasks_no_quit. }
  destruct (Hbody w1) as (r3 & w3 & -> & Hfin3 & _ & tr & Hl3 & Htr).
  destruct (cleanup_driver_exact hst d w3) as (r5 & w5 & rest & Hc & Hfin5 & Hl5 & Hrest).
  destruct r3 as [[]|e|]; [| |done]; unfold bind; rewrite Hc;
    destruct r5 as [[]|e5|]; try done;
    eexists _, w5, tr, rest; (split; [reflexivity|]); (split; [done|]);
    (split; [by rewrite Hl5, Hl3, <- app_assoc|]); done.
Qed.

(** A worker whose first query raises still quits its session. *)
Lemma process_worker_releases_session_witness :
  let w := start no_results_script in
  let w1 := World 0 (Script no_files false true false 1)
              [EMkdtemp "chromium_profile_0";
               ELaunch "chromium_profile_0" (WorkerDir 1) None] in
  build_driver scripted (Some (WorkerDir (0 + 1))) w
  = (Ok (Driver "chromium_profile_0"), w1)
  ∧ ∃ r w' tr rest,
      process_worker scripted 0 [(0, "a")] w = (r, w')
      ∧ log w' = log w1 ++ tr ++ EQuit :: rest.
Proof.
  intros w w1.
  assert (build_driver scripted (Some (WorkerDir (0 + 1))) w
          = (Ok (Driver "chromium_profile_0"), w1)) as Hb
    by (vm_compute; reflexivity).
  split; [exact Hb|].
  destruct (process_worker_releases_session scripted 0 [(0, "a")] w w1 _ Hb)
    as (r & w' & tr & rest & Hp & _ & Hl & _).
  exists r, w', tr, rest. split; [exact Hp|exact Hl].
Defined.

(** ** X3: the watcher ends, silently, with a path of its directory *)

Lemma returns_wait_for_download_any {H} (hst : Host H) ts timeout download_dir :
  returns (inside (default Downloads download_dir))
    (wait_for_download hst ts timeout download_dir).
Proof.
  unfold wait_for_download. apply returns_seq. intros t0. cbv zeta.
  apply returns_seq. intros [c|].
  - apply returns_phase2.
  - apply returns_seq. intros names. apply returns_scan_new.
Qed.

(** X3. On every host [wait_for_download] comes to an end: its polling
    loops stop at the deadline at the latest round. It prints nothing, and a
    path it returns lies in the directory it watches ([DOWNLOADS] when no
    directory is given). *)
Theorem wait_for_download_ends_inside {H} (hst : Host H)
    ts timeout download_dir (w : world H) :
  ∃ r w',
    wait_for_download hst ts timeout download_dir w = (r, w')
    ∧ r ≠ Unfinished
    ∧ (now w ≤ now w')%Z
    ∧ log w' = log w
    ∧ ∀ p, r = Ok (Some p) → parent p = default Downloads download_dir.
Proof.
  destruct (tame_wait_for_download hst nothing ts timeout download_dir w)
    as (r & w' & Hw & Hfin & Ht & tr & Hl & Htr).
  assert (tr = []) as ->.
  { destruct tr as [|e tr]; [done|]. by inversion Htr. }
  rewrite app_nil_r in Hl.
  exists r, w'. repeat split; try done.
  intros p ->.
  by eapply (returns_wait_for_download_any hst ts timeout download_dir w).
Qed.

(** ** X5: closing stray tabs never raises *)

Lemma never_raises_try_except_all {H A} (m : M H A) (handler : exn → M H A) :
  tame (λ _, True) m → (∀ e, never_raises (handler e)) →
  never_raises (try_except any_exception m handler).
Proof.
  intros Hm Hh w. unfold try_except.
  destruct (Hm w) as (r & w1 & -> & Hfin & _).
  destruct r as [a|e|]; [by eauto| |done].
  simpl. apply Hh.
Qed.

Lemma never_raises_ret {H A} (a : A) : never_raises (H:=H) (mret a).
Proof. intros w. by exists a, w. Qed.

Lemma never_raises_bind {H A B} (m : M H A) (k : A → M H B) :
  never_raises m → (∀ a, never_raises (k a)) → never_raises (m ≫= k).
Proof.
  intros Hm Hk w. destruct (Hm w) as (a & w1 & Hmw).
  rewrite (bind_ok _ _ _ _ _ Hmw). apply Hk.
Qed.

(** X5. Whatever the browser does, [grant_notifications] and
    [close_new_tabs] return: every exception of the driver is swallowed. *)
Theorem close_new_tabs_never_raises {H} (hst : Host H) :
  never_raises (grant_notifications hst)
  ∧ ∀ baseline_handles original_handle grant_before_close,
      never_raises (close_new_tabs hst baseline_handles original_handle
                      grant_before_close).
Proof.
  split.
  - unfold grant_notifications. apply never_raises_bind.
    + apply never_raises_try_except_all; [tame|]. intros. apply never_raises_ret.
    + intros origin. destruct (nonempty (or_empty origin)).
      * apply never_raises_try_except_all; [tame|]. intros. apply never_raises_ret.
      * apply never_raises_ret.
  - intros baseline original grant. unfold close_new_tabs.
    apply never_raises_try_except_all; [|intros; apply never_raises_ret].
    intros w. tame_step; [tame|]. tame_step; [apply tame_close_each|tame].
Qed.

(** ** X6: what [build_driver] leaves behind *)

Lemma attempt_run_ends_with_launch base user_data r tr :
  attempt_run base user_data r tr →
  count is_failed_launch tr = 1 →
  ∃ tr0 p e, tr = tr0 ++ [EMkdtemp p; ELaunch p base (Some e)].
Proof.
  inversion 1 as [rm f Hrm|rm f e Hrm He|rm f e Hrm He|rm e Hrm He|rm e Hrm He];
    subst; intros Hc.
  - destruct Hrm as [->|[old ->]]; by vm_compute in Hc.
  - by exists rm, f, e.
  - by exists rm, f, e.
  - destruct Hrm as [->|[old ->]]; by vm_compute in Hc.
  - destruct Hrm as [->|[old ->]]; by vm_compute in Hc.
Qed.

Lemma session_run_ends_with_launch base n last_err r tr :
  session_run base n last_err r tr →
  count is_failed_launch tr = n → 0 < n →
  ∃ tr0 p e, tr = tr0 ++ [EMkdtemp p; ELaunch p base (Some e)].
Proof.
  induction 1 as [last_err|n last_err ud d tr Ha|n last_err ud e tr Ha
                  |n last_err ud ud' e tr1 r tr2 Ha Hs IH]; intros Hn Hpos.
  - lia.
  - destruct (attempt_run_facts _ _ _ _ Ha) as (?&?&?&?&?&?&?&Hd).
    destruct (Hd d eq_refl) as [Hz _]. lia.
  - destruct (attempt_run_facts _ _ _ _ Ha) as (?&?&?&?&?&?&?&?).
    apply (attempt_run_ends_with_launch _ _ _ _ Ha). lia.
  - destruct (attempt_run_facts _ _ _ _ Ha) as (?&?&?&?&?&?&?&?).
    destruct (session_run_facts _ _ _ _ _ Hs) as (?&?&?&?&?&?).
    rewrite count_app in Hn.
    destruct n as [|n].
    + inversion Hs; subst. rewrite app_nil_r.
      apply (attempt_run_ends_with_launch _ _ _ _ Ha).
      change (count is_failed_launch []) with 0 in Hn. lia.
    + destruct IH as (tr0 & p & e' & ->); [lia|lia|].
      exists (tr1 ++ tr0), p, e'. by rewrite app_assoc.
Qed.

(** X6. When the three launches of [build_driver] have failed, the last
    thing it did was that launch: the profile directory made for the third
    attempt is not removed before the exception is raised. *)
Theorem build_driver_leaves_last_profile {H} (hst : Host H)
    download_dir (w w' : world H) r tr :
  build_driver hst download_dir w = (r, w') →
  log w' = log w ++ tr →
  count is_failed_launch tr = 3 →
  ∃ tr0 p e,
    tr = tr0 ++ [EMkdtemp p; ELaunch p (default Downloads download_dir) (Some e)]
    ∧ r = Raise e.
Proof.
  intros Hb Hl H3.
  destruct (build_driver_spec hst download_dir w)
    as (r1 & w1 & tr1 & Hb1 & _ & Hl1 & Hshape).
  rewrite Hb in Hb1. injection Hb1 as <- <-.
  rewrite Hl in Hl1. apply app_inv_head in Hl1 as <-.
  destruct Hshape as [[-> _]|Hs]; [by vm_compute in H3|].
  destruct (session_run_ends_with_launch _ _ _ _ _ Hs H3) as (tr0 & p & e & ->);
    [lia|].
  exists tr0, p, e. split; [done|].
  rewrite (session_run_exhausted _ _ _ _ _ Hs H3).
  rewrite last_failed_launch_app.
  by vm_compute.
Qed.

(** On a host where the browser never launches. *)
Lemma build_driver_leaves_last_profile_witness :
  let w := start no_browser_script in
  let e := SessionNotCreatedException "user data directory is already in use" in
  let tr := [EMkdtemp "chromium_profile_0";
             ELaunch "chromium_profile_0" (WorkerDir 1) (Some e);
             ERmtree "chromium_profile_0";
             EMkdtemp "chromium_profile_1";
             ELaunch "chromium_profile_1" (WorkerDir 1) (Some e);
             ERmtree "chromium_profile_1";
             EMkdtemp "chromium_profile_2";
             ELaunch "chromium_profile_2" (WorkerDir 1) (Some e)] in
  let res := build_driver scripted (Some (WorkerDir 1)) w in
  log res.2 = log w ++ tr
  ∧ count is_failed_launch tr = 3
  ∧ ∃ tr0 p e',
      tr = tr0 ++ [EMkdtemp p; ELaunch p (WorkerDir 1) (Some e')]
      ∧ res.1 = Raise e'.
Proof.
  intros w e tr res.
  assert (log res.2 = log w ++ tr) as Hl by (vm_compute; reflexivity).
  assert (count is_failed_launch tr = 3) as H3 by (vm_compute; reflexivity).
  assert (res = (res.1, res.2)) as Hres by (destruct res; reflexivity).
  exact (conj Hl (conj H3
           (build_driver_leaves_last_profile scripted (Some (WorkerDir 1))
              w res.2 res.1 tr Hres Hl H3))).
Defined.

(** ** X4: how long the watcher waits *)

Section watcher_deadline.
Context {H : Type} (hst : Host H).

Hypothesis listdir_instant : ∀ d t h, took (listdir hst d t h) = 0%N.
Hypothesis stat_instant : ∀ p t h, took (stat_mtime hst p t h) = 0%N.
Hypothesis exists_instant : ∀ p t h, took (path_exists hst p t h) = 0%N.
Hypothesis is_file_instant : ∀ p t h, took (is_file hst p t h) = 0%N.

Lemma instant_ret {A} (a : A) : instant (H:=H) (mret a).
Proof. by intros w r w' [= <- <-]. Qed.

Lemma instant_bind {A B} (m : M H A) (k : A → M H B) :
  instant m → (∀ a, instant (k a)) → instant (m ≫= k).
Proof.
  intros Hm Hk w r w'. rewrite mbind_bind. unfold bind.
  destruct (m w) as [[a|e|] w1] eqn:Hmw.
  - intros Hka. rewrite (Hk _ _ _ _ Hka). by eapply Hm.
  - intros [= <- <-]. by eapply Hm.
  - intros [= <- <-]. by eapply Hm.
Qed.

Lemma instant_try_except {A} catches (m : M H A) handler :
  instant m → (∀ e, instant (handler e)) →
  instant (try_except catches m handler).
Proof.
  intros Hm Hh w r w'. unfold try_except.
  destruct (m w) as [[a|e|] w1] eqn:Hmw.
  - intros [= <- <-]. by eapply Hm.
  - destruct (catches e).
    + intros Hhe. rewrite (Hh _ _ _ _ Hhe). by eapply Hm.
    + intros [= <- <-]. by eapply Hm.
  - intros [= <- <-]. by eapply Hm.
Qed.

Lemma instant_ask {A} (c : hask H A) :
  (∀ t h, took (c t h) = 0%N) → instant (ask c).
Proof.
  intros Hc w r w'. unfold ask. intros [= <- <-]. simpl. rewrite Hc. lia.
Qed.

Lemma instant_call {A} (c : hcall H A) :
  (∀ t h, took (c t h) = 0%N) → instant (call c).
Proof.
  intros Hc w r w'. unfold call.
  destruct (ans (c (now w) (host w))); intros [= <- <-]; simpl; rewrite Hc; lia.
Qed.

Lemma instant_scan_latest ddir ts names latest :
  instant (scan_latest hst ddir ts names latest).
Proof.
  revert latest. induction names as [|n names IH]; intros latest; simpl.
  - apply instant_ret.
  - apply instant_bind.
    + apply instant_try_except; [|intros; apply instant_ret].
      apply instant_bind; [by apply instant_call|]. intros; apply instant_ret.
    + intros [mtime|]; [|apply IH].
      destruct (ts <=? mtime)%Z; [|apply IH].
      destruct latest as [[? best]|]; [|apply IH].
      destruct (best <? mtime)%Z; apply IH.
Qed.

Lemma instant_scan_new ddir ts names :
  instant (scan_new hst ddir ts names).
Proof.
  induction names as [|n names IH]; simpl.
  - apply instant_ret.
  - destruct (hidden_or_partial n); [done|].
    apply instant_bind.
    + apply instant_try_except; [|intros; apply instant_ret].
      apply instant_bind; [by apply instant_call|]. intros mtime.
      destruct (ts <=? mtime)%Z; [by apply instant_ask|apply instant_ret].
    + intros [|]; [apply instant_ret|apply IH].
Qed.

Lemma instant_bounded {A} B (m : M H A) : instant m → bounded B m.
Proof. intros Hm w r w' Hw. rewrite (Hm _ _ _ Hw). lia. Qed.

Lemma bounded_unfinished {A} B : bounded (H:=H) (A:=A) B unfinished.
Proof. intros w r w' [= <- <-]. lia. Qed.

Lemma bounded_bind {A B'} B (m : M H A) (k : A → M H B') :
  bounded B m → (∀ a, bounded B (k a)) → bounded B (m ≫= k).
Proof.
  intros Hm Hk w r w'. rewrite mbind_bind. unfold bind.
  destruct (m w) as [[a|e|] w1] eqn:Hmw.
  - intros Hka. pose proof (Hm _ _ _ Hmw). pose proof (Hk _ _ _ _ Hka). lia.
  - intros [= <- <-]. by eapply Hm.
  - intros [= <- <-]. by eapply Hm.
Qed.

Lemma bounded_phase1 B fuel ddir ts deadline :
  (deadline + 199 ≤ B)%Z → bounded B (phase1 hst fuel ddir ts deadline).
Proof.
  intros HB. induction fuel as [|fuel IH]; [apply bounded_unfinished|].
  intros w r w'. cbn [phase1]. rewrite mbind_bind. unfold bind at 1, time.
  destruct (Z.ltb_spec (now w) deadline) as [Hlt|Hge];
    [|intros [= <- <-]; lia].
  rewrite mbind_bind. unfold bind at 1.
  destruct (ask (listdir hst ddir) w) as [[names|e|] w1] eqn:Ha;
    pose proof (instant_ask _ (listdir_instant ddir) _ _ _ Ha) as E1;
    try (intros [= <- <-]; lia).
  rewrite mbind_bind. unfold bind at 1.
  destruct (scan_latest hst ddir ts (filter is_crdownload names) None w1)
    as [[[[c m]|]|e|] w2] eqn:Hs;
    pose proof (instant_scan_latest _ _ _ _ _ _ _ Hs) as E2;
    try (intros [= <- <-]; lia).
  rewrite mbind_bind. unfold bind, sleep. simpl.
  intros Hn. apply IH in Hn. simpl in Hn. lia.
Qed.

Lemma instant_settled ddir ts target_stem :
  instant (fe ← ask (path_exists hst (Path ddir target_stem));
           ff ← (if fe : bool then ask (is_file hst (Path ddir target_stem))
                 else mret false);
           if ff : bool then mret (Some (Path ddir target_stem))
           else
             names ← ask (listdir hst ddir);
             scan_new hst ddir ts names).
Proof.
  apply instant_bind; [by apply instant_ask|]. intros fe.
  apply instant_bind.
  { destruct fe; [by apply instant_ask|apply instant_ret]. }
  intros [|]; [apply instant_ret|].
  apply instant_bind; [by apply instant_ask|]. intros; apply instant_scan_new.
Qed.

Lemma bounded_phase2 B fuel ddir ts deadline c target_stem :
  (deadline + 299 ≤ B)%Z →
  bounded B (phase2 hst fuel ddir ts deadline c target_stem).
Proof.
  intros HB. induction fuel as [|fuel IH]; [apply bounded_unfinished|].
  intros w r w'. cbn [phase2]. rewrite mbind_bind. unfold bind at 1, time.
  destruct (Z.ltb_spec (now w) deadline) as [Hlt|Hge];
    [|intros [= <- <-]; lia].
  rewrite mbind_bind. unfold bind at 1.
  destruct (ask (path_exists hst (Path ddir c)) w) as [[still|e|] w1] eqn:Ha;
    pose proof (instant_ask _ (exists_instant (Path ddir c)) _ _ _ Ha) as E1;
    try (intros [= <- <-]; lia).
  rewrite mbind_bind. unfold bind at 1.
  destruct still.
  - unfold mret at 1, M_ret, ret.
    rewrite mbind_bind. unfold bind, sleep. simpl.
    intros Hn. apply IH in Hn. simpl in Hn. lia.
  - cbv zeta.
    match goal with
    | |- context [match ?m w1 with _ => _ end] =>
        destruct (m w1) as [[[p|]|e|] w2] eqn:Hs;
          pose proof (instant_settled _ _ _ _ _ _ Hs) as E2;
          try (intros [= <- <-]; lia)
    end.
    rewrite mbind_bind. unfold bind, sleep. simpl.
    intros Hn. apply IH in Hn. simpl in Hn. lia.
Qed.

Lemma bounded_wait_for_download_at ts timeout download_dir (w : world H) r w' :
  wait_for_download hst ts timeout download_dir w = (r, w') →
  (now w ≤ now w' ≤ Z.max (now w) (now w + timeout + 299))%Z.
Proof.
  unfold wait_for_download. rewrite mbind_bind. unfold bind at 1, time.
  cbv zeta. intros Hw.
  assert (bounded (now w + timeout + 299)
            (candidate ← phase1 hst (rounds (now w) (now w + timeout) 200)
                           (default Downloads download_dir) ts (now w + timeout);
             match candidate with
             | Some c =>
                 phase2 hst (rounds (now w) (now w + timeout) 300)
                   (default Downloads download_dir) ts (now w + timeout) c
                   (str_take (String.length c - String.length ".crdownload") c)
             | None =>
                 names ← ask (listdir hst (default Downloads download_dir));
                 scan_new hst (default Downloads download_dir) ts names
             end)) as Hb.
  { apply bounded_bind; [apply bounded_phase1; lia|]. intros [c|].
    - apply bounded_phase2. lia.
    - apply instant_bounded, instant_bind; [by apply instant_ask|].
      intros; apply instant_scan_new. }
  exact (Hb _ _ _ Hw).
Qed.
End watcher_deadline.

(** X4. On a host whose file-system calls take no time, [wait_for_download]
    returns at the latest one phase-2 interval after its deadline: less than
    [timeout + 0.3] after it was called (for a timeout that is not
    negative). *)
Theorem wait_for_download_within_timeout {H} (hst : Host H)
    ts timeout download_dir (w w' : world H) r :
  (∀ d t h, took (listdir hst d t h) = 0%N) →
  (∀ p t h, took (stat_mtime hst p t h) = 0%N) →
  (∀ p t h, took (path_exists hst p t h) = 0%N) →
  (∀ p t h, took (is_file hst p t h) = 0%N) →
  (0 ≤ timeout)%Z →
  wait_for_download hst ts timeout download_dir w = (r, w') →
  (now w ≤ now w' < now w + timeout + 300)%Z.
Proof.
  intros H1 H2 H3 H4 Ht Hw.
  pose proof (bounded_wait_for_download_at hst H1 H2 H3 H4 _ _ _ _ _ _ Hw). lia.
Qed.

(** The watcher of the late replacement gives up at its deadline. *)
Lemma wait_for_download_within_timeout_witness :
  let d := WorkerDir 1 in
  let w := start (replaced_script d 9950) in
  let res := wait_for_download scripted 0 10000 (Some d) w in
  (0 ≤ 10000)%Z
  ∧ res = (res.1, res.2)
  ∧ (now w ≤ now res.2 < now w + 10000 + 300)%Z.
Proof.
  intros d w res.
  assert (res = (res.1, res.2)) as Hres by (destruct res; reflexivity).
  assert (0 ≤ 10000)%Z as Ht by lia.
  exact (conj Ht (conj Hres
           (wait_for_download_within_timeout scripted 0 10000 (Some d) w
              res.2 res.1 (λ _ _ _, eq_refl) (λ _ _ _, eq_refl)
              (λ _ _ _, eq_refl) (λ _ _ _, eq_refl) Ht Hres))).
Defined.

(** ** X7, X8: what [simplify_query] leaves of a query *)

Lemma simplify_query_unfold q : simplify_query q = simplify_query_spec q.
Proof.
  unfold simplify_query, simplify_query_spec.
  rewrite (drop_qualifier_strip "(") by done.
  rewrite (drop_qualifier_strip "[") by done.
  rewrite split_heads_truncate.
  destruct (Nat.ltb_spec 90 (String.length (strip (truncate_at_first_separator q))));
    [done|].
  symmetry. by apply str_take_all.
Qed.

Lemma startswith_trans p a b :
  startswith p a = true → startswith a b = true → startswith p b = true.
Proof.
  revert a b. induction p as [|x p IH]; intros [|y a] [|z b]; simpl; try done.
  destruct (Ascii.eqb_spec x y) as [->|]; [|done].
  destruct (Ascii.eqb_spec y z) as [->|]; [|done].
  apply IH.
Qed.

Lemma startswith_cons c a b :
  startswith (String c a) (String c b) = startswith a b.
Proof. cbn [startswith]. by rewrite Ascii.eqb_refl. Qed.

Lemma startswith_head c r s :
  startswith (String c r) s = true → ∃ s', s = String c s'.
Proof.
  destruct s as [|d s]; simpl; [done|].
  destruct (Ascii.eqb_spec c d) as [->|]; [eauto|done].
Qed.

Lemma startswith_length a b :
  startswith a b = true → String.length a ≤ String.length b.
Proof.
  revert b. induction a as [|x a IH]; intros [|y b]; simpl; try done; [lia|].
  destruct (Ascii.eqb x y); [|done]. intros Hab. apply IH in Hab. lia.
Qed.

Lemma truncate_prefix q : startswith (truncate_at_first_separator q) q = true.
Proof.
  induction q as [|c q IH]; [done|].
  unfold truncate_at_first_separator; fold truncate_at_first_separator.
  destruct (_ || _); [done|]. by rewrite startswith_cons.
Qed.

Lemma str_take_prefix n s : startswith (str_take n s) s = true.
Proof.
  revert s. induction n as [|n IH]; intros [|c s]; try done.
  cbn [str_take]. by rewrite startswith_cons.
Qed.

Lemma rstrip_prefix s : startswith (rstrip s) s = true.
Proof.
  induction s as [|c s IH]; [done|]. cbn [rstrip].
  destruct (rstrip s) as [|d r].
  - destruct (is_space c); [done|]. by rewrite startswith_cons.
  - by rewrite startswith_cons.
Qed.

Lemma contains_prefix sep a b :
  startswith a b = true → contains sep a = true → contains sep b = true.
Proof.
  revert b. induction a as [|x a IH]; intros b Hab.
  - simpl. rewrite orb_false_r. intros Hs.
    destruct sep; [by destruct b|done].
  - destruct (startswith_head _ _ _ Hab) as [b' ->].
    rewrite startswith_cons in Hab.
    cbn [contains]. intros [Hs|Hs]%orb_true_iff; apply orb_true_iff.
    + left. eapply startswith_trans; [exact Hs|]. by rewrite startswith_cons.
    + right. by apply IH.
Qed.

Lemma contains_lstrip sep s :
  contains sep (lstrip s) = true → contains sep s = true.
Proof.
  induction s as [|c s IH]; [done|]. cbn [lstrip].
  destruct (is_space c); [|done].
  intros Hs. cbn [contains]. apply orb_true_iff. right. by apply IH.
Qed.

Lemma lstrip_length s : String.length (lstrip s) ≤ String.length s.
Proof.
  induction s as [|c s IH]; [done|]. cbn [lstrip].
  destruct (is_space c); simpl in *; lia.
Qed.

Lemma lstrip_head s c r : lstrip s = String c r → is_space c = false.
Proof.
  induction s as [|d s IH]; [done|]. cbn [lstrip].
  destruct (is_space d) eqn:Hd; [done|]. by intros [= <- _].
Qed.

Lemma truncate_no_separator sep :
  sep ≠ EmptyString →
  (∀ q, startswith sep q = true → truncate_at_first_separator q = EmptyString) →
  ∀ q, contains sep (truncate_at_first_separator q) = false.
Proof.
  intros Hne Hsep q.
  assert (contains sep EmptyString = false) as Hnil by by destruct sep.
  induction q as [|c q IH]; [by destruct sep|].
  destruct (truncate_at_first_separator (String c q)) as [|d t] eqn:Ht;
    [done|].
  assert (t = truncate_at_first_separator q ∧ d = c) as [-> ->].
  { revert Ht.
    unfold truncate_at_first_separator; fold truncate_at_first_separator.
    destruct (_ || _); [done|]. by intros [= -> ->]. }
  cbn [contains]. rewrite IH, orb_false_r.
  destruct (startswith sep (String c (truncate_at_first_separator q))) eqn:Hs;
    [|done].
  rewrite (Hsep (String c q)) in Ht; [done|].
  eapply startswith_trans; [exact Hs|].
  rewrite startswith_cons. apply truncate_prefix.
Qed.

Lemma truncate_at_separator sep :
  sep = " - " ∨ sep = "(" ∨ sep = "[" →
  ∀ q, startswith sep q = true → truncate_at_first_separator q = EmptyString.
Proof.
  intros Hsep q Hq. destruct q as [|c q];
    unfold truncate_at_first_separator; fold truncate_at_first_separator.
  - by destruct (_ || _).
  - destruct Hsep as [->|[->| ->]]; rewrite Hq; by rewrite ?orb_true_r.
Qed.

Lemma simplify_query_no_separator sep q :
  sep = " - " ∨ sep = "(" ∨ sep = "[" →
  contains sep (simplify_query q) = false.
Proof.
  intros Hsep. rewrite simplify_query_unfold. unfold simplify_query_spec, strip.
  destruct (contains sep (str_take 90 _)) eqn:Hc; [|done].
  apply (contains_prefix _ _ _ (str_take_prefix _ _)) in Hc.
  apply (contains_prefix _ _ _ (rstrip_prefix _)) in Hc.
  apply contains_lstrip in Hc.
  rewrite truncate_no_separator in Hc; [done| |by apply truncate_at_separator].
  by destruct Hsep as [->|[->| ->]].
Qed.

Lemma truncate_clean q :
  contains " - " q = false → contains "(" q = false → contains "[" q = false →
  truncate_at_first_separator q = q.
Proof.
  induction q as [|c q IH]; [done|].
  cbn [contains]. intros [H1 H1']%orb_false_iff [H2 H2']%orb_false_iff
    [H3 H3']%orb_false_iff.
  unfold truncate_at_first_separator; fold truncate_at_first_separator.
  rewrite H1, H2, H3. cbn [orb]. f_equal. by apply IH.
Qed.

Lemma simplify_query_is_plain_parts (q : string) :
  contains " - " (simplify_query q) = false
  ∧ contains "(" (simplify_query q) = false
  ∧ contains "[" (simplify_query q) = false
  ∧ (∀ c r, simplify_query q = String c r → is_space c = false)
  ∧ String.length (simplify_query q) ≤ 90.
Proof.
  split; [apply simplify_query_no_separator; auto|].
  split; [apply simplify_query_no_separator; auto|].
  split; [apply simplify_query_no_separator; auto|].
  rewrite simplify_query_unfold. unfold simplify_query_spec, strip. split.
  - intros c r Hr.
    pose proof (str_take_prefix 90 (rstrip (lstrip (truncate_at_first_separator q))))
      as Hp.
    rewrite Hr in Hp. apply startswith_head in Hp as [s1 Hs1].
    pose proof (rstrip_prefix (lstrip (truncate_at_first_separator q))) as Hp.
    rewrite Hs1 in Hp. apply startswith_head in Hp as [s2 Hs2].
    by apply lstrip_head in Hs2.
  - apply str_take_length.
Qed.

(** X7. The search text [simplify_query] returns holds none of the
    separators [" - "], ["("], ["["], does not begin with white space, and is
    not longer than the query it was made from. *)
Theorem simplify_query_is_plain (q : string) :
  contains " - " (simplify_query q) = false
  ∧ contains "(" (simplify_query q) = false
  ∧ contains "[" (simplify_query q) = false
  ∧ (∀ c r, simplify_query q = String c r → is_space c = false)
  ∧ String.length (simplify_query q) ≤ String.length q.
Proof.
  destruct (simplify_query_is_plain_parts q) as (H1 & H2 & H3 & Hh & _).
  do 4 (split; [done|]).
  rewrite simplify_query_unfold. unfold simplify_query_spec, strip.
  pose proof (startswith_length _ _
    (str_take_prefix 90 (rstrip (lstrip (truncate_at_first_separator q))))).
  pose proof (startswith_length _ _
    (rstrip_prefix (lstrip (truncate_at_first_separator q)))).
  pose proof (lstrip_length (truncate_at_first_separator q)).
  pose proof (startswith_length _ _ (truncate_prefix q)). lia.
Qed.

(** X8. A query without separators and surrounding white space, of at most
    90 characters, is searched as it is: [simplify_query] returns it
    unchanged. *)
Theorem simplify_query_keeps_plain (q : string) :
  contains " - " q = false → contains "(" q = false → contains "[" q = false →
  strip q = q → String.length q ≤ 90 →
  simplify_query q = q.
Proof.
  intros H1 H2 H3 Hs Hl.
  rewrite simplify_query_unfold. unfold simplify_query_spec.
  rewrite truncate_clean, Hs by done. by apply str_take_all.
Qed.

Lemma simplify_query_keeps_plain_witness :
  simplify_query "Hey Jude The Beatles" = "Hey Jude The Beatles".
Proof.
  apply simplify_query_keeps_plain; [reflexivity..|].
  vm_compute. lia.
Defined.

(** ** X9: how many workers [run] starts *)

Lemma submitted_ids_from (L j : nat) (bs : list (list task)) :
  (∀ i b, bs !! i = Some b → b ≠ [] ↔ j + i < L) →
  (filter (λ wt : nat * list task, wt.2 ≠ []) (imap (λ i b, (j + i, b)) bs)).*1
  = seq j (length bs `min` (L - j)).
Proof.
  revert j. induction bs as [|b bs IH]; intros j Hbs; [done|].
  rewrite imap_cons.
  rewrite (imap_ext _ (λ i b, (S j + i, b)) bs)
    by (intros; simpl; f_equal; lia).
  specialize (IH (S j)).
  assert (∀ i b', bs !! i = Some b' → b' ≠ [] ↔ S j + i < L) as Hbs'
    by (intros i b' Hi; rewrite (Hbs (S i) b' Hi); lia).
  specialize (IH Hbs').
  pose proof (Hbs 0 b eq_refl) as Hb.
  rewrite filter_cons. destruct (decide ((j + 0, b).2 ≠ [])) as [Hne|He].
  - apply Hb in Hne.
    replace (length (b :: bs) `min` (L - j)) with (S (length bs `min` (L - S j)))
      by (cbn [length]; lia).
    rewrite fmap_cons, IH. simpl. f_equal. lia.
  - assert (¬ j + 0 < L) as Hge by (intros Hlt; by apply He, Hb).
    replace (length (b :: bs) `min` (L - j)) with 0 by (cbn [length]; lia).
    rewrite IH.
    by replace (length bs `min` (L - S j)) with 0 by lia.
Qed.

Lemma submitted_ids (n : nat) (queries : list string) :
  (submitted (make_buckets n queries)).*1 = seq 0 (n `min` length queries).
Proof.
  pose proof (submitted_ids_from (length queries) 0 (make_buckets n queries))
    as Hs.
  rewrite make_buckets_length, Nat.sub_0_r in Hs. apply Hs.
  intros i b Hb. by apply bucket_nonempty in Hb.
Qed.

(** X9. For concurrency [n > 0], [run] starts the workers
    [0 .. min n L - 1], in this order, where [L] is the number of queries:
    never more workers, and so never more browsers, than there are
    queries. *)
Theorem run_starts_min_workers (n : nat) (queries : list string) :
  0 < n →
  (submitted (make_buckets n queries)).*1 = seq 0 (n `min` length queries).
Proof. intros _. apply submitted_ids. Qed.

Lemma run_starts_min_workers_witness :
  (submitted (make_buckets 3 ["a"; "b"])).*1 = [0; 1].
Proof. apply (run_starts_min_workers 3 ["a"; "b"]). lia. Defined.

(** ** X10: simplifying a query again *)

Lemma startswith_full a b :
  startswith a b = true → String.length b ≤ String.length a → a = b.
Proof.
  revert b. induction a as [|x a IH]; intros [|y b]; simpl; try done; [lia|].
  destruct (Ascii.eqb_spec x y) as [->|]; [|done].
  intros Hab Hl. f_equal. apply IH; [done|lia].
Qed.

Lemma lstrip_full s : String.length s ≤ String.length (lstrip s) → lstrip s = s.
Proof.
  destruct s as [|c s]; [done|]. cbn [lstrip].
  destruct (is_space c); [|done].
  pose proof (lstrip_length s). simpl. lia.
Qed.

Lemma lstrip_plain s :
  (∀ c r, s = String c r → is_space c = false) → lstrip s = s.
Proof.
  destruct s as [|c s]; [done|]. intros Hs. cbn [lstrip].
  by rewrite (Hs c s eq_refl).
Qed.

Lemma simplify_query_plain r :
  contains " - " r = false → contains "(" r = false → contains "[" r = false →
  (∀ c r', r = String c r' → is_space c = false) →
  String.length r ≤ 90 →
  simplify_query r = rstrip r.
Proof.
  intros H1 H2 H3 Hh Hl.
  rewrite simplify_query_unfold. unfold simplify_query_spec, strip.
  rewrite truncate_clean, lstrip_plain by done.
  apply str_take_all.
  pose proof (startswith_length _ _ (rstrip_prefix r)). lia.
Qed.

Lemma contains_rstrip_false sep r :
  contains sep r = false → contains sep (rstrip r) = false.
Proof.
  intros Hr. destruct (contains sep (rstrip r)) eqn:Hc; [|done].
  apply (contains_prefix _ _ _ (rstrip_prefix r)) in Hc. congruence.
Qed.

(** X10. Simplifying a query either leaves it as it is or makes it strictly
    shorter, and simplifying settles after two rounds: a third round changes
    nothing. One round is not enough for every query, since the cut at 90
    characters can end on white space. *)
Theorem simplify_query_settles :
  (∀ q, simplify_query q = q
        ∨ String.length (simplify_query q) < String.length q)
  ∧ (∀ q, simplify_query (simplify_query (simplify_query q))
          = simplify_query (simplify_query q))
  ∧ ∃ q, simplify_query (simplify_query q) ≠ simplify_query q.
Proof.
  split; [|split].
  - intros q.
    destruct (decide (String.length (simplify_query q) < String.length q))
      as [|Hge]; [by right|left].
    revert Hge. rewrite simplify_query_unfold. unfold simplify_query_spec, strip.
    set (t := truncate_at_first_separator q).
    pose proof (str_take_prefix 90 (rstrip (lstrip t))) as P1.
    pose proof (rstrip_prefix (lstrip t)) as P2.
    pose proof (lstrip_length t) as L3.
    pose proof (truncate_prefix q) as P4. fold t in P4.
    pose proof (startswith_length _ _ P1) as L1.
    pose proof (startswith_length _ _ P2) as L2.
    pose proof (startswith_length _ _ P4) as L4.
    intros Hge.
    assert (t = q) as E4 by (apply startswith_full; [done|lia]).
    assert (lstrip t = t) as E3 by (apply lstrip_full; lia).
    assert (rstrip (lstrip t) = lstrip t) as E2
      by (apply startswith_full; [done|lia]).
    assert (str_take 90 (rstrip (lstrip t)) = rstrip (lstrip t)) as E1
      by (apply startswith_full; [done|lia]).
    by rewrite E1, E2, E3.
  - intros q.
    destruct (simplify_query_is_plain_parts q) as (H1 & H2 & H3 & Hh & Hl).
    rewrite (simplify_query_plain (simplify_query q)) by done.
    rewrite simplify_query_plain.
    + apply rstrip_idemp.
    + by apply contains_rstrip_false.
    + by apply contains_rstrip_false.
    + by apply contains_rstrip_false.
    + intros c r' Hr.
      pose proof (rstrip_prefix (simplify_query q)) as Hp. rewrite Hr in Hp.
      apply startswith_head in Hp as [s' Hs']. by eapply Hh.
    + pose proof (startswith_length _ _ (rstrip_prefix (simplify_query q))). lia.
  - exists ("aaaaaaaaaaaaaaaaaaaaaaaaaaaaaaaaaaaaaaaaaaaaaaaaaaaaaaaaaaaaaaaaaaaaaaaaaaaaaaaaaaaaaaaaa"
            +:+ " b").
    vm_compute. done.
Qed.

(** ** X11: runs without work *)

Lemma read_queries_nil (rows : list row) :
  read_queries rows = [] ↔ Forall (λ r, track_of r = EmptyString) rows.
Proof.
  induction rows as [|r rows IH]; [by split|].
  simpl read_queries. rewrite Forall_cons.
  destruct (track_of r) as [|c t]; simpl nonempty; cbv iota.
  - rewrite IH. split; [by split|by intros [_ ?]].
  - split; [done|]. by intros [? _].
Qed.

(** X11. [run] starts no worker exactly when no row of the CSV has a track
    name or the concurrency is 0. In the first case it prints that there are
    no queries and returns; in the second, with queries to process, it prints
    the total and ends with the exception of the modulo by zero. *)
Theorem run_without_work {H} (hst : Host H) concurrency rows t0 (hosts : nat → H) :
  let rep := run hst concurrency rows t0 hosts in
  (workers rep = []
   ↔ Forall (λ r, track_of r = EmptyString) rows ∨ concurrency = 0)
  ∧ (Forall (λ r, track_of r = EmptyString) rows →
     rep = Report (Ok ()) [LNoQueries] [])
  ∧ (¬ Forall (λ r, track_of r = EmptyString) rows → concurrency = 0 →
     ∃ e, rep = Report (Raise e)
                  [LTotal (length (read_queries rows)) 0] []).
Proof.
  intros rep. subst rep. rewrite <- read_queries_nil. unfold run.
  pose proof (submitted_ids concurrency (read_queries rows)) as Hids.
  destruct (read_queries rows) as [|q queries] eqn:Hq.
  - split; [|split]; [split; auto|done|done].
  - destruct (Nat.eqb_spec concurrency 0) as [->|Hc].
    + split; [|split]; [split; auto|done|eauto].
    + split; [|split]; [|done|done].
      split; [|by intros [|]].
      intros Hw. exfalso. cbv zeta in Hw.
      assert (run_worker hst t0 hosts
              <$> submitted (make_buckets concurrency (q :: queries)) = [])
        as Hres by (destruct (forallb _ _) in Hw; exact Hw).
      clear Hw. rename Hres into Hw.
      apply fmap_nil_inv in Hw. rewrite Hw in Hids.
      destruct concurrency; [done|]. simpl in Hids. done.
Qed.

(** ** X12: a numbered name keeps its extension *)

Lemma string_app_assoc (a b c : string) : a +:+ (b +:+ c) = (a +:+ b) +:+ c.
Proof. induction a as [|x a IH]; [done|]. by rewrite !append_cons, IH. Qed.

Lemma rfind_dot_app p t j :
  rfind_dot t = Some j → rfind_dot (p +:+ t) = Some (String.length p + j).
Proof.
  intros Ht. induction p as [|x p IH]; [done|].
  rewrite append_cons. cbn [rfind_dot String.length]. by rewrite IH.
Qed.

Lemma rfind_dot_drop s i :
  rfind_dot s = Some i → rfind_dot (str_drop i s) = Some 0.
Proof.
  revert i. induction s as [|c s IH]; intros i; [done|].
  cbn [rfind_dot]. destruct (rfind_dot s) as [j|] eqn:Hj.
  - intros [= <-]. cbn [str_drop]. by apply IH.
  - destruct (Ascii.eqb c ".") eqn:Hc; [|done]. intros [= <-].
    change (str_drop 0 (String c s)) with (String c s).
    cbn [rfind_dot]. by rewrite Hj, Hc.
Qed.

Lemma str_drop_length i s :
  String.length (str_drop i s) = String.length s - i.
Proof.
  revert s. induction i as [|i IH]; intros [|c s]; try done.
  cbn [str_drop String.length]. by rewrite IH.
Qed.

Lemma str_drop_app p t : str_drop (String.length p) (p +:+ t) = t.
Proof.
  induction p as [|x p IH]; [by destruct t|].
  by rewrite append_cons.
Qed.

Lemma str_take_app p t : str_take (String.length p) (p +:+ t) = p.
Proof.
  induction p as [|x p IH]; [by destruct t|].
  rewrite append_cons. cbn [String.length str_take]. by rewrite IH.
Qed.

Lemma suffix_of_app pre suf :
  pre ≠ EmptyString → rfind_dot suf = Some 0 → 2 ≤ String.length suf →
  suffix (pre +:+ suf) = suf ∧ stem (pre +:+ suf) = pre.
Proof.
  intros Hpre Hdot Hlen. unfold suffix, stem, suffix_at.
  rewrite (rfind_dot_app pre suf 0 Hdot), Nat.add_0_r, string_app_length.
  assert (0 < String.length pre) as Hp by (destruct pre; [done|simpl; lia]).
  destruct (Nat.ltb_spec 0 (String.length pre)); [|lia].
  destruct (Nat.ltb_spec (String.length pre)
              (String.length pre + String.length suf - 1)); [|lia].
  cbn [andb]. by rewrite str_drop_app, str_take_app.
Qed.

Lemma suffix_shape s :
  suffix s ≠ EmptyString →
  rfind_dot (suffix s) = Some 0 ∧ 2 ≤ String.length (suffix s).
Proof.
  unfold suffix, suffix_at.
  destruct (rfind_dot s) as [i|] eqn:Hi; [|done].
  destruct (Nat.ltb_spec 0 i); [|done].
  destruct (Nat.ltb_spec i (String.length s - 1)); [|done].
  cbn [andb]. intros _. split; [by apply rfind_dot_drop|].
  rewrite str_drop_length. lia.
Qed.

Lemma numbered_suffix s k :
  suffix s ≠ EmptyString →
  suffix (numbered s k) = suffix s
  ∧ stem (numbered s k) = stem s +:+ " (" +:+ pretty k +:+ ")".
Proof.
  intros Hs. destruct (suffix_shape s Hs) as [Hdot Hlen].
  unfold numbered.
  rewrite (string_app_assoc (pretty k)), (string_app_assoc " ("),
    (string_app_assoc (stem s)).
  apply suffix_of_app; [|done..].
  intros Hnil. apply (f_equal String.length) in Hnil.
  rewrite !string_app_length in Hnil. simpl in Hnil. lia.
Qed.

Lemma first_free_numbered fuel (taken : gset string) s k t :
  first_free fuel taken s k = Some t → ∃ j, t = numbered s j.
Proof.
  revert k. induction fuel as [|fuel IH]; intros k; [done|].
  cbn [first_free]. cbv zeta.
  destruct (decide (numbered s k ∈ taken)); [apply IH|].
  intros [= <-]. eauto.
Qed.

(** X12. The name a downloaded file gets in [DOWNLOADS] keeps the extension
    of the file: when the name has a suffix, the resolved name has the same
    suffix, and it is the name itself or its stem followed by [" (k)"]. *)
Theorem resolve_collision_keeps_suffix (taken : gset string) s t :
  suffix s ≠ EmptyString →
  resolve_collision taken s = Some t →
  suffix t = suffix s
  ∧ (t = s ∨ ∃ k : nat, stem t = stem s +:+ " (" +:+ pretty k +:+ ")").
Proof.
  intros Hs. unfold resolve_collision.
  destruct (decide (s ∈ taken)); [|intros [= <-]; auto].
  intros [j ->]%first_free_numbered.
  destruct (numbered_suffix s j Hs) as [-> Hstem]. eauto.
Qed.

Lemma resolve_collision_keeps_suffix_witness :
  suffix "Song (1).mp3" = suffix "Song.mp3"
  ∧ ("Song (1).mp3" = "Song.mp3"
     ∨ ∃ k : nat,
         stem "Song (1).mp3" = stem "Song.mp3" +:+ " (" +:+ pretty k +:+ ")").
Proof.
  apply (resolve_collision_keeps_suffix {["Song.mp3"]} "Song.mp3" "Song (1).mp3").
  - vm_compute. discriminate.
  - vm_compute. reflexivity.
Defined.

(** ** X13: a worker moves only its own files *)

Lemma housekeeping_own_move worker_dir tr :
  Forall housekeeping tr →
  Forall (own_move worker_dir) tr ∧ count is_move tr = 0
  ∧ count is_downloaded tr = 0.
Proof.
  induction 1 as [|e tr He _ (IH1 & IH2 & IH3)]; [done|].
  change (e :: tr) with ([e] ++ tr). rewrite !count_app, IH2, IH3.
  split; [|by destruct e].
  apply Forall_app. split; [|done]. constructor; [|done]. by destruct e.
Qed.

Lemma query_run_own_move worker_dir t r tr :
  query_run worker_dir t r tr →
  Forall (own_move worker_dir) tr
  ∧ count is_move tr = count is_downloaded tr
  ∧ count is_move tr ≤ 1.
Proof.
  destruct 1; (split; [|split; vm_compute; lia]);
    repeat (apply Forall_cons; split); try apply Forall_nil; simpl; auto.
Qed.

Lemma tasks_run_own_move worker_dir tasks r tr :
  tasks_run worker_dir tasks r tr →
  Forall (own_move worker_dir) tr
  ∧ count is_move tr = count is_downloaded tr
  ∧ count is_move tr ≤ length tasks.
Proof.
  induction 1 as [|t ts r tr1 tr2 Hq _ (IH1 & IH2 & IH3)|t ts e tr Hq].
  - done.
  - destruct (query_run_own_move _ _ _ _ Hq) as (H1 & H2 & H3).
    rewrite !count_app. split; [by apply Forall_app|]. simpl. lia.
  - destruct (query_run_own_move _ _ _ _ Hq) as (H1 & H2 & H3).
    split; [done|]. simpl. lia.
Qed.

(** X13. Whatever the host does, every [shutil.move] of a worker takes a
    file of the worker's own folder to [DOWNLOADS], every file it reports as
    downloaded is in one of these two folders, and it moves once for every
    line [Downloaded], at most once per task. *)
Theorem worker_moves_own_files {H} (hst : Host H) worker_id tasks (w : world H) :
  ∃ r w' tr,
    process_worker hst worker_id tasks w = (r, w')
    ∧ log w' = log w ++ tr
    ∧ Forall (own_move (WorkerDir (worker_id + 1))) tr
    ∧ count is_move tr = count is_downloaded tr
    ∧ count is_move tr ≤ length tasks.
Proof.
  destruct (process_worker_spec hst worker_id tasks w)
    as (r & w' & pre & mid & post & Hp & _ & Hl & Hpre & Hpost & _ & Hcase).
  exists r, w', (pre ++ mid ++ post). split; [done|]. split; [done|].
  destruct (housekeeping_own_move (WorkerDir (worker_id + 1)) pre Hpre)
    as (P1 & P2 & P3).
  destruct (housekeeping_own_move (WorkerDir (worker_id + 1)) post Hpost)
    as (Q1 & Q2 & Q3).
  rewrite !count_app, P2, P3, Q2, Q3.
  destruct Hcase as [(-> & _)|(r0 & post' & Hrun & _ & _)].
  - split; [|split; [done|simpl; lia]].
    apply Forall_app. split; [done|]. by apply Forall_app.
  - destruct (tasks_run_own_move _ _ _ _ Hrun) as (M1 & M2 & M3).
    split; [|lia].
    apply Forall_app. split; [done|]. by apply Forall_app.
Qed.

(** ** X14: file names of the playlist downloader *)

Lemma has_char_cons c a s :
  has_char c (String a s) = Ascii.eqb c a || has_char c s.
Proof.
  unfold has_char. cbn [contains startswith]. by destruct (Ascii.eqb c a).
Qed.

Lemma remove_char_gone c s : has_char c (remove_char c s) = false.
Proof.
  induction s as [|a s IH]; [done|]. cbn [remove_char].
  destruct (Ascii.eqb_spec a c) as [->|Hne]; [done|].
  rewrite has_char_cons, IH, orb_false_r. apply Ascii.eqb_neq. congruence.
Qed.

Lemma remove_char_keeps_absent c d s :
  has_char c s = false → has_char c (remove_char d s) = false.
Proof.
  induction s as [|a s IH]; [done|]. rewrite has_char_cons.
  intros [Hca Hs]%orb_false_iff. cbn [remove_char].
  destruct (Ascii.eqb a d); [by apply IH|].
  by rewrite has_char_cons, Hca, IH.
Qed.

Lemma remove_char_absent c s : has_char c s = false → remove_char c s = s.
Proof.
  induction s as [|a s IH]; [done|]. rewrite has_char_cons.
  intros [Hca Hs]%orb_false_iff. cbn [remove_char].
  rewrite Ascii.eqb_sym, Hca. f_equal. by apply IH.
Qed.

Lemma remove_chars_keep_absent c cs s :
  has_char c s = false →
  has_char c (foldl (λ f d, remove_char d f) s cs) = false.
Proof.
  revert s. induction cs as [|d cs IH]; intros s Hs; [done|].
  simpl. by apply IH, remove_char_keeps_absent.
Qed.

Lemma remove_chars_gone c cs s :
  c ∈ cs → has_char c (foldl (λ f d, remove_char d f) s cs) = false.
Proof.
  revert s. induction cs as [|d cs IH]; intros s Hc.
  - by apply elem_of_nil in Hc.
  - simpl. apply elem_of_cons in Hc as [->|Hc]; [|by apply IH].
    apply remove_chars_keep_absent, remove_char_gone.
Qed.

Lemma remove_chars_absent cs s :
  Forall (λ c, has_char c s = false) cs →
  foldl (λ f d, remove_char d f) s cs = s.
Proof.
  induction 1 as [|d cs Hd _ IH]; [done|].
  simpl. by rewrite remove_char_absent.
Qed.

(** X14. The file name [sanitize_filename] returns holds none of the
    characters [< > : / \ | ? *] nor a double quote, has at most 200
    characters and does not begin with white space; a name without those characters and without
    surrounding white space, of at most 200 characters, is returned
    unchanged. *)
Theorem sanitize_filename_is_clean (filename : string) :
  Forall (λ c, has_char c (sanitize_filename filename) = false) invalid_chars
  ∧ String.length (sanitize_filename filename) ≤ 200
  ∧ (∀ c r, sanitize_filename filename = String c r → is_space c = false)
  ∧ (Forall (λ c, has_char c filename = false) invalid_chars →
     strip filename = filename → String.length filename ≤ 200 →
     sanitize_filename filename = filename).
Proof.
  unfold sanitize_filename. cbv zeta.
  set (f := foldl (λ f c, remove_char c f) filename invalid_chars).
  split; [|split; [|split]].
  - apply Forall_forall. intros c Hc. unfold has_char, strip.
    destruct (contains _ (str_take 200 _)) eqn:Hin; [|done].
    apply (contains_prefix _ _ _ (str_take_prefix _ _)) in Hin.
    apply (contains_prefix _ _ _ (rstrip_prefix _)) in Hin.
    apply contains_lstrip in Hin.
    pose proof (remove_chars_gone c invalid_chars filename Hc) as Hgone.
    unfold has_char in Hgone. fold f in Hgone. congruence.
  - apply str_take_length.
  - intros c r Hr. unfold strip in Hr.
    pose proof (str_take_prefix 200 (rstrip (lstrip f))) as Hp.
    rewrite Hr in Hp. apply startswith_head in Hp as [s1 Hs1].
    pose proof (rstrip_prefix (lstrip f)) as Hp.
    rewrite Hs1 in Hp. apply startswith_head in Hp as [s2 Hs2].
    by apply lstrip_head in Hs2.
  - intros Hclean Hs Hl. subst f.
    rewrite remove_chars_absent, Hs by done. by apply str_take_all.
Qed.

(** ** X15: the retries of [build_driver] follow at once *)

Section immediate_retries.
Context {H : Type} (hst : Host H).

Hypothesis mkdir_instant : ∀ d t h, took (mkdir hst d t h) = 0%N.
Hypothesis exists_instant : ∀ p t h, took (path_exists hst p t h) = 0%N.
Hypothesis rmtree_instant : ∀ p t h, took (rmtree hst p t h) = 0%N.
Hypothesis mkdtemp_instant : ∀ t h, took (mkdtemp hst t h) = 0%N.
Hypothesis chrome_instant : ∀ p d t h, took (chrome hst p d t h) = 0%N.
Hypothesis mkdtemp_error :
  ∀ t h e, ans (mkdtemp hst t h) = inl e → is_session_not_created e = false.

Lemma calm_ret {A} (a : A) : calm (H:=H) (mret a).
Proof. by intros w r w' [= <- <-]. Qed.

Lemma calm_raise {A} e :
  is_session_not_created e = false → calm (H:=H) (raise (A:=A) e).
Proof. intros He w r w' [= <- <-]. split; [done|]. by intros ? [= <-]. Qed.

Lemma calm_emit e : calm (H:=H) (emit e).
Proof. by intros w r w' [= <- <-]. Qed.

Lemma calm_ask {A} (c : hask H A) :
  (∀ t h, took (c t h) = 0%N) → calm (ask c).
Proof.
  intros Hc w r w'. unfold ask. intros [= <- <-]. simpl. rewrite Hc.
  split; [lia|done].
Qed.

Lemma calm_attempt {A} (c : hcall H A) :
  (∀ t h, took (c t h) = 0%N) → calm (attempt (call c)).
Proof.
  intros Hc w r w'. rewrite attempt_eq. unfold call.
  destruct (ans (c (now w) (host w))); intros [= <- <-]; simpl; rewrite Hc;
    (split; [lia|done]).
Qed.

Lemma calm_bind {A B} (m : M H A) (k : A → M H B) :
  calm m → (∀ a, calm (k a)) → calm (m ≫= k).
Proof.
  intros Hm Hk w r w'. rewrite mbind_bind. unfold bind.
  destruct (m w) as [[a|e|] w1] eqn:Hmw.
  - intros Hka. destruct (Hm _ _ _ Hmw) as [E1 _].
    destruct (Hk _ _ _ _ Hka) as [E2 Hr]. split; [congruence|done].
  - intros [= <- <-]. destruct (Hm _ _ _ Hmw) as [E1 He].
    split; [done|]. intros e0 [= <-]. by apply He.
  - intros [= <- <-]. destruct (Hm _ _ _ Hmw) as [E1 _]. by split.
Qed.

Lemma calm_mkdtemp : calm (call (mkdtemp hst)).
Proof.
  intros w r w'. unfold call.
  destruct (ans (mkdtemp hst (now w) (host w))) as [e|fresh] eqn:Ha;
    intros [= <- <-]; simpl; rewrite mkdtemp_instant; (split; [lia|]).
  - intros ? [= <-]. by eapply mkdtemp_error.
  - done.
Qed.

Lemma instant_build_driver_attempt base_dir user_data :
  instant (build_driver_attempt hst base_dir user_data).
Proof.
  intros w r w'. unfold build_driver_attempt, try_except.
  match goal with
  | |- context [match ?m w with _ => _ end] =>
      assert (calm m) as Hcalm; [|destruct (m w) as [[a|e|] w1] eqn:Hm]
  end.
  { apply calm_bind.
    { destruct user_data as [old|]; [|apply calm_ret].
      apply calm_bind; [by apply calm_ask|]. intros [|]; [|apply calm_ret].
      apply calm_bind; [by apply calm_ask|]. intros; apply calm_emit. }
    intros _. apply calm_bind; [apply calm_mkdtemp|]. intros fresh.
    apply calm_bind; [apply calm_emit|]. intros _.
    apply calm_bind; [by apply calm_attempt|]. intros x.
    apply calm_bind; [apply calm_emit|]. intros _.
    destruct x as [e|[]]; [|apply calm_ret].
    destruct (is_session_not_created e) eqn:He;
      [apply calm_ret|by apply calm_raise]. }
  - intros [= <- <-]. by destruct (Hcalm _ _ _ Hm).
  - destruct (Hcalm _ _ _ Hm) as [E1 He]. rewrite (He e eq_refl).
    by intros [= <- <-].
  - intros [= <- <-]. by destruct (Hcalm _ _ _ Hm).
Qed.

Lemma instant_build_driver_loop attempts base_dir user_data last_err :
  instant (build_driver_loop hst attempts base_dir user_data last_err).
Proof.
  revert user_data last_err.
  induction attempts as [|n IH]; intros user_data last_err.
  - by intros w r w' [= <- <-].
  - cbn [build_driver_loop].
    apply instant_bind; [apply instant_build_driver_attempt|].
    intros [d|[ud le]]; [apply instant_ret|apply IH].
Qed.

Lemma instant_build_driver download_dir : instant (build_driver hst download_dir).
Proof.
  unfold build_driver. cbv zeta.
  apply instant_bind; [by apply instant_call|]. intros _.
  apply instant_bind; [by apply instant_call|]. intros _.
  apply instant_build_driver_loop.
Qed.
End immediate_retries.

(** X15. [build_driver] does not pause between its launch attempts: on a
    host that answers at once, and whose [mkdtemp] raises no
    [SessionNotCreatedException], it ends at the time it was called, however
    many launches failed. The pause of one second is taken only when the
    preparation of the profile folder raises that exception. *)
Theorem build_driver_retries_at_once {H} (hst : Host H)
    download_dir (w w' : world H) r :
  (∀ d t h, took (mkdir hst d t h) = 0%N) →
  (∀ p t h, took (path_exists hst p t h) = 0%N) →
  (∀ p t h, took (rmtree hst p t h) = 0%N) →
  (∀ t h, took (mkdtemp hst t h) = 0%N) →
  (∀ p d t h, took (chrome hst p d t h) = 0%N) →
  (∀ t h e, ans (mkdtemp hst t h) = inl e → is_session_not_created e = false) →
  build_driver hst download_dir w = (r, w') →
  now w' = now w.
Proof.
  intros H1 H2 H3 H4 H5 H6 Hb.
  exact (instant_build_driver hst H1 H2 H3 H4 H5 H6 download_dir _ _ _ Hb).
Qed.

(** A host on which no browser starts: three failed launches, no time
    taken. *)
Lemma build_driver_retries_at_once_witness :
  let w := start no_browser_script in
  let res := build_driver scripted (Some (WorkerDir 1)) w in
  res = (res.1, res.2)
  ∧ count is_failed_launch (log res.2) = 3
  ∧ now res.2 = now w.
Proof.
  intros w res.
  assert (res = (res.1, res.2)) as Hres by (destruct res; reflexivity).
  assert (count is_failed_launch (log res.2) = 3) as H3
    by (vm_compute; reflexivity).
  exact (conj Hres (conj H3
           (build_driver_retries_at_once scripted (Some (WorkerDir 1)) w
              res.2 res.1 (λ _ _ _, eq_refl) (λ _ _ _, eq_refl)
              (λ _ _ _, eq_refl) (λ _ _, eq_refl) (λ _ _ _ _, eq_refl)
              (λ t h e (Hm : ans (mkdtemp scripted t h) = inl e),
                 match Hm in _ = x return
                   match x with inl e' => is_session_not_created e' = false
                              | inr _ => True end
                 with eq_refl => I end)
              Hres))).
Defined.

(** ** X16: a download that never shows a partial file *)

Section no_partial_file.
Context {H : Type} (hst : Host H) (Inv : H → Prop) (ddir : dir).

Hypothesis no_partial :
  ∀ t h, Inv h →
    Inv (host_after (listdir hst ddir t h))
    ∧ filter is_crdownload (ans (listdir hst ddir t h)) = [].

Lemma phase1_without_partial fuel ts deadline (w w' : world H) r :
  Inv (host w) →
  phase1 hst fuel ddir ts deadline w = (r, w') →
  r = Unfinished ∨ (r = Ok None ∧ (deadline ≤ now w')%Z).
Proof.
  revert w. induction fuel as [|fuel IH]; intros w Hinv.
  { intros [= <- <-]. by left. }
  cbn [phase1]. rewrite mbind_bind. unfold bind at 1, time.
  destruct (Z.ltb_spec (now w) deadline) as [Hlt|Hge].
  - destruct (no_partial (now w) (host w) Hinv) as [Hinv' Hnone].
    rewrite mbind_bind. unfold bind at 1, ask. cbv zeta.
    rewrite Hnone. cbn [scan_latest].
    rewrite mbind_bind. unfold bind at 1. unfold mret at 1, M_ret, ret.
    rewrite mbind_bind. unfold bind at 1, sleep.
    intros Hn. apply IH in Hn; [done|exact Hinv'].
  - intros [= <- <-]. right. split; [done|lia].
Qed.
End no_partial_file.

(** X16. When no listing of the watched folder ever shows a [.crdownload]
    file, [wait_for_download] does not return before its deadline, whatever
    it returns: a download that is complete before the first poll sees it as
    partial is only picked up by the final scan, once the whole timeout has
    passed. *)
Theorem wait_for_download_late_without_partial {H} (hst : Host H)
    (Inv : H → Prop) ts timeout download_dir (w w' : world H) r :
  (∀ t h, Inv h →
     Inv (host_after (listdir hst (default Downloads download_dir) t h))
     ∧ filter is_crdownload
         (ans (listdir hst (default Downloads download_dir) t h)) = []) →
  Inv (host w) →
  wait_for_download hst ts timeout download_dir w = (r, w') →
  (now w + timeout ≤ now w')%Z.
Proof.
  intros Hno Hinv Hw.
  assert (r ≠ Unfinished) as Hfin.
  { destruct (tame_wait_for_download hst nothing ts timeout download_dir w)
      as (r0 & w0 & Hw0 & Hfin & _). congruence. }
  revert Hw. unfold wait_for_download. rewrite mbind_bind.
  unfold bind at 1, time. cbv zeta. rewrite mbind_bind. unfold bind at 1.
  destruct (phase1 hst _ _ ts (now w + timeout) w) as [[[c|]|e|] w1] eqn:Hp1;
    apply (phase1_without_partial hst Inv _ Hno) in Hp1 as [?|[? Hlate]];
    try done.
  - intros Hfb.
    assert (tame nothing
              (names ← ask (listdir hst (default Downloads download_dir));
               scan_new hst (default Downloads download_dir) ts names))
      as Htame by (intros w2; tame_step; [tame|apply tame_scan_new]).
    destruct (Htame w1) as (r2 & w2 & Hw2 & _ & Ht & _).
    rewrite Hfb in Hw2. injection Hw2 as <- <-. lia.
  - intros [= <- <-]. done.
Qed.

(** In the folder of the witness the finished file is there from time 1000
    on, never as a partial file: it is returned after the full ten
    seconds. *)
Lemma wait_for_download_late_without_partial_witness :
  let d := WorkerDir 1 in
  let w := start (move_fails_script d) in
  let res := wait_for_download scripted 0 10000 (Some d) w in
  res.1 = Ok (Some (Path d "song.mp3"))
  ∧ (now w + 10000 ≤ now res.2)%Z.
Proof.
  intros d w res.
  assert (res.1 = Ok (Some (Path d "song.mp3"))) as Hr
    by (vm_compute; reflexivity).
  assert (res = (res.1, res.2)) as Hres by (destruct res; reflexivity).
  refine (conj Hr
    (wait_for_download_late_without_partial scripted
       (λ h, h = move_fails_script d) 0 10000 (Some d) w res.2 res.1
       _ eq_refl Hres)).
  intros t h ->. split; [reflexivity|].
  cbn. destruct (1000 <=? t)%Z; reflexivity.
Defined.
